(** * QuizMaster: the room/session coordination layer

    A shallow embedding of [server/storage.ts] (the in-memory entity store),
    [server/routes.ts] (the REST controller and the WebSocket hub),
    [server/services/openai.ts] (question generation with its fallback) and
    the request schemas of [shared/schema.ts], with the properties of the
    specification stated over it.

    Conventions of the embedding:
    - a JavaScript [Map] is an insertion-ordered association list
      ([JSMap]): [set] on a present key replaces the value where it stands,
      [set] on an absent key appends, iteration follows insertion order;
    - JavaScript numbers are integers ([Z]), as the integer columns of the
      schema declare them; [x || d] on a number is [d] when [x] is [0] or
      undefined;
    - [new Date()], [Math.random()] and the answer of the text-completion
      service are inputs of the handler that consumes them;
    - an [async] function that awaits only store calls is a function from
      the store to the new store and the result;
    - a WebSocket connection is an entry of a heap of sockets, named by a
      number; [clients] maps a player token to such a name, so that two
      tokens can share one socket and a write to the socket is seen
      through both. *)

From Stdlib Require Import List String Ascii ZArith Bool Lia PeanoNat.
From Stdlib Require Import Sorted Permutation.
Import ListNotations.

Open Scope string_scope.
Open Scope list_scope.
Open Scope Z_scope.

(** ** Keys with a boolean equality ([===] on strings and numbers) *)

Class KeyEq (K : Type) := {
  keqb : K -> K -> bool;
  keqb_eq : forall a b, keqb a b = true <-> a = b
}.

#[export] Instance string_KeyEq : KeyEq string :=
  {| keqb := String.eqb; keqb_eq := String.eqb_eq |}.

#[export] Instance Z_KeyEq : KeyEq Z :=
  {| keqb := Z.eqb; keqb_eq := Z.eqb_eq |}.

(** ** The JavaScript [Map], in insertion order *)

Module JSMap.

Section Ops.
Context {K V : Type} `{KeyEq K}.

Definition t := list (K * V).

Definition empty : t := [].

Fixpoint get (k : K) (m : t) : option V :=
  match m with
  | [] => None
  | (k', v) :: m' => if keqb k' k then Some v else get k m'
  end.

Definition has (k : K) (m : t) : bool :=
  match get k m with Some _ => true | None => false end.

(** [Map.prototype.set]: the entry keeps its place when the key is
    present, and goes last when it is new. *)
Definition set (k : K) (v : V) (m : t) : t :=
  if has k m
  then map (fun e => if keqb (fst e) k then (fst e, v) else e) m
  else m ++ [(k, v)].

(** [Map.prototype.delete]; its boolean result is [has k m]. *)
Definition delete (k : K) (m : t) : t :=
  filter (fun e => negb (keqb (fst e) k)) m.

Definition keys (m : t) : list K := map fst m.

(** [Array.from(m.values())] *)
Definition values (m : t) : list V := map snd m.

(** [for (const k of ks) m.delete(k)] *)
Definition delete_all (ks : list K) (m : t) : t :=
  fold_left (fun acc k => delete k acc) ks m.

End Ops.

Arguments t : clear implicits.

End JSMap.

(** ** JavaScript helpers *)

(** [x || d] for an optional number: [d] when [x] is undefined or [0]. *)
Definition num_or (x : option Z) (d : Z) : Z :=
  match x with
  | Some v => if v =? 0 then d else v
  | None => d
  end.

(** [x || d] for an optional boolean. *)
Definition bool_or (x : option bool) (d : bool) : bool :=
  match x with
  | Some true => true
  | _ => d
  end.

(** [Array.prototype.sort(cmp)] is stable: an element is placed before the
    first element that does not compare below it. *)
Fixpoint sort_insert {A} (cmp : A -> A -> Z) (x : A) (l : list A) : list A :=
  match l with
  | [] => [x]
  | y :: l' => if cmp x y <=? 0 then x :: l else y :: sort_insert cmp x l'
  end.

Definition js_sort {A} (cmp : A -> A -> Z) (l : list A) : list A :=
  fold_right (sort_insert cmp) [] l.

(** [l.slice(0, n)]: a negative [n] counts from the end. *)
Definition slice0 {A} (l : list A) (n : Z) : list A :=
  if n <? 0
  then firstn (Z.to_nat (Z.max 0 (Z.of_nat (List.length l) + n))) l
  else firstn (Z.to_nat n) l.

(** JSON values, as [JSON.parse] returns them (numbers integer-valued). *)
#[warnings="-register-all"]
Inductive JValue : Type :=
  | JUndefined
  | JNull
  | JBool (b : bool)
  | JNum (n : Z)
  | JStr (s : string)
  | JArr (items : list JValue)
  | JObj (props : list (string * JValue)).

(** ** The data model ([shared/schema.ts]) *)

(** [status]: "waiting", "active", "finished". *)
Inductive Status : Type := waiting | active | finished.

Definition Status_eqb (a b : Status) : bool :=
  match a, b with
  | waiting, waiting | active, active | finished, finished => true
  | _, _ => false
  end.

Module QuizRoom.
Record t : Type := mk {
  id : Z;
  roomCode : string;
  hostId : string;
  topic : string;
  questionCount : Z;
  timePerQuestion : Z;
  status : Status;
  currentQuestionIndex : Z;
  createdAt : Z
}.

(** [Partial<QuizRoom>] *)
Record partial : Type := mkPartial {
  p_id : option Z;
  p_roomCode : option string;
  p_hostId : option string;
  p_topic : option string;
  p_questionCount : option Z;
  p_timePerQuestion : option Z;
  p_status : option Status;
  p_currentQuestionIndex : option Z;
  p_createdAt : option Z
}.

Definition no_updates : partial :=
  mkPartial None None None None None None None None None.

(** [{ status: s }] *)
Definition only_status (s : Status) : partial :=
  mkPartial None None None None None None (Some s) None None.

(** [{ currentQuestionIndex: i }] *)
Definition only_index (i : Z) : partial :=
  mkPartial None None None None None None None (Some i) None.

Definition pick {A} (u : option A) (old : A) : A :=
  match u with Some v => v | None => old end.

(** [{ ...room, ...updates }] *)
Definition spread (room : t) (updates : partial) : t :=
  mk (pick (p_id updates) (id room))
     (pick (p_roomCode updates) (roomCode room))
     (pick (p_hostId updates) (hostId room))
     (pick (p_topic updates) (topic room))
     (pick (p_questionCount updates) (questionCount room))
     (pick (p_timePerQuestion updates) (timePerQuestion room))
     (pick (p_status updates) (status room))
     (pick (p_currentQuestionIndex updates) (currentQuestionIndex room))
     (pick (p_createdAt updates) (createdAt room)).

(** [InsertQuizRoom]: the columns with a default are optional. *)
Record insert : Type := mkInsert {
  i_roomCode : string;
  i_hostId : string;
  i_topic : string;
  i_questionCount : option Z;
  i_timePerQuestion : option Z;
  i_status : option Status;
  i_currentQuestionIndex : option Z
}.
End QuizRoom.

Module Question.
Record t : Type := mk {
  id : Z;
  roomId : Z;
  questionText : JValue;
  options : JValue;
  correctAnswer : Z;
  order : Z
}.

(** [InsertQuestion] *)
Record insert : Type := mkInsert {
  i_roomId : Z;
  i_questionText : JValue;
  i_options : JValue;
  i_correctAnswer : Z;
  i_order : Z
}.
End Question.

Module Player.
Record t : Type := mk {
  id : Z;
  roomId : Z;
  name : string;
  playerId : string;
  score : Z;
  isHost : bool;
  joinedAt : Z
}.

(** [InsertPlayer] *)
Record insert : Type := mkInsert {
  i_roomId : Z;
  i_name : string;
  i_playerId : string;
  i_score : option Z;
  i_isHost : option bool
}.

(** [{ ...player, score }] *)
Definition with_score (p : t) (s : Z) : t :=
  mk (id p) (roomId p) (name p) (playerId p) s (isHost p) (joinedAt p).
End Player.

Module Answer.
Record t : Type := mk {
  id : Z;
  playerId : string;
  questionId : Z;
  selectedAnswer : Z;
  isCorrect : bool;
  timeToAnswer : Z;
  answeredAt : Z
}.

(** [InsertAnswer] *)
Record insert : Type := mkInsert {
  i_playerId : string;
  i_questionId : Z;
  i_selectedAnswer : Z;
  i_isCorrect : bool;
  i_timeToAnswer : Z
}.
End Answer.

(** ** The entity store ([class MemStorage]) *)

Module MemStorage.

Record t : Type := mk {
  quizRooms : JSMap.t string QuizRoom.t;
  questions : JSMap.t Z Question.t;
  players : JSMap.t string Player.t;
  answers : JSMap.t Z Answer.t;
  currentRoomId : Z;
  currentQuestionId : Z;
  currentPlayerId : Z;
  currentAnswerId : Z
}.

(** [new MemStorage()] *)
Definition init : t := mk [] [] [] [] 1 1 1 1.

Definition set_quizRooms (s : t) m : t :=
  mk m (questions s) (players s) (answers s)
     (currentRoomId s) (currentQuestionId s) (currentPlayerId s) (currentAnswerId s).
Definition set_questions (s : t) m : t :=
  mk (quizRooms s) m (players s) (answers s)
     (currentRoomId s) (currentQuestionId s) (currentPlayerId s) (currentAnswerId s).
Definition set_players (s : t) m : t :=
  mk (quizRooms s) (questions s) m (answers s)
     (currentRoomId s) (currentQuestionId s) (currentPlayerId s) (currentAnswerId s).
Definition set_answers (s : t) m : t :=
  mk (quizRooms s) (questions s) (players s) m
     (currentRoomId s) (currentQuestionId s) (currentPlayerId s) (currentAnswerId s).

Definition createQuizRoom (now : Z) (room : QuizRoom.insert) (s : t)
  : t * QuizRoom.t :=
  let newRoom :=
    QuizRoom.mk (currentRoomId s)
      (QuizRoom.i_roomCode room)
      (QuizRoom.i_hostId room)
      (QuizRoom.i_topic room)
      (num_or (QuizRoom.i_questionCount room) 10)
      (num_or (QuizRoom.i_timePerQuestion room) 10)
      (match QuizRoom.i_status room with Some st => st | None => waiting end)
      (num_or (QuizRoom.i_currentQuestionIndex room) 0)
      now in
  (mk (JSMap.set (QuizRoom.i_roomCode room) newRoom (quizRooms s))
      (questions s) (players s) (answers s)
      (currentRoomId s + 1) (currentQuestionId s) (currentPlayerId s)
      (currentAnswerId s),
   newRoom).

Definition getQuizRoomByCode (roomCode : string) (s : t) : option QuizRoom.t :=
  JSMap.get roomCode (quizRooms s).

Definition getQuizRoomByPlayerId (playerId : string) (s : t)
  : option QuizRoom.t :=
  match JSMap.get playerId (players s) with
  | None => None
  | Some player =>
      find (fun room => QuizRoom.id room =? Player.roomId player)
           (JSMap.values (quizRooms s))
  end.

Definition updateQuizRoom (roomCode : string) (updates : QuizRoom.partial)
    (s : t) : t * option QuizRoom.t :=
  match JSMap.get roomCode (quizRooms s) with
  | None => (s, None)
  | Some room =>
      let updatedRoom := QuizRoom.spread room updates in
      (set_quizRooms s (JSMap.set roomCode updatedRoom (quizRooms s)),
       Some updatedRoom)
  end.

Definition deleteQuizRoom (roomCode : string) (s : t) : t * bool :=
  (set_quizRooms s (JSMap.delete roomCode (quizRooms s)),
   JSMap.has roomCode (quizRooms s)).

(** One turn of the loop of [createQuestions]. *)
Definition createQuestion (acc : t * list Question.t)
    (question : Question.insert) : t * list Question.t :=
  let (s, createdQuestions) := acc in
  let newQuestion :=
    Question.mk (currentQuestionId s)
      (Question.i_roomId question)
      (Question.i_questionText question)
      (Question.i_options question)
      (Question.i_correctAnswer question)
      (Question.i_order question) in
  (mk (quizRooms s)
      (JSMap.set (Question.id newQuestion) newQuestion (questions s))
      (players s) (answers s)
      (currentRoomId s) (currentQuestionId s + 1) (currentPlayerId s)
      (currentAnswerId s),
   createdQuestions ++ [newQuestion]).

Definition createQuestions (questionList : list Question.insert) (s : t)
  : t * list Question.t :=
  fold_left createQuestion questionList (s, []).

Definition getQuestionsByRoomId (roomId : Z) (s : t) : list Question.t :=
  js_sort (fun a b => Question.order a - Question.order b)
    (filter (fun q => Question.roomId q =? roomId)
            (JSMap.values (questions s))).

Definition getQuestionByRoomAndOrder (roomId order : Z) (s : t)
  : option Question.t :=
  find (fun q => (Question.roomId q =? roomId) && (Question.order q =? order))
       (JSMap.values (questions s)).

Definition getQuestionById (questionId : Z) (s : t) : option Question.t :=
  JSMap.get questionId (questions s).

Definition createPlayer (now : Z) (player : Player.insert) (s : t)
  : t * Player.t :=
  let newPlayer :=
    Player.mk (currentPlayerId s)
      (Player.i_roomId player)
      (Player.i_name player)
      (Player.i_playerId player)
      (num_or (Player.i_score player) 0)
      (bool_or (Player.i_isHost player) false)
      now in
  (mk (quizRooms s) (questions s)
      (JSMap.set (Player.i_playerId player) newPlayer (players s))
      (answers s)
      (currentRoomId s) (currentQuestionId s) (currentPlayerId s + 1)
      (currentAnswerId s),
   newPlayer).

Definition getPlayersByRoomId (roomId : Z) (s : t) : list Player.t :=
  js_sort (fun a b => Player.score b - Player.score a)
    (filter (fun p => Player.roomId p =? roomId)
            (JSMap.values (players s))).

Definition getPlayerById (playerId : string) (s : t) : option Player.t :=
  JSMap.get playerId (players s).

Definition updatePlayerScore (playerId : string) (score : Z) (s : t)
  : t * option Player.t :=
  match JSMap.get playerId (players s) with
  | None => (s, None)
  | Some player =>
      let updatedPlayer := Player.with_score player score in
      (set_players s (JSMap.set playerId updatedPlayer (players s)),
       Some updatedPlayer)
  end.

Definition deletePlayer (playerId : string) (s : t) : t * bool :=
  (set_players s (JSMap.delete playerId (players s)),
   JSMap.has playerId (players s)).

Definition createAnswer (now : Z) (answer : Answer.insert) (s : t)
  : t * Answer.t :=
  let newAnswer :=
    Answer.mk (currentAnswerId s)
      (Answer.i_playerId answer)
      (Answer.i_questionId answer)
      (Answer.i_selectedAnswer answer)
      (Answer.i_isCorrect answer)
      (Answer.i_timeToAnswer answer)
      now in
  (mk (quizRooms s) (questions s) (players s)
      (JSMap.set (Answer.id newAnswer) newAnswer (answers s))
      (currentRoomId s) (currentQuestionId s) (currentPlayerId s)
      (currentAnswerId s + 1),
   newAnswer).

Definition getAnswersByQuestionId (questionId : Z) (s : t) : list Answer.t :=
  filter (fun a => Answer.questionId a =? questionId)
         (JSMap.values (answers s)).

Definition getAnswersByPlayerId (playerId : string) (s : t) : list Answer.t :=
  filter (fun a => String.eqb (Answer.playerId a) playerId)
         (JSMap.values (answers s)).

Definition hasPlayerAnswered (playerId : string) (questionId : Z) (s : t)
  : bool :=
  existsb (fun a => String.eqb (Answer.playerId a) playerId
                    && (Answer.questionId a =? questionId))
          (JSMap.values (answers s)).

Definition clearAnswersForPlayer (playerId : string) (s : t) : t * bool :=
  let answersToDelete :=
    filter (fun a => String.eqb (Answer.playerId a) playerId)
           (JSMap.values (answers s)) in
  (set_answers s (JSMap.delete_all (map Answer.id answersToDelete) (answers s)),
   true).

(** The third loop of [cleanupRoom], one question: the answers to it are
    read from the map as the earlier turns left it. *)
Definition deleteAnswersOf (ans : JSMap.t Z Answer.t) (question : Question.t)
  : JSMap.t Z Answer.t :=
  let questionAnswers :=
    filter (fun a => Answer.questionId a =? Question.id question)
           (JSMap.values ans) in
  JSMap.delete_all (map Answer.id questionAnswers) ans.

(** [answerCount] of the source is computed and never read; it is left
    out. *)
Definition cleanupRoom (roomCode : string) (s : t) : t * bool :=
  match JSMap.get roomCode (quizRooms s) with
  | None => (s, false)
  | Some room =>
      let roomPlayers :=
        filter (fun p => Player.roomId p =? QuizRoom.id room)
               (JSMap.values (players s)) in
      let players' :=
        JSMap.delete_all (map Player.playerId roomPlayers) (players s) in
      let roomQuestions :=
        filter (fun q => Question.roomId q =? QuizRoom.id room)
               (JSMap.values (questions s)) in
      let questions' :=
        JSMap.delete_all (map Question.id roomQuestions) (questions s) in
      let answers' := fold_left deleteAnswersOf roomQuestions (answers s) in
      let roomDeleted := JSMap.has roomCode (quizRooms s) in
      (mk (JSMap.delete roomCode (quizRooms s)) questions' players' answers'
          (currentRoomId s) (currentQuestionId s) (currentPlayerId s)
          (currentAnswerId s),
       roomDeleted)
  end.

Definition cleanupPlayer (playerId : string) (s : t) : t * bool :=
  match JSMap.get playerId (players s) with
  | None => (s, false)
  | Some player =>
      let playerAnswers :=
        filter (fun a => String.eqb (Answer.playerId a) playerId)
               (JSMap.values (answers s)) in
      let answers' :=
        JSMap.delete_all (map Answer.id playerAnswers) (answers s) in
      let playerDeleted := JSMap.has playerId (players s) in
      (mk (quizRooms s) (questions s)
          (JSMap.delete playerId (players s)) answers'
          (currentRoomId s) (currentQuestionId s) (currentPlayerId s)
          (currentAnswerId s),
       playerDeleted)
  end.

End MemStorage.

(** ** Question generation ([server/services/openai.ts]) *)

Module OpenAI.

(** [GeneratedQuestion]: the fields hold what the service sent, after the
    checks of [validate] below. *)
Record GeneratedQuestion : Type := mk {
  question : JValue;
  options : JValue;
  correctAnswer : Z
}.

Definition sample (q : string) (o1 o2 o3 o4 : string) (c : Z)
  : GeneratedQuestion :=
  mk (JStr q) (JArr [JStr o1; JStr o2; JStr o3; JStr o4]) c.

Definition FALLBACK_QUESTIONS : list GeneratedQuestion :=
  [ sample "What is the capital of France?"
      "London" "Berlin" "Paris" "Madrid" 2;
    sample "Which planet is known as the Red Planet?"
      "Venus" "Mars" "Jupiter" "Saturn" 1;
    sample "What is the largest ocean on Earth?"
      "Atlantic Ocean" "Indian Ocean" "Arctic Ocean" "Pacific Ocean" 3;
    sample "Who painted the Mona Lisa?"
      "Vincent van Gogh" "Leonardo da Vinci" "Pablo Picasso" "Michelangelo" 1;
    sample "What is the chemical symbol for gold?"
      "Ag" "Au" "Fe" "Cu" 1;
    sample "Which year did World War II end?"
      "1943" "1944" "1945" "1946" 2;
    sample "What is the main component of the sun?"
      "Liquid lava" "Molten iron" "Hot gases" "Solid rock" 2;
    sample "How many sides does a hexagon have?"
      "5" "6" "7" "8" 1;
    sample "Which country is home to the kangaroo?"
      "New Zealand" "South Africa" "Australia" "India" 2;
    sample "What is the largest mammal in the world?"
      "African Elephant" "Blue Whale" "Giraffe" "Hippopotamus" 1 ].

Fixpoint lookup (name : string) (props : list (string * JValue)) : JValue :=
  match props with
  | [] => JUndefined
  | (k, v) :: rest => if String.eqb k name then v else lookup name rest
  end.

(** [v.name] for the property names this file reads; [None] is the
    [TypeError] of a read on [null] or [undefined]. *)
Definition prop (v : JValue) (name : string) : option JValue :=
  match v with
  | JUndefined | JNull => None
  | JObj props => Some (lookup name props)
  | JArr items =>
      Some (if String.eqb name "length"
            then JNum (Z.of_nat (List.length items)) else JUndefined)
  | JStr s =>
      Some (if String.eqb name "length"
            then JNum (Z.of_nat (String.length s)) else JUndefined)
  | JBool _ | JNum _ => Some JUndefined
  end.

(** [!!v] *)
Definition truthy (v : JValue) : bool :=
  match v with
  | JUndefined | JNull => false
  | JBool b => b
  | JNum n => negb (n =? 0)
  | JStr s => negb (String.eqb s "")
  | JArr _ | JObj _ => true
  end.

(** The callback of [result.questions.map]; [None] is a throw. *)
Definition validate (q : JValue) : option GeneratedQuestion :=
  match prop q "question" with
  | None => None
  | Some qquestion =>
      if negb (truthy qquestion) then None else
      match prop q "options" with
      | Some (JArr items) =>
          if negb (Z.of_nat (List.length items) =? 4) then None else
          match prop q "correctAnswer" with
          | Some (JNum c) =>
              if (c <? 0) || (c >? 3) then None
              else Some (mk qquestion (JArr items) c)
          | _ => None
          end
      | _ => None
      end
  end.

(** [Array.prototype.map] with a callback that may throw. *)
Fixpoint map_throwing {A B} (f : A -> option B) (l : list A)
  : option (list B) :=
  match l with
  | [] => Some []
  | x :: l' =>
      match f x with
      | None => None
      | Some y =>
          match map_throwing f l' with
          | None => None
          | Some ys => Some (y :: ys)
          end
      end
  end.

(** What the [try] block has in hand when it reaches [result]: the call
    to the service, [response.json()], the check of [data.choices], the
    extraction of the JSON block and [JSON.parse] either threw, or gave
    the parsed [result]. *)
Inductive Upstream : Type :=
  | UpstreamThrows
  | UpstreamParsed (result : JValue).

(** The rest of the [try] block; [None] is a throw. *)
Definition validatedQuestions (result : JValue)
  : option (list GeneratedQuestion) :=
  match prop result "questions" with
  | Some (JArr qs) => map_throwing validate qs
  | _ => None
  end.

Definition generateQuizQuestions (up : Upstream) (topic : string)
    (questionCount : Z) : list GeneratedQuestion :=
  let attempt :=
    match up with
    | UpstreamThrows => None
    | UpstreamParsed result => validatedQuestions result
    end in
  match attempt with
  | Some validated => slice0 validated questionCount
  | None => slice0 FALLBACK_QUESTIONS questionCount
  end.

End OpenAI.

(** ** Request schemas ([shared/schema.ts]); [None] is a [ZodError] *)

(** [z.string().min(1)] and [z.string().length(n)], on strings of
    one-byte characters. *)
Definition nonempty (s : string) : bool := negb (String.eqb s "").
Definition has_length (s : string) (n : nat) : bool :=
  Nat.eqb (String.length s) n.

Module CreateQuiz.
Record body : Type := mkBody {
  b_topic : string;
  b_questionCount : option Z;
  b_timePerQuestion : option Z;
  b_hostId : string
}.
Record t : Type := mk {
  topic : string;
  questionCount : Z;
  timePerQuestion : Z;
  hostId : string
}.
Definition with_default (x : option Z) (d : Z) : Z :=
  match x with Some v => v | None => d end.
(** [createQuizSchema.parse] *)
Definition parse (b : body) : option t :=
  let qc := with_default (b_questionCount b) 10 in
  let tpq := with_default (b_timePerQuestion b) 10 in
  if nonempty (b_topic b)
     && (5 <=? qc) && (qc <=? 20)
     && (10 <=? tpq) && (tpq <=? 60)
     && nonempty (b_hostId b)
  then Some (mk (b_topic b) qc tpq (b_hostId b))
  else None.
End CreateQuiz.

Module JoinQuiz.
Record t : Type := mk {
  roomCode : string;
  name : string;
  playerId : string
}.
(** [joinQuizSchema.parse] *)
Definition parse (b : t) : option t :=
  if has_length (roomCode b) 6 && nonempty (name b) && nonempty (playerId b)
  then Some b else None.
End JoinQuiz.

Module SubmitAnswer.
Record t : Type := mk {
  playerId : string;
  questionId : Z;
  selectedAnswer : Z;
  timeToAnswer : Z
}.
(** [submitAnswerSchema.parse] *)
Definition parse (b : t) : option t :=
  if nonempty (playerId b)
     && (1 <=? questionId b)
     && (0 <=? selectedAnswer b) && (selectedAnswer b <=? 3)
     && (0 <=? timeToAnswer b)
  then Some b else None.
End SubmitAnswer.

Module CleanupRoom.
Record t : Type := mk {
  playerId : string;
  isHost : bool
}.
(** [cleanupRoomSchema.parse] *)
Definition parse (b : t) : option t :=
  if nonempty (playerId b) && isHost b then Some b else None.
End CleanupRoom.

Module LeaveRoom.
Record t : Type := mk {
  playerId : string;
  roomCode : string
}.
(** [leaveRoomSchema.parse] *)
Definition parse (b : t) : option t :=
  if nonempty (playerId b) && has_length (roomCode b) 6
  then Some b else None.
End LeaveRoom.

(** ** The controller and the hub ([server/routes.ts]) *)

Module Http.

(** One row of the leaderboard: the player, [correctAnswers] and
    [totalQuestions]; [accuracy] is a floating-point ratio of the last
    two and is not carried. *)
Record LeaderRow : Type := mkRow {
  player : Player.t;
  correctAnswers : Z;
  totalQuestions : Z
}.

(** The JSON bodies. [ZodErrorMessage] is the [error.message] of a schema
    failure caught by a handler; [InvalidRequestData] is the body
    [{message: 'Invalid request data', details}] of the cleanup and leave
    handlers. *)
Inductive Body : Type :=
  | Message (message : string)
  | ZodErrorMessage
  | InvalidRequestData
  | Created (roomCode : string) (room : QuizRoom.t) (message : string)
  | Joined (player : Player.t) (room : QuizRoom.t) (players : list Player.t)
           (message : string)
  | Answered (isCorrect : bool) (points totalScore correctAnswer : Z)
             (message : string)
  | RoomInfo (room : QuizRoom.t) (players : list Player.t) (questionCount : Z)
  | QuestionList (questions : list Question.t)
  | Leaderboard (leaderboard : list LeaderRow) (room : QuizRoom.t).

Record response : Type := mk {
  status : Z;
  body : Body
}.

(** [res.json(b)] *)
Definition ok (b : Body) : response := mk 200 b.

(** The [points] a response reports; no points when it is not the
    response to an accepted answer. *)
Definition points (r : response) : Z :=
  match body r with
  | Answered _ pts _ _ _ => pts
  | _ => 0
  end.

End Http.

Module Hub.

(** Server-to-client events. *)
Inductive Event : Type :=
  | PlayerJoined (players : list Player.t)
  | PlayerLeft (playerId : string) (players : list Player.t)
  | RoomClosed
  | QuizStarted (question : option Question.t) (timePerQuestion : Z)
                (questionIndex totalQuestions : Z)
  | NextQuestion (question : option Question.t) (timePerQuestion : Z)
                 (questionIndex totalQuestions : Z)
  | QuizFinished (leaderboard : list Player.t).

(** What a socket handler asks of the registry of live connections. *)
Inductive Action : Type :=
  | Register (playerId roomCode : string) (isHost : bool)
  | Unregister (playerId : string)
  | BroadcastToRoom (roomCode : string) (event : Event)
                    (excludePlayerId : option string)
  | CloseRoomClients (roomCode : string).

(** Client-to-server messages, by [data.type]; [Other] is a message that
    does not parse or has another type. *)
Inductive Message : Type :=
  | MJoinRoom (roomCode playerId : string) (isHost : bool)
  | MLeaveRoom (roomCode playerId : string)
  | MCleanupRoom (roomCode playerId : string) (isHost : bool)
  | MStartQuiz (roomCode playerId : string) (isHost : bool)
  | MNextQuestion (roomCode playerId : string) (isHost : bool)
  | MQuizFinished (roomCode playerId : string) (isHost : bool)
  | MOther.

End Hub.

Module Routes.
Import MemStorage.

Definition chars : string := "ABCDEFGHIJKLMNOPQRSTUVWXYZ0123456789".

(** [s.charAt(i)] *)
Definition charAt (s : string) (i : nat) : string :=
  match String.get i s with
  | Some c => String c EmptyString
  | None => EmptyString
  end.

(** [random k] is the value of
    [Math.floor(Math.random() * chars.length)] at the [k]-th call of the
    request. *)
Definition Random := nat -> nat.

Fixpoint generateRoomCode_loop (random : Random) (pos : nat) (n : nat)
    (result : string) : string :=
  match n with
  | O => result
  | S n' =>
      generateRoomCode_loop random (S pos) n'
        (String.append result (charAt chars (random pos)))
  end.

(** The code drawn from position [pos] of the random source. *)
Definition generateRoomCode (random : Random) (pos : nat) : string :=
  generateRoomCode_loop random pos 6 "".

(** The [do ... while] of the create handler: the last code drawn and
    the number of attempts. [fuel] bounds the turns after the first;
    [9] is never exhausted ([allocate_fuel] below). *)
Fixpoint allocate (fuel : nat) (random : Random) (pos : nat) (attempts : Z)
    (s : MemStorage.t) : string * Z :=
  let roomCode := generateRoomCode random pos in
  let attempts := attempts + 1 in
  match getQuizRoomByCode roomCode s with
  | Some _ =>
      if attempts <? 10
      then match fuel with
           | O => (roomCode, attempts)
           | S fuel' => allocate fuel' random (pos + 6) attempts s
           end
      else (roomCode, attempts)
  | None => (roomCode, attempts)
  end.

(** [l.map((q, index) => f q index)] *)
Fixpoint mapi_from {A B} (f : A -> Z -> B) (index : Z) (l : list A) : list B :=
  match l with
  | [] => []
  | x :: l' => f x index :: mapi_from f (index + 1) l'
  end.

Definition mapi {A B} (f : A -> Z -> B) (l : list A) : list B :=
  mapi_from f 0 l.

(** What a create request draws from outside the store. *)
Record Env : Type := mkEnv {
  random : Random;
  upstream : OpenAI.Upstream;
  now : Z
}.

(** [POST /api/quiz/create] *)
Definition post_quiz_create (env : Env) (body : CreateQuiz.body)
    (s : MemStorage.t) : MemStorage.t * Http.response :=
  match CreateQuiz.parse body with
  | None => (s, Http.mk 500 Http.ZodErrorMessage)
  | Some data =>
      let '(roomCode, attempts) := allocate 9 (random env) 0 0 s in
      if attempts >=? 10
      then (s, Http.mk 500 (Http.Message "Failed to generate unique room code"))
      else
        let '(s1, room) :=
          createQuizRoom (now env)
            (QuizRoom.mkInsert roomCode (CreateQuiz.hostId data)
               (CreateQuiz.topic data)
               (Some (CreateQuiz.questionCount data))
               (Some (CreateQuiz.timePerQuestion data))
               (Some waiting) (Some 0)) s in
        let generatedQuestions :=
          OpenAI.generateQuizQuestions (upstream env) (CreateQuiz.topic data)
            (CreateQuiz.questionCount data) in
        let questionsToInsert :=
          mapi (fun q index =>
                  Question.mkInsert (QuizRoom.id room)
                    (OpenAI.question q) (OpenAI.options q)
                    (OpenAI.correctAnswer q) index)
               generatedQuestions in
        let '(s2, _) := createQuestions questionsToInsert s1 in
        let '(s3, _) :=
          createPlayer (now env)
            (Player.mkInsert (QuizRoom.id room) "Host"
               (CreateQuiz.hostId data) (Some 0) (Some true)) s2 in
        (s3, Http.ok (Http.Created roomCode room "Quiz created successfully"))
  end.

(** [POST /api/quiz/join] *)
Definition post_quiz_join (now : Z) (body : JoinQuiz.t) (s : MemStorage.t)
  : MemStorage.t * Http.response :=
  match JoinQuiz.parse body with
  | None => (s, Http.mk 500 Http.ZodErrorMessage)
  | Some data =>
      match getQuizRoomByCode (JoinQuiz.roomCode data) s with
      | None => (s, Http.mk 404 (Http.Message "Room not found"))
      | Some room =>
          if negb (Status_eqb (QuizRoom.status room) waiting)
          then (s, Http.mk 400 (Http.Message "Quiz has already started"))
          else
            let existingPlayer := getPlayerById (JoinQuiz.playerId data) s in
            let inThisRoom :=
              match existingPlayer with
              | Some p => Player.roomId p =? QuizRoom.id room
              | None => false
              end in
            if inThisRoom
            then (s, Http.mk 400 (Http.Message "Player already joined this room"))
            else
              let s1 :=
                match existingPlayer with
                | Some _ => fst (cleanupPlayer (JoinQuiz.playerId data) s)
                | None => s
                end in
              let '(s2, player) :=
                createPlayer now
                  (Player.mkInsert (QuizRoom.id room) (JoinQuiz.name data)
                     (JoinQuiz.playerId data) (Some 0) (Some false)) s1 in
              let players := getPlayersByRoomId (QuizRoom.id room) s2 in
              (s2, Http.ok (Http.Joined player room players
                              "Successfully joined quiz"))
      end
  end.

(** [POST /api/quiz/clear-answers]; an absent [playerId] is [""]. *)
Definition post_quiz_clear_answers (playerId : string) (s : MemStorage.t)
  : MemStorage.t * Http.response :=
  if negb (nonempty playerId)
  then (s, Http.mk 400 (Http.Message "Player ID is required"))
  else
    let '(s1, _) := clearAnswersForPlayer playerId s in
    (s1, Http.ok (Http.Message "Answers cleared successfully")).

(** The points of a correct answer. *)
Definition points_for (room : option QuizRoom.t) (timeToAnswer : Z) : Z :=
  let maxTime :=
    match room with
    | Some r => num_or (Some (QuizRoom.timePerQuestion r)) 10
    | None => 10
    end in
  let timeBonus := Z.max 0 (maxTime - timeToAnswer) in
  100 + timeBonus * 10.

(** [POST /api/quiz/answer] *)
Definition post_quiz_answer (now : Z) (body : SubmitAnswer.t)
    (s : MemStorage.t) : MemStorage.t * Http.response :=
  match SubmitAnswer.parse body with
  | None => (s, Http.mk 500 Http.ZodErrorMessage)
  | Some data =>
      match getPlayerById (SubmitAnswer.playerId data) s with
      | None => (s, Http.mk 404 (Http.Message "Player not found"))
      | Some player =>
          if hasPlayerAnswered (SubmitAnswer.playerId data)
               (SubmitAnswer.questionId data) s
          then (s, Http.mk 400 (Http.Message "Already answered this question"))
          else
            match getQuestionById (SubmitAnswer.questionId data) s with
            | None => (s, Http.mk 404 (Http.Message "Question not found"))
            | Some question =>
                if negb (Question.roomId question =? Player.roomId player)
                then (s, Http.mk 400
                           (Http.Message "Question does not belong to this room"))
                else
                  let isCorrect :=
                    SubmitAnswer.selectedAnswer data
                    =? Question.correctAnswer question in
                  let points :=
                    if isCorrect
                    then points_for
                           (getQuizRoomByPlayerId (SubmitAnswer.playerId data) s)
                           (SubmitAnswer.timeToAnswer data)
                    else 0 in
                  let '(s1, _) :=
                    createAnswer now
                      (Answer.mkInsert (SubmitAnswer.playerId data)
                         (Question.id question)
                         (SubmitAnswer.selectedAnswer data) isCorrect
                         (SubmitAnswer.timeToAnswer data)) s in
                  let '(s2, updatedPlayer) :=
                    updatePlayerScore (SubmitAnswer.playerId data)
                      (Player.score player + points) s1 in
                  let totalScore :=
                    match updatedPlayer with
                    | Some p => num_or (Some (Player.score p)) 0
                    | None => 0
                    end in
                  (s2, Http.ok
                         (Http.Answered isCorrect points totalScore
                            (Question.correctAnswer question)
                            (if isCorrect then "Correct answer!"
                             else "Incorrect answer")))
            end
      end
  end.

(** [GET /api/quiz/:roomCode] *)
Definition get_quiz (roomCode : string) (s : MemStorage.t) : Http.response :=
  match getQuizRoomByCode roomCode s with
  | None => Http.mk 404 (Http.Message "Room not found")
  | Some room =>
      let players := getPlayersByRoomId (QuizRoom.id room) s in
      let questions := getQuestionsByRoomId (QuizRoom.id room) s in
      Http.ok (Http.RoomInfo room players (Z.of_nat (List.length questions)))
  end.

(** [GET /api/quiz/:roomCode/questions] *)
Definition get_quiz_questions (roomCode : string) (s : MemStorage.t)
  : Http.response :=
  match getQuizRoomByCode roomCode s with
  | None => Http.mk 404 (Http.Message "Room not found")
  | Some room =>
      Http.ok (Http.QuestionList (getQuestionsByRoomId (QuizRoom.id room) s))
  end.

(** [GET /api/quiz/:roomCode/leaderboard] *)
Definition get_quiz_leaderboard (roomCode : string) (s : MemStorage.t)
  : Http.response :=
  match getQuizRoomByCode roomCode s with
  | None => Http.mk 404 (Http.Message "Room not found")
  | Some room =>
      let players := getPlayersByRoomId (QuizRoom.id room) s in
      let questions := getQuestionsByRoomId (QuizRoom.id room) s in
      let leaderboard :=
        map (fun player =>
               let answers := getAnswersByPlayerId (Player.playerId player) s in
               Http.mkRow player
                 (Z.of_nat (List.length (filter Answer.isCorrect answers)))
                 (Z.of_nat (List.length questions)))
            players in
      Http.ok
        (Http.Leaderboard
           (js_sort (fun a b => Player.score (Http.player b)
                                - Player.score (Http.player a)) leaderboard)
           room)
  end.

(** [POST /api/quiz/:roomCode/cleanup] *)
Definition post_quiz_cleanup (roomCode : string) (body : CleanupRoom.t)
    (s : MemStorage.t) : MemStorage.t * Http.response :=
  match CleanupRoom.parse body with
  | None => (s, Http.mk 400 Http.InvalidRequestData)
  | Some data =>
      match getQuizRoomByCode roomCode s with
      | None => (s, Http.mk 404 (Http.Message "Room not found"))
      | Some room =>
          if negb (String.eqb (QuizRoom.hostId room) (CleanupRoom.playerId data))
          then (s, Http.mk 403 (Http.Message "Only the room host can cleanup"))
          else
            let '(s1, success) := cleanupRoom roomCode s in
            if negb success
            then (s1, Http.mk 500 (Http.Message "Failed to cleanup room"))
            else (s1, Http.ok (Http.Message "Room cleaned up successfully"))
      end
  end.

(** [POST /api/quiz/player/leave] *)
Definition post_quiz_player_leave (body : LeaveRoom.t) (s : MemStorage.t)
  : MemStorage.t * Http.response :=
  match LeaveRoom.parse body with
  | None => (s, Http.mk 400 Http.InvalidRequestData)
  | Some data =>
      match getPlayerById (LeaveRoom.playerId data) s with
      | None => (s, Http.ok (Http.Message "Player already removed"))
      | Some _ =>
          let '(s1, success) := cleanupPlayer (LeaveRoom.playerId data) s in
          if negb success
          then (s1, Http.mk 500 (Http.Message "Failed to remove player"))
          else (s1, Http.ok (Http.Message "Player removed successfully"))
      end
  end.

(** [l[i]] *)
Definition at_index {A} (l : list A) (i : Z) : option A :=
  if i <? 0 then None else nth_error l (Z.to_nat i).

Definition by_score_desc (a b : Player.t) : Z :=
  Player.score b - Player.score a.

(** [ws.on('message', ...)]: the effect on the store and the requests to
    the registry of connections. ([ws.on('close', ...)] only removes the
    connection from the registry.) *)
Definition ws_message (data : Hub.Message) (s : MemStorage.t)
  : MemStorage.t * list Hub.Action :=
  match data with
  | Hub.MJoinRoom roomCode playerId isHost =>
      (s,
       Hub.Register playerId roomCode isHost ::
       match getQuizRoomByCode roomCode s with
       | Some room =>
           [Hub.BroadcastToRoom roomCode
              (Hub.PlayerJoined (getPlayersByRoomId (QuizRoom.id room) s))
              (Some playerId)]
       | None => []
       end)
  | Hub.MLeaveRoom roomCode playerId =>
      let '(s1, _) := cleanupPlayer playerId s in
      (s1,
       Hub.Unregister playerId ::
       match getQuizRoomByCode roomCode s1 with
       | Some leaveRoom =>
           [Hub.BroadcastToRoom roomCode
              (Hub.PlayerLeft playerId
                 (getPlayersByRoomId (QuizRoom.id leaveRoom) s1))
              None]
       | None => []
       end)
  | Hub.MCleanupRoom roomCode playerId isHost =>
      if isHost
      then
        let '(s1, _) := cleanupRoom roomCode s in
        (s1, [Hub.CloseRoomClients roomCode])
      else (s, [])
  | Hub.MStartQuiz roomCode playerId isHost =>
      if isHost
      then
        match getQuizRoomByCode roomCode s with
        | Some room =>
            let '(s1, _) :=
              updateQuizRoom roomCode (QuizRoom.only_status active) s in
            let questions := getQuestionsByRoomId (QuizRoom.id room) s1 in
            let firstQuestion := at_index questions 0 in
            (s1,
             [Hub.BroadcastToRoom roomCode
                (Hub.QuizStarted firstQuestion
                   (num_or (Some (QuizRoom.timePerQuestion room)) 10)
                   0 (Z.of_nat (List.length questions)))
                None])
        | None => (s, [])
        end
      else (s, [])
  | Hub.MNextQuestion roomCode playerId isHost =>
      if isHost
      then
        match getQuizRoomByCode roomCode s with
        | Some room =>
            let nextIndex := QuizRoom.currentQuestionIndex room + 1 in
            let questions := getQuestionsByRoomId (QuizRoom.id room) s in
            if nextIndex <? Z.of_nat (List.length questions)
            then
              let '(s1, _) :=
                updateQuizRoom roomCode (QuizRoom.only_index nextIndex) s in
              (s1,
               [Hub.BroadcastToRoom roomCode
                  (Hub.NextQuestion (at_index questions nextIndex)
                     (num_or (Some (QuizRoom.timePerQuestion room)) 10)
                     nextIndex (Z.of_nat (List.length questions)))
                  None])
            else
              let '(s1, _) :=
                updateQuizRoom roomCode (QuizRoom.only_status finished) s in
              let players := getPlayersByRoomId (QuizRoom.id room) s1 in
              (s1,
               [Hub.BroadcastToRoom roomCode
                  (Hub.QuizFinished (js_sort by_score_desc players)) None])
        | None => (s, [])
        end
      else (s, [])
  | Hub.MQuizFinished roomCode playerId isHost =>
      if isHost
      then
        match getQuizRoomByCode roomCode s with
        | Some room =>
            let '(s1, _) :=
              updateQuizRoom roomCode (QuizRoom.only_status finished) s in
            let players := getPlayersByRoomId (QuizRoom.id room) s1 in
            (s1,
             [Hub.BroadcastToRoom roomCode
                (Hub.QuizFinished (js_sort by_score_desc players)) None])
        | None => (s, [])
        end
      else (s, [])
  | Hub.MOther => (s, [])
  end.

(** ** The server as a state machine over the store *)

Inductive Request : Type :=
  | PostCreate (env : Env) (body : CreateQuiz.body)
  | PostJoin (now : Z) (body : JoinQuiz.t)
  | PostClearAnswers (playerId : string)
  | PostAnswer (now : Z) (body : SubmitAnswer.t)
  | GetQuiz (roomCode : string)
  | GetQuestions (roomCode : string)
  | GetLeaderboard (roomCode : string)
  | PostCleanup (roomCode : string) (body : CleanupRoom.t)
  | PostLeave (body : LeaveRoom.t)
  | Socket (data : Hub.Message).

Inductive Output : Type :=
  | Responded (r : Http.response)
  | Hubbed (actions : list Hub.Action).

Definition handle (req : Request) (s : MemStorage.t)
  : MemStorage.t * Output :=
  match req with
  | PostCreate env body =>
      let '(s', r) := post_quiz_create env body s in (s', Responded r)
  | PostJoin now body =>
      let '(s', r) := post_quiz_join now body s in (s', Responded r)
  | PostClearAnswers playerId =>
      let '(s', r) := post_quiz_clear_answers playerId s in (s', Responded r)
  | PostAnswer now body =>
      let '(s', r) := post_quiz_answer now body s in (s', Responded r)
  | GetQuiz roomCode => (s, Responded (get_quiz roomCode s))
  | GetQuestions roomCode => (s, Responded (get_quiz_questions roomCode s))
  | GetLeaderboard roomCode => (s, Responded (get_quiz_leaderboard roomCode s))
  | PostCleanup roomCode body =>
      let '(s', r) := post_quiz_cleanup roomCode body s in (s', Responded r)
  | PostLeave body =>
      let '(s', r) := post_quiz_player_leave body s in (s', Responded r)
  | Socket data =>
      let '(s', a) := ws_message data s in (s', Hubbed a)
  end.

(** The store after a sequence of requests, each run to completion. *)
Definition run (reqs : list Request) (s : MemStorage.t) : MemStorage.t :=
  fold_left (fun acc req => fst (handle req acc)) reqs s.

(** The stores the server can be in. *)
Definition reachable (s : MemStorage.t) : Prop :=
  exists reqs, run reqs MemStorage.init = s.

End Routes.

(** * Vocabulary of the properties

    The definitions the statements below are written with: the invariant
    of the store, the outcome of an accepted answer and of a successful
    create, small stores reached by concrete requests, and what one
    request does to the rooms and to the players. *)

Section Vocabulary.
Import MemStorage Routes OpenAI.

(** Every entry sits under the key its value names, once. *)
Definition keyed {K V : Type} (key_of : V -> K) (m : JSMap.t K V) : Prop :=
  NoDup (JSMap.keys m) /\ forall k v, In (k, v) m -> key_of v = k.

(** What holds of every store the server can be in: each map is keyed by
    the field its entries are deleted by, ids are below their counters
    (so the next id is new), room ids are not shared, a room's time budget
    is what the create schema lets through, every player sits in a stored
    room with a score that is not negative, and no two answers are for the
    same player and question. *)
Record Inv (s : MemStorage.t) : Prop := mkInv {
  rooms_keyed : keyed QuizRoom.roomCode (quizRooms s);
  rooms_ids : forall c r, In (c, r) (quizRooms s) ->
    QuizRoom.id r < currentRoomId s;
  rooms_unique : forall c1 r1 c2 r2,
    In (c1, r1) (quizRooms s) -> In (c2, r2) (quizRooms s) ->
    QuizRoom.id r1 = QuizRoom.id r2 -> c1 = c2;
  rooms_time : forall c r, In (c, r) (quizRooms s) ->
    10 <= QuizRoom.timePerQuestion r <= 60;
  questions_keyed : keyed Question.id (questions s);
  questions_ids : forall k q, In (k, q) (questions s) ->
    k < currentQuestionId s;
  players_keyed : keyed Player.playerId (players s);
  players_ids : forall k p, In (k, p) (players s) ->
    Player.id p < currentPlayerId s;
  players_room : forall k p, In (k, p) (players s) ->
    exists c r, In (c, r) (quizRooms s) /\ QuizRoom.id r = Player.roomId p;
  players_score : forall k p, In (k, p) (players s) -> 0 <= Player.score p;
  answers_keyed : keyed Answer.id (answers s);
  answers_ids : forall k a, In (k, a) (answers s) -> k < currentAnswerId s;
  answers_single : forall k1 a1 k2 a2,
    In (k1, a1) (answers s) -> In (k2, a2) (answers s) ->
    Answer.playerId a1 = Answer.playerId a2 ->
    Answer.questionId a1 = Answer.questionId a2 -> k1 = k2
}.

(** What a submission that passes every check does. *)
Definition answer_isCorrect (data : SubmitAnswer.t) (question : Question.t)
  : bool :=
  SubmitAnswer.selectedAnswer data =? Question.correctAnswer question.

Definition answer_points (data : SubmitAnswer.t) (question : Question.t)
    (s : MemStorage.t) : Z :=
  if answer_isCorrect data question
  then points_for (getQuizRoomByPlayerId (SubmitAnswer.playerId data) s)
                  (SubmitAnswer.timeToAnswer data)
  else 0.

Definition answer_store (now : Z) (data : SubmitAnswer.t) (player : Player.t)
    (question : Question.t) (s : MemStorage.t) : MemStorage.t :=
  fst (updatePlayerScore (SubmitAnswer.playerId data)
         (Player.score player + answer_points data question s)
         (fst (createAnswer now
                 (Answer.mkInsert (SubmitAnswer.playerId data)
                    (Question.id question)
                    (SubmitAnswer.selectedAnswer data)
                    (answer_isCorrect data question)
                    (SubmitAnswer.timeToAnswer data)) s))).

(** The shape every returned item has: a question that is not falsy, an
    array of exactly four options, an answer index from 0 to 3. *)
Definition shaped (q : GeneratedQuestion) : bool :=
  truthy (question q)
  && match options q with
     | JArr items => Nat.eqb (List.length items) 4
     | _ => false
     end
  && (0 <=? correctAnswer q) && (correctAnswer q <=? 3).

(** The items [generateQuizQuestions] chooses from: what the service sent
    when all of it passes [validate], the ten samples otherwise. *)
Definition available (up : Upstream) : list GeneratedQuestion :=
  match up with
  | UpstreamThrows => FALLBACK_QUESTIONS
  | UpstreamParsed result =>
      match validatedQuestions result with
      | Some validated => validated
      | None => FALLBACK_QUESTIONS
      end
  end.

(** An upstream failure: the service call threw, or the parsed answer
    failed a check of the [try] block. *)
Definition upstream_failed (up : Upstream) : bool :=
  match up with
  | UpstreamThrows => true
  | UpstreamParsed result =>
      match validatedQuestions result with
      | Some _ => false
      | None => true
      end
  end.

(** The room and the host player a successful create writes. *)
Definition created_room (env : Env) (data : CreateQuiz.t) (code : string)
    (s : MemStorage.t) : QuizRoom.t :=
  QuizRoom.mk (currentRoomId s) code (CreateQuiz.hostId data)
    (CreateQuiz.topic data) (CreateQuiz.questionCount data)
    (CreateQuiz.timePerQuestion data) waiting 0 (now env).

Definition created_host (env : Env) (data : CreateQuiz.t) (s : MemStorage.t)
  : Player.t :=
  Player.mk (currentPlayerId s) (currentRoomId s) "Host"
    (CreateQuiz.hostId data) 0 true (now env).

(** The store with the single room "AAAAAA". *)
Definition one_room : MemStorage.t :=
  fst (post_quiz_create
         (mkEnv (fun _ => 0%nat) OpenAI.UpstreamThrows 0)
         (CreateQuiz.mkBody "Space" (Some 5) (Some 15) "h1")
         MemStorage.init).

(** Made of the characters of [chars] only. *)
Definition alphanumeric (code : string) : Prop :=
  Forall (fun c => In c (list_ascii_of_string chars)) (list_ascii_of_string code).

(** Nine times "AAAAAA", then "BBBBBB". *)
Definition nine_collisions : Random :=
  fun k => if (k <? 54)%nat then 0%nat else 1%nat.


(** "p1" has joined room "AAAAAA". *)
Definition joined : MemStorage.t :=
  run [PostJoin 1 (JoinQuiz.mk "AAAAAA" "Alice" "p1")] one_room.

(** "p1" has answered question 1 correctly after 3 of 15 seconds. *)
Definition answered : MemStorage.t :=
  run [PostAnswer 2 (SubmitAnswer.mk "p1" 1 2 3)] joined.


(** The store a join writes to: the prior membership of the identity, if
    any, is cleaned up first. *)
Definition join_base (pid : string) (s : MemStorage.t) : MemStorage.t :=
  match getPlayerById pid s with
  | Some _ => fst (cleanupPlayer pid s)
  | None => s
  end.

(** How a socket message changes the rooms. *)
Inductive RoomChange : Type :=
  | Unchanged
  | SetStatus (code : string) (st : Status)
  | SetIndex (code : string) (index : Z)
  | Removed (code : string).

Definition apply_change (ch : RoomChange) (rooms : JSMap.t string QuizRoom.t)
  : JSMap.t string QuizRoom.t :=
  match ch with
  | Unchanged => rooms
  | SetStatus code st =>
      match JSMap.get code rooms with
      | Some room => JSMap.set code (QuizRoom.spread room (QuizRoom.only_status st)) rooms
      | None => rooms
      end
  | SetIndex code i =>
      match JSMap.get code rooms with
      | Some room => JSMap.set code (QuizRoom.spread room (QuizRoom.only_index i)) rooms
      | None => rooms
      end
  | Removed code => JSMap.delete code rooms
  end.

Definition ws_change (data : Hub.Message) (s : MemStorage.t) : RoomChange :=
  match data with
  | Hub.MCleanupRoom code _ true => Removed code
  | Hub.MStartQuiz code _ true => SetStatus code active
  | Hub.MNextQuestion code _ true =>
      match getQuizRoomByCode code s with
      | Some room =>
          if QuizRoom.currentQuestionIndex room + 1
             <? Z.of_nat (List.length (getQuestionsByRoomId (QuizRoom.id room) s))
          then SetIndex code (QuizRoom.currentQuestionIndex room + 1)
          else SetStatus code finished
      | None => Unchanged
      end
  | Hub.MQuizFinished code _ true => SetStatus code finished
  | _ => Unchanged
  end.

(** One request, seen from a room code: the room under the code is new
    (it has the next room id and the code was free), or it is the room that
    was there, with the status it had, or [finished], or [active] by a
    [start-quiz] flagged as host. *)
Definition rooms_step (req : Request) (s s' : MemStorage.t) : Prop :=
  currentRoomId s <= currentRoomId s' /\
  forall c' r', getQuizRoomByCode c' s' = Some r' ->
    (QuizRoom.id r' = currentRoomId s /\ getQuizRoomByCode c' s = None)
    \/ (exists r, getQuizRoomByCode c' s = Some r /\
                  QuizRoom.id r' = QuizRoom.id r /\
                  (QuizRoom.status r' = QuizRoom.status r \/
                   QuizRoom.status r' = finished \/
                   (QuizRoom.status r' = active /\
                    exists pid, req = Socket (Hub.MStartQuiz c' pid true)))).

(** waiting < active < finished *)
Definition rank (st : Status) : Z :=
  match st with waiting => 0 | active => 1 | finished => 2 end.

(** "AAAAAA" has been started and finished. *)
Definition finished_room : MemStorage.t :=
  run [Socket (Hub.MStartQuiz "AAAAAA" "h1" true);
       Socket (Hub.MQuizFinished "AAAAAA" "h1" true)] one_room.




End Vocabulary.

(** * Vocabulary of the further properties

    The map-by-map effect of a request, more of what holds of every
    reachable store, and the registry of connections with the server
    built from the store and the registry. *)

Section FurtherVocabulary.
Import MemStorage Routes OpenAI.


(** The integers [0, 1, ..., n - 1]. *)
Definition zseq (n : nat) : list Z := map Z.of_nat (seq 0 n).

(** The questions [createQuestions] stores for the items [gs] of room
    [rid], the first with id [cq]: ids and positions follow the order of
    the items. *)
Definition created_questions (rid cq : Z) (gs : list GeneratedQuestion)
  : list Question.t :=
  mapi (fun g j =>
          Question.mk (cq + j) rid (question g) (options g) (correctAnswer g) j)
       gs.


(** The entries of a map of questions keyed by id. *)
Definition by_id (qs : list Question.t) : JSMap.t Z Question.t :=
  map (fun q => (Question.id q, q)) qs.

(** The answers left when those of player [pid] are removed. *)
Definition without_player (pid : string) (ans : JSMap.t Z Answer.t)
  : JSMap.t Z Answer.t :=
  filter (fun e => negb (String.eqb (Answer.playerId (snd e)) pid)) ans.

(** The answers left when those to the questions [qs] are removed. *)
Definition without_questions (qs : list Question.t) (ans : JSMap.t Z Answer.t)
  : JSMap.t Z Answer.t :=
  filter (fun e => negb (existsb (fun q => Answer.questionId (snd e)
                                           =? Question.id q) qs)) ans.

(** What one request does to the store, map by map. A request that is
    refused, a read, or a socket message that is dropped leaves the store as
    it is ([E_same]); the other cases are the successful create, join,
    answer, clear-answers, leave, cleanup, status update and advance. *)
Inductive Effect (s : MemStorage.t) : MemStorage.t -> Prop :=
  | E_same : Effect s s
  | E_create (env : Env) (data : CreateQuiz.t) (code : string) :
      getQuizRoomByCode code s = None ->
      5 <= CreateQuiz.questionCount data <= 20 ->
      10 <= CreateQuiz.timePerQuestion data <= 60 ->
      CreateQuiz.hostId data <> "" ->
      Effect s
        (MemStorage.mk
           (quizRooms s ++ [(code, created_room env data code s)])
           (questions s ++
            by_id (created_questions (currentRoomId s) (currentQuestionId s)
                     (generateQuizQuestions (upstream env)
                        (CreateQuiz.topic data)
                        (CreateQuiz.questionCount data))))
           (JSMap.set (CreateQuiz.hostId data) (created_host env data s)
              (players s))
           (answers s)
           (currentRoomId s + 1)
           (currentQuestionId s
            + Z.of_nat (List.length
                          (generateQuizQuestions (upstream env)
                             (CreateQuiz.topic data)
                             (CreateQuiz.questionCount data))))
           (currentPlayerId s + 1)
           (currentAnswerId s))
  | E_join (now : Z) (body : JoinQuiz.t) (room : QuizRoom.t) :
      getQuizRoomByCode (JoinQuiz.roomCode body) s = Some room ->
      QuizRoom.status room = waiting ->
      JoinQuiz.playerId body <> "" ->
      (forall p, getPlayerById (JoinQuiz.playerId body) s = Some p ->
                 Player.roomId p <> QuizRoom.id room) ->
      Effect s
        (MemStorage.mk (quizRooms s) (questions s)
           (JSMap.delete (JoinQuiz.playerId body) (players s)
            ++ [(JoinQuiz.playerId body,
                 Player.mk (currentPlayerId s) (QuizRoom.id room)
                   (JoinQuiz.name body) (JoinQuiz.playerId body) 0 false now)])
           (match getPlayerById (JoinQuiz.playerId body) s with
            | Some _ => without_player (JoinQuiz.playerId body) (answers s)
            | None => answers s
            end)
           (currentRoomId s) (currentQuestionId s) (currentPlayerId s + 1)
           (currentAnswerId s))
  | E_answer (now : Z) (body : SubmitAnswer.t) (player : Player.t)
      (question : Question.t) :
      getPlayerById (SubmitAnswer.playerId body) s = Some player ->
      hasPlayerAnswered (SubmitAnswer.playerId body)
        (SubmitAnswer.questionId body) s = false ->
      getQuestionById (SubmitAnswer.questionId body) s = Some question ->
      Question.roomId question = Player.roomId player ->
      Effect s
        (MemStorage.mk (quizRooms s) (questions s)
           (JSMap.set (SubmitAnswer.playerId body)
              (Player.with_score player
                 (Player.score player + answer_points body question s))
              (players s))
           (answers s ++
            [(currentAnswerId s,
              Answer.mk (currentAnswerId s) (SubmitAnswer.playerId body)
                (Question.id question) (SubmitAnswer.selectedAnswer body)
                (answer_isCorrect body question)
                (SubmitAnswer.timeToAnswer body) now)])
           (currentRoomId s) (currentQuestionId s) (currentPlayerId s)
           (currentAnswerId s + 1))
  | E_clear (pid : string) :
      Effect s
        (MemStorage.mk (quizRooms s) (questions s) (players s)
           (without_player pid (answers s))
           (currentRoomId s) (currentQuestionId s) (currentPlayerId s)
           (currentAnswerId s))
  | E_leave (pid : string) (player : Player.t) :
      getPlayerById pid s = Some player ->
      Effect s
        (MemStorage.mk (quizRooms s) (questions s)
           (JSMap.delete pid (players s))
           (without_player pid (answers s))
           (currentRoomId s) (currentQuestionId s) (currentPlayerId s)
           (currentAnswerId s))
  | E_cleanup (code : string) (room : QuizRoom.t) :
      getQuizRoomByCode code s = Some room ->
      Effect s
        (MemStorage.mk
           (JSMap.delete code (quizRooms s))
           (filter (fun e => negb (Question.roomId (snd e) =? QuizRoom.id room))
                   (questions s))
           (filter (fun e => negb (Player.roomId (snd e) =? QuizRoom.id room))
                   (players s))
           (without_questions
              (filter (fun q => Question.roomId q =? QuizRoom.id room)
                      (JSMap.values (questions s)))
              (answers s))
           (currentRoomId s) (currentQuestionId s) (currentPlayerId s)
           (currentAnswerId s))
  | E_status (code : string) (room : QuizRoom.t) (st : Status) :
      getQuizRoomByCode code s = Some room ->
      st = active \/ st = finished ->
      Effect s
        (MemStorage.mk
           (JSMap.set code (QuizRoom.spread room (QuizRoom.only_status st))
              (quizRooms s))
           (questions s) (players s) (answers s)
           (currentRoomId s) (currentQuestionId s) (currentPlayerId s)
           (currentAnswerId s))
  | E_index (code : string) (room : QuizRoom.t) :
      getQuizRoomByCode code s = Some room ->
      QuizRoom.currentQuestionIndex room + 1
      < Z.of_nat (List.length (getQuestionsByRoomId (QuizRoom.id room) s)) ->
      Effect s
        (MemStorage.mk
           (JSMap.set code
              (QuizRoom.spread room
                 (QuizRoom.only_index (QuizRoom.currentQuestionIndex room + 1)))
              (quizRooms s))
           (questions s) (players s) (answers s)
           (currentRoomId s) (currentQuestionId s) (currentPlayerId s)
           (currentAnswerId s)).


(** The questions [createQuestions] makes of [l], the first with id [cq]. *)
Definition assign_ids (cq : Z) (l : list Question.insert) : list Question.t :=
  mapi (fun ins i =>
          Question.mk (cq + i) (Question.i_roomId ins)
            (Question.i_questionText ins) (Question.i_options ins)
            (Question.i_correctAnswer ins) (Question.i_order ins))
       l.


(** The questions of room [rid], in the order of the map. *)
Definition questionsOf (rid : Z) (s : MemStorage.t) : list Question.t :=
  filter (fun q => Question.roomId q =? rid) (JSMap.values (questions s)).

(** More of what holds of every store the server can be in: a question
    belongs to a stored room and an answer is to a stored question; the
    questions of a room stand in the map at positions 0, 1, ... in order;
    the current index of a room is 0 or the index of one of its
    questions. *)
Record Shape (s : MemStorage.t) : Prop := mkShape {
  questions_room : forall k q, In (k, q) (questions s) ->
    exists c r, In (c, r) (quizRooms s) /\ QuizRoom.id r = Question.roomId q;
  answers_question : forall k a, In (k, a) (answers s) ->
    exists q, In (Answer.questionId a, q) (questions s);
  questions_dense : forall rid,
    map Question.order (questionsOf rid s)
    = zseq (List.length (questionsOf rid s));
  rooms_index : forall c r, In (c, r) (quizRooms s) ->
    0 <= QuizRoom.currentQuestionIndex r /\
    (QuizRoom.currentQuestionIndex r = 0 \/
     QuizRoom.currentQuestionIndex r
     < Z.of_nat (List.length (questionsOf (QuizRoom.id r) s)))
}.


(** [a] may stand before [b] in a list sorted with [cmp]. *)
Definition before {A} (cmp : A -> A -> Z) (a b : A) : Prop := cmp a b <= 0.

(** A player with at least the score of the next one. *)
Definition score_desc (a b : Player.t) : Prop :=
  Player.score b <= Player.score a.


(** Tokens and ids as the schemas of the requests accept them: no player
    is stored under the empty token and question ids start at 1. *)
Record Named (s : MemStorage.t) : Prop := mkNamed {
  players_named : forall k p, In (k, p) (players s) -> k <> "";
  questions_positive : forall k q, In (k, q) (questions s) -> 1 <= k;
  question_counter : 1 <= currentQuestionId s
}.


(** What a room is created with, apart from status and current index. *)
Definition settings (r : QuizRoom.t)
  : Z * string * string * string * Z * Z * Z :=
  (QuizRoom.id r, QuizRoom.roomCode r, QuizRoom.hostId r, QuizRoom.topic r,
   QuizRoom.questionCount r, QuizRoom.timePerQuestion r, QuizRoom.createdAt r).


(** An item as the service is asked to send it. *)
Definition encode (g : GeneratedQuestion) : JValue :=
  JObj [("question", question g); ("options", options g);
        ("correctAnswer", JNum (correctAnswer g))].

(** The parsed answer of the service that carries the items [qs]. *)
Definition answering (qs : list JValue) : Upstream :=
  UpstreamParsed (JObj [("questions", JArr qs)]).

End FurtherVocabulary.

(** ** The registry of connections ([clients] of [registerRoutes]) *)

Module Registry.

(** A connection: the fields the handlers write on the socket, unset
    until a [join-room], and whether its [readyState] is [OPEN]. *)
Record Socket : Type := mkSocket {
  roomCode : option string;
  playerId : option string;
  isHost : option bool;
  isOpen : bool
}.

(** The sockets, by identity, and [clients], from a player token to the
    socket registered under it; two tokens may name one socket. *)
Record t : Type := mk {
  sockets : JSMap.t Z Socket;
  clients : JSMap.t string Z;
  next : Z
}.

Definition init : t := mk [] [] 0.

(** [wss.on('connection', ...)]: a socket not seen before, open. *)
Definition connection (r : t) : t * Z :=
  (mk (JSMap.set (next r) (mkSocket None None None true) (sockets r))
      (clients r) (next r + 1),
   next r).

(** A write to the fields of socket [w]; every holder of [w] sees it. *)
Definition write (w : Z) (f : Socket -> Socket) (r : t) : t :=
  match JSMap.get w (sockets r) with
  | Some sk => mk (JSMap.set w (f sk) (sockets r)) (clients r) (next r)
  | None => r
  end.

(** The three assignments of [join-room]. *)
Definition joined_as (code pid : string) (host : bool) (sk : Socket) : Socket :=
  mkSocket (Some code) (Some pid) (Some host) (isOpen sk).

(** The socket once it is closing or closed. *)
Definition closing (sk : Socket) : Socket :=
  mkSocket (roomCode sk) (playerId sk) (isHost sk) false.

(** [client.roomCode === roomCode] *)
Definition in_room (code : string) (r : t) (e : string * Z) : bool :=
  match JSMap.get (snd e) (sockets r) with
  | Some sk =>
      match roomCode sk with
      | Some c => String.eqb c code
      | None => false
      end
  | None => false
  end.

(** [client.readyState === WebSocket.OPEN] *)
Definition is_open (r : t) (w : Z) : bool :=
  match JSMap.get w (sockets r) with
  | Some sk => isOpen sk
  | None => false
  end.

(** [excludePlayerId === undefined || playerId !== excludePlayerId] *)
Definition not_excluded (excludePlayerId : option string) (pid : string)
  : bool :=
  match excludePlayerId with
  | None => true
  | Some x => negb (String.eqb pid x)
  end.

(** [broadcastToRoom]: the sockets the message is sent to, in the order
    of [clients]. *)
Definition broadcastToRoom (code : string) (excludePlayerId : option string)
    (r : t) : list Z :=
  map snd
    (filter (fun e => in_room code r e && is_open r (snd e)
                      && not_excluded excludePlayerId (fst e))
            (clients r)).

(** One turn of the loop of [cleanup-room]: send, close, unregister. A
    [send] on a socket that is no longer open delivers nothing and the
    loop goes on (such a [send] reports its failure to the callback, of
    which there is none here). *)
Definition close_client (acc : t * list Z) (e : string * Z) : t * list Z :=
  let '(r, sent) := acc in
  (mk (sockets (write (snd e) closing r)) (JSMap.delete (fst e) (clients r))
      (next r),
   sent ++ (if is_open r (snd e) then [snd e] else [])).

(** The loop of [cleanup-room] over the entries of the room, as they
    were when it started. *)
Definition closeRoomClients (code : string) (r : t) : t * list Z :=
  fold_left close_client (filter (in_room code r) (clients r)) (r, []).

(** What a handler running for socket [w] asks of the registry: the
    registry after it and the events sent, each with its socket. *)
Definition perform (w : Z) (a : Hub.Action) (r : t)
  : t * list (Z * Hub.Event) :=
  match a with
  | Hub.Register pid code host =>
      let r1 := write w (joined_as code pid host) r in
      (mk (sockets r1) (JSMap.set pid w (clients r1)) (next r1), [])
  | Hub.Unregister pid =>
      (mk (sockets r) (JSMap.delete pid (clients r)) (next r), [])
  | Hub.BroadcastToRoom code event excludePlayerId =>
      (r, map (fun w' => (w', event)) (broadcastToRoom code excludePlayerId r))
  | Hub.CloseRoomClients code =>
      let '(r1, sent) := closeRoomClients code r in
      (r1, map (fun w' => (w', Hub.RoomClosed)) sent)
  end.

Fixpoint perform_all (w : Z) (actions : list Hub.Action) (r : t)
  : t * list (Z * Hub.Event) :=
  match actions with
  | [] => (r, [])
  | a :: rest =>
      let '(r1, sent1) := perform w a r in
      let '(r2, sent2) := perform_all w rest r1 in
      (r2, sent1 ++ sent2)
  end.

(** [ws.on('close', ...)]: the socket is closed, and the token it last
    joined under, if any, is unregistered. *)
Definition closed (w : Z) (r : t) : t :=
  let r1 := write w closing r in
  match JSMap.get w (sockets r1) with
  | Some sk =>
      match playerId sk with
      | Some pid =>
          if negb (String.eqb pid "")
          then mk (sockets r1) (JSMap.delete pid (clients r1)) (next r1)
          else r1
      | None => r1
      end
  | None => r1
  end.

End Registry.

(** ** The server: the store and the registry *)

Module Server.

Record t : Type := mk {
  store : MemStorage.t;
  hub : Registry.t
}.

Definition init : t := mk MemStorage.init Registry.init.

(** What happens to the server: an HTTP request, a new connection, a
    message on socket [w], the close of socket [w]. *)
Inductive Event : Type :=
  | Call (req : Routes.Request)
  | Connect
  | Message (w : Z) (data : Hub.Message)
  | Close (w : Z).

(** One event, run to completion: the server after it and the events
    sent to sockets. A socket message comes as [Message], with its
    socket; [Call (Socket _)] is no HTTP request and does nothing. *)
Definition step (e : Event) (st : t) : t * list (Z * Hub.Event) :=
  match e with
  | Call (Routes.Socket _) => (st, [])
  | Call req => (mk (fst (Routes.handle req (store st))) (hub st), [])
  | Connect => (mk (store st) (fst (Registry.connection (hub st))), [])
  | Message w data =>
      let '(s1, actions) := Routes.ws_message data (store st) in
      let '(r1, sent) := Registry.perform_all w actions (hub st) in
      (mk s1 r1, sent)
  | Close w => (mk (store st) (Registry.closed w (hub st)), [])
  end.

(** The server after a sequence of events, and all that was sent. *)
Fixpoint run (events : list Event) (st : t) : t * list (Z * Hub.Event) :=
  match events with
  | [] => (st, [])
  | e :: rest =>
      let '(st1, sent1) := step e st in
      let '(st2, sent2) := run rest st1 in
      (st2, sent1 ++ sent2)
  end.

Definition reachable (st : t) : Prop :=
  exists events, fst (run events init) = st.

End Server.


(** * Facts about the embedding *)

(** ** Boolean equality of keys *)

Lemma keqb_refl {K} `{KeyEq K} (a : K) : keqb a a = true.
Proof. now apply keqb_eq. Qed.

Lemma keqb_neq {K} `{KeyEq K} (a b : K) : keqb a b = false <-> a <> b.
Proof.
  split.
  - intros E ->. rewrite keqb_refl in E. discriminate.
  - intros N. destruct (keqb a b) eqn:E; [|reflexivity].
    apply keqb_eq in E. contradiction.
Qed.

Lemma keqb_sym {K} `{KeyEq K} (a b : K) : keqb a b = keqb b a.
Proof.
  destruct (keqb a b) eqn:E.
  - apply keqb_eq in E. subst. now rewrite keqb_refl.
  - symmetry. apply keqb_neq. apply keqb_neq in E. congruence.
Qed.

Lemma Status_eqb_eq a b : Status_eqb a b = true <-> a = b.
Proof. destruct a, b; simpl; split; congruence. Qed.

(** ** The JavaScript [Map] *)

Module JSMapFacts.
Section Facts.
Context {K V : Type} `{KeyEq K}.
Import JSMap.
Implicit Types (k : K) (v : V) (m : JSMap.t K V).

Lemma get_in k v m : get k m = Some v -> In (k, v) m.
Proof.
  induction m as [|[k' v'] m IH]; simpl; [discriminate|].
  destruct (keqb k' k) eqn:E.
  - intros [= ->]. apply keqb_eq in E. subst. now left.
  - intros G. right. auto.
Qed.

Lemma get_none k m : get k m = None <-> ~ In k (keys m).
Proof.
  induction m as [|[k' v'] m IH]; simpl.
  - tauto.
  - destruct (keqb k' k) eqn:E.
    + apply keqb_eq in E. subst. split; [discriminate|]. intros N. exfalso. auto.
    + apply keqb_neq in E. rewrite IH. tauto.
Qed.

Lemma in_keys k v m : In (k, v) m -> In k (keys m).
Proof. intros I. apply in_map_iff. now exists (k, v). Qed.

Lemma in_values k v m : In (k, v) m -> In v (values m).
Proof. intros I. apply in_map_iff. now exists (k, v). Qed.

Lemma values_in v m : In v (values m) -> exists k, In (k, v) m.
Proof.
  intros I. apply in_map_iff in I. destruct I as [[k v'] [E I]].
  simpl in E. subst. now exists k.
Qed.

Lemma in_get k v m : NoDup (keys m) -> In (k, v) m -> get k m = Some v.
Proof.
  induction m as [|[k' v'] m IH]; simpl; [tauto|].
  intros ND I. inversion ND as [|? ? NI ND']; subst.
  destruct I as [[= -> ->]|I].
  - now rewrite keqb_refl.
  - destruct (keqb k' k) eqn:E.
    + apply keqb_eq in E. subst. exfalso. apply NI. eapply in_keys; eauto.
    + auto.
Qed.

Lemma has_true k m : has k m = true <-> In k (keys m).
Proof.
  unfold has. destruct (get k m) eqn:G.
  - split; [|reflexivity]. intros _. eapply in_keys, get_in; eauto.
  - apply get_none in G. split; [discriminate|tauto].
Qed.

Lemma has_false k m : has k m = false <-> ~ In k (keys m).
Proof.
  rewrite <- has_true. destruct (has k m); split; congruence.
Qed.

Lemma keys_set k v m :
  keys (set k v m) = if has k m then keys m else keys m ++ [k].
Proof.
  unfold set, keys. destruct (has k m).
  - rewrite map_map. apply map_ext. intros [k' v']. simpl.
    now destruct (keqb k' k).
  - now rewrite map_app.
Qed.

Lemma NoDup_keys_set k v m : NoDup (keys m) -> NoDup (keys (set k v m)).
Proof.
  intros ND. rewrite keys_set. destruct (has k m) eqn:E; [assumption|].
  apply has_false in E.
  apply NoDup_app; [assumption | repeat constructor; simpl; tauto |].
  intros x I [<-|[]]. contradiction.
Qed.

Lemma in_set k v k' v' m :
  In (k', v') (set k v m) <->
  (k' = k /\ v' = v) \/ (k' <> k /\ In (k', v') m).
Proof.
  unfold set. destruct (has k m) eqn:E.
  - rewrite in_map_iff. split.
    + intros [[k0 v0] [E0 I0]]. simpl in E0.
      destruct (keqb k0 k) eqn:E1.
      * apply keqb_eq in E1. inversion E0; subst. now left.
      * apply keqb_neq in E1. inversion E0; subst. right. auto.
    + intros [[-> ->]|[N I]].
      * apply has_true in E. apply in_map_iff in E.
        destruct E as [[k0 v0] [E0 I0]]. simpl in E0. subst.
        exists (k, v0). simpl. rewrite keqb_refl. auto.
      * exists (k', v'). simpl. apply keqb_neq in N. now rewrite N.
  - rewrite in_app_iff. simpl. apply has_false in E. split.
    + intros [I|[[= <- <-]|[]]].
      * right. split; [|assumption]. intros ->. apply E. eapply in_keys; eauto.
      * now left.
    + intros [[-> ->]|[N I]]; auto.
Qed.

Lemma get_app_absent k m m' : get k m = None -> get k (m ++ m') = get k m'.
Proof.
  induction m as [|[k' v'] m IH]; simpl; [reflexivity|].
  destruct (keqb k' k); [discriminate|auto].
Qed.

Lemma get_app_present k v m m' : get k m = Some v -> get k (m ++ m') = Some v.
Proof.
  induction m as [|[k' v'] m IH]; simpl; [discriminate|].
  destruct (keqb k' k); auto.
Qed.

Lemma get_set_same k v m : get k (set k v m) = Some v.
Proof.
  unfold set, has. destruct (get k m) eqn:E.
  - induction m as [|[k' v'] m IH]; simpl in *; [discriminate|].
    destruct (keqb k' k) eqn:E1; simpl; rewrite E1; auto.
  - rewrite (get_app_absent _ _ _ E). simpl. now rewrite keqb_refl.
Qed.

Lemma get_set_other k v k' m : k' <> k -> get k' (set k v m) = get k' m.
Proof.
  intros N. unfold set. destruct (has k m).
  - induction m as [|[k0 v0] m IH]; simpl; [reflexivity|].
    destruct (keqb k0 k) eqn:E1; simpl.
    + apply keqb_eq in E1. subst k0.
      assert (keqb k k' = false) as -> by (apply keqb_neq; congruence).
      exact IH.
    + destruct (keqb k0 k'); auto.
  - destruct (get k' m) eqn:G.
    + now apply get_app_present.
    + rewrite (get_app_absent _ _ _ G). simpl.
      assert (keqb k k' = false) as -> by (apply keqb_neq; congruence).
      reflexivity.
Qed.

Lemma in_delete k k' v' m :
  In (k', v') (delete k m) <-> k' <> k /\ In (k', v') m.
Proof.
  unfold delete. rewrite filter_In. simpl.
  rewrite negb_true_iff, keqb_neq. tauto.
Qed.

Lemma keys_delete k m :
  keys (delete k m) = filter (fun k' => negb (keqb k' k)) (keys m).
Proof.
  unfold delete, keys. induction m as [|[k0 v0] m IH]; simpl; [reflexivity|].
  destruct (keqb k0 k); simpl; now rewrite IH.
Qed.

Lemma NoDup_keys_delete k m : NoDup (keys m) -> NoDup (keys (delete k m)).
Proof. intros ND. rewrite keys_delete. now apply NoDup_filter. Qed.

Lemma get_delete_same k m : get k (delete k m) = None.
Proof.
  apply get_none. rewrite keys_delete, filter_In.
  intros [_ E]. now rewrite keqb_refl in E.
Qed.

Lemma get_delete_other k k' m : k' <> k -> get k' (delete k m) = get k' m.
Proof.
  intros N. unfold delete.
  induction m as [|[k0 v0] m IH]; simpl; [reflexivity|].
  destruct (keqb k0 k) eqn:E; simpl.
  - apply keqb_eq in E. subst k0.
    assert (keqb k k' = false) as -> by (apply keqb_neq; congruence).
    exact IH.
  - destruct (keqb k0 k'); auto.
Qed.

Lemma in_delete_all ks k' v' m :
  In (k', v') (delete_all ks m) <-> ~ In k' ks /\ In (k', v') m.
Proof.
  unfold delete_all. revert m.
  induction ks as [|k ks IH]; intros m; simpl.
  - tauto.
  - rewrite IH, in_delete. intuition congruence.
Qed.

Lemma NoDup_keys_delete_all ks m :
  NoDup (keys m) -> NoDup (keys (delete_all ks m)).
Proof.
  unfold delete_all. revert m.
  induction ks as [|k ks IH]; intros m ND; simpl; [assumption|].
  apply IH. now apply NoDup_keys_delete.
Qed.

Lemma get_delete_all_in ks k m : In k ks -> get k (delete_all ks m) = None.
Proof.
  intros I. destruct (get k (delete_all ks m)) eqn:G; [|reflexivity].
  apply get_in, in_delete_all in G. tauto.
Qed.

Lemma get_delete_all_other ks k m :
  ~ In k ks -> get k (delete_all ks m) = get k m.
Proof.
  unfold delete_all. revert m.
  induction ks as [|k0 ks IH]; intros m N; simpl; [reflexivity|].
  simpl in N. rewrite IH by tauto. apply get_delete_other. intuition congruence.
Qed.

Lemma delete_absent k m : get k m = None -> delete k m = m.
Proof.
  intros G. unfold delete.
  induction m as [|[k0 v0] m IH]; simpl in *; [reflexivity|].
  destruct (keqb k0 k); [discriminate|]. simpl. f_equal. auto.
Qed.

End Facts.
End JSMapFacts.

(** * Properties *)

(** ** Maps whose key is a field of the value *)

Section Keyed.
Context {K V : Type} `{KeyEq K}.
Variable key_of : V -> K.

Lemma keyed_empty : keyed key_of (@nil (K * V)).
Proof. split; [constructor | intros ? ? []]. Qed.

Lemma keyed_set k v m : keyed key_of m -> key_of v = k -> keyed key_of (JSMap.set k v m).
Proof.
  intros [ND KO] E. split.
  - now apply JSMapFacts.NoDup_keys_set.
  - intros k' v' I. apply JSMapFacts.in_set in I.
    destruct I as [[-> ->]|[_ I]]; auto.
Qed.

Lemma keyed_delete k m : keyed key_of m -> keyed key_of (JSMap.delete k m).
Proof.
  intros [ND KO]. split.
  - now apply JSMapFacts.NoDup_keys_delete.
  - intros k' v' I. apply JSMapFacts.in_delete in I. apply KO. tauto.
Qed.

Lemma keyed_delete_all ks m : keyed key_of m -> keyed key_of (JSMap.delete_all ks m).
Proof.
  intros [ND KO]. split.
  - now apply JSMapFacts.NoDup_keys_delete_all.
  - intros k' v' I. apply JSMapFacts.in_delete_all in I. apply KO. tauto.
Qed.

Lemma keyed_get k v m : keyed key_of m -> (JSMap.get k m = Some v <-> In (k, v) m).
Proof.
  intros [ND _]. split; [apply JSMapFacts.get_in | now apply JSMapFacts.in_get].
Qed.

Lemma keyed_inj k1 k2 v1 v2 m :
  keyed key_of m -> In (k1, v1) m -> In (k2, v2) m -> k1 = k2 -> v1 = v2.
Proof.
  intros [ND _] I1 I2 <-.
  apply (JSMapFacts.in_get _ _ _ ND) in I1, I2. congruence.
Qed.

(** [for (const v of Array.from(m.values()).filter(f)) m.delete(key_of v)]
    removes exactly the entries that satisfy [f]. *)
Lemma in_delete_matching (f : V -> bool) k v m :
  keyed key_of m ->
  (In (k, v) (JSMap.delete_all (map key_of (filter f (JSMap.values m))) m)
   <-> In (k, v) m /\ f v = false).
Proof.
  intros KM. rewrite JSMapFacts.in_delete_all. split.
  - intros [N I]. split; [assumption|].
    destruct (f v) eqn:F; [|reflexivity]. exfalso. apply N.
    apply in_map_iff. exists v. split; [now apply (proj2 KM)|].
    apply filter_In. split; [|assumption]. eapply JSMapFacts.in_values; eauto.
  - intros [I F]. split; [|assumption].
    intros I'. apply in_map_iff in I'. destruct I' as [v' [E I']].
    apply filter_In in I'. destruct I' as [I' F'].
    apply JSMapFacts.values_in in I'. destruct I' as [k' I'].
    assert (k' = k) by (rewrite <- (proj2 KM _ _ I'); exact E).
    assert (v' = v) by (apply (keyed_inj k' k v' v m KM); auto).
    congruence.
Qed.

Lemma get_delete_matching (f : V -> bool) k m :
  keyed key_of m ->
  JSMap.get k (JSMap.delete_all (map key_of (filter f (JSMap.values m))) m)
  = match JSMap.get k m with
    | Some v => if f v then None else Some v
    | None => None
    end.
Proof.
  intros KM.
  pose proof (keyed_delete_all (map key_of (filter f (JSMap.values m))) m KM) as KD.
  destruct (JSMap.get k m) as [v|] eqn:G.
  - apply (keyed_get _ _ _ KM) in G. destruct (f v) eqn:F.
    + destruct (JSMap.get k (JSMap.delete_all _ m)) as [v'|] eqn:G'; [|reflexivity].
      apply (keyed_get _ _ _ KD) in G'. apply in_delete_matching in G'; [|assumption].
      destruct G' as [I' F'].
      assert (v' = v) by (apply (keyed_inj k k v' v m KM); auto). congruence.
    + apply (keyed_get _ _ _ KD). apply in_delete_matching; [assumption|]. now split.
  - destruct (JSMap.get k (JSMap.delete_all _ m)) as [v'|] eqn:G'; [|reflexivity].
    apply (keyed_get _ _ _ KD) in G'. apply in_delete_matching in G'; [|assumption].
    destruct G' as [I' _]. apply (keyed_get _ _ _ KM) in I'. congruence.
Qed.

End Keyed.

(** ** The invariant of the store *)

Module Invariant.
Import MemStorage.

Lemma Inv_init : Inv MemStorage.init.
Proof.
  constructor; simpl; try apply keyed_empty; try (intros; contradiction).
Qed.

Lemma num_or_some t d : t <> 0 -> num_or (Some t) d = t.
Proof. intros N. simpl. destruct (t =? 0) eqn:E; [lia|reflexivity]. Qed.

Ltac in_set H :=
  apply JSMapFacts.in_set in H; destruct H as [[? ?]|[? H]]; subst; simpl in *.

Lemma Inv_createQuizRoom now ins s :
  Inv s ->
  JSMap.get (QuizRoom.i_roomCode ins) (quizRooms s) = None ->
  10 <= num_or (QuizRoom.i_timePerQuestion ins) 10 <= 60 ->
  Inv (fst (createQuizRoom now ins s)).
Proof.
  intros I G T. destruct I. constructor; simpl; auto.
  - apply keyed_set; auto.
  - intros c r IN. in_set IN; [lia|].
    specialize (rooms_ids0 _ _ IN). lia.
  - intros c1 r1 c2 r2 I1 I2 E. in_set I1; in_set I2; try reflexivity.
    + specialize (rooms_ids0 _ _ I2). lia.
    + specialize (rooms_ids0 _ _ I1). lia.
    + eauto.
  - intros c r IN. in_set IN; eauto.
  - intros k p IN. destruct (players_room0 _ _ IN) as (c & r & IR & E).
    exists c, r. split; [|assumption]. apply JSMapFacts.in_set. right.
    split; [|assumption]. intros ->.
    apply JSMapFacts.get_none in G. apply G. eapply JSMapFacts.in_keys; eauto.
Qed.

Lemma Inv_updateQuizRoom_status code st s :
  Inv s -> Inv (fst (updateQuizRoom code (QuizRoom.only_status st) s)).
Proof.
  intros I. unfold updateQuizRoom.
  destruct (JSMap.get code (quizRooms s)) as [room|] eqn:G; [|assumption].
  pose proof (JSMapFacts.get_in _ _ _ G) as IN0.
  destruct I. constructor; simpl; auto.
  - apply keyed_set; auto. simpl. apply (proj2 rooms_keyed0 _ _ IN0).
  - intros c r IN. in_set IN; eauto.
  - intros c1 r1 c2 r2 I1 I2 E. in_set I1; in_set I2; eauto.
  - intros c r IN. in_set IN; eauto.
  - intros k p IN. destruct (players_room0 _ _ IN) as (c & r & IR & E).
    destruct (String.eqb c code) eqn:EC.
    + apply String.eqb_eq in EC. subst c.
      assert (r = room)
        by (apply (keyed_inj _ code code r room _ rooms_keyed0); auto).
      subst r.
      exists code, (QuizRoom.spread room (QuizRoom.only_status st)).
      split; [|exact E]. apply JSMapFacts.in_set. now left.
    + apply String.eqb_neq in EC. exists c, r. split; [|assumption].
      apply JSMapFacts.in_set. now right.
Qed.

Lemma Inv_updateQuizRoom_index code i s :
  Inv s -> Inv (fst (updateQuizRoom code (QuizRoom.only_index i) s)).
Proof.
  intros I. unfold updateQuizRoom.
  destruct (JSMap.get code (quizRooms s)) as [room|] eqn:G; [|assumption].
  pose proof (JSMapFacts.get_in _ _ _ G) as IN0.
  destruct I. constructor; simpl; auto.
  - apply keyed_set; auto. simpl. apply (proj2 rooms_keyed0 _ _ IN0).
  - intros c r IN. in_set IN; eauto.
  - intros c1 r1 c2 r2 I1 I2 E. in_set I1; in_set I2; eauto.
  - intros c r IN. in_set IN; eauto.
  - intros k p IN. destruct (players_room0 _ _ IN) as (c & r & IR & E).
    destruct (String.eqb c code) eqn:EC.
    + apply String.eqb_eq in EC. subst c.
      assert (r = room)
        by (apply (keyed_inj _ code code r room _ rooms_keyed0); auto).
      subst r.
      exists code, (QuizRoom.spread room (QuizRoom.only_index i)).
      split; [|exact E]. apply JSMapFacts.in_set. now left.
    + apply String.eqb_neq in EC. exists c, r. split; [|assumption].
      apply JSMapFacts.in_set. now right.
Qed.

Lemma Inv_createQuestion acc q :
  Inv (fst acc) -> Inv (fst (createQuestion acc q)).
Proof.
  destruct acc as [s created]. simpl. intros I.
  destruct I. constructor; simpl; auto.
  - apply keyed_set; auto.
  - intros k q' IN. in_set IN; [lia|].
    specialize (questions_ids0 _ _ IN). lia.
Qed.

Lemma Inv_createQuestions l s : Inv s -> Inv (fst (createQuestions l s)).
Proof.
  unfold createQuestions. intros I.
  assert (forall acc, Inv (fst acc) -> Inv (fst (fold_left createQuestion l acc))) as X.
  { induction l as [|q l IH]; intros acc IA; simpl; [assumption|].
    apply IH. now apply Inv_createQuestion. }
  now apply X.
Qed.

Lemma Inv_createPlayer now ins s :
  Inv s ->
  (exists c r, In (c, r) (quizRooms s) /\ QuizRoom.id r = Player.i_roomId ins) ->
  0 <= num_or (Player.i_score ins) 0 ->
  Inv (fst (createPlayer now ins s)).
Proof.
  intros I R S. destruct I. constructor; simpl; auto.
  - apply keyed_set; auto.
  - intros k p IN. in_set IN; [lia|].
    specialize (players_ids0 _ _ IN). lia.
  - intros k p IN. in_set IN; eauto.
  - intros k p IN. in_set IN; eauto.
Qed.

Lemma Inv_updatePlayerScore pid sc s :
  Inv s -> 0 <= sc -> Inv (fst (updatePlayerScore pid sc s)).
Proof.
  intros I S. unfold updatePlayerScore.
  destruct (JSMap.get pid (players s)) as [player|] eqn:G; [|assumption].
  pose proof (JSMapFacts.get_in _ _ _ G) as IN0.
  destruct I. constructor; simpl; auto.
  - apply keyed_set; auto. simpl. apply (proj2 players_keyed0 _ _ IN0).
  - intros k p IN. in_set IN; eauto.
  - intros k p IN. in_set IN; eauto.
  - intros k p IN. in_set IN; eauto.
Qed.

Lemma hasPlayerAnswered_false pid qid s :
  hasPlayerAnswered pid qid s = false <->
  forall k a, In (k, a) (answers s) ->
    ~ (Answer.playerId a = pid /\ Answer.questionId a = qid).
Proof.
  unfold hasPlayerAnswered. split.
  - intros E k a IN [EP EQ].
    assert (existsb (fun a => String.eqb (Answer.playerId a) pid
                              && (Answer.questionId a =? qid))
                    (JSMap.values (answers s)) = true) as X.
    { apply existsb_exists. exists a. split.
      - eapply JSMapFacts.in_values; eauto.
      - subst. now rewrite String.eqb_refl, Z.eqb_refl. }
    congruence.
  - intros N. destruct (existsb _ _) eqn:E; [|reflexivity].
    apply existsb_exists in E. destruct E as [a [IN E]].
    apply andb_true_iff in E. destruct E as [E1 E2].
    apply String.eqb_eq in E1. apply Z.eqb_eq in E2.
    apply JSMapFacts.values_in in IN. destruct IN as [k IN].
    exfalso. eapply N; eauto.
Qed.


Lemma Inv_createAnswer now ins s :
  Inv s ->
  hasPlayerAnswered (Answer.i_playerId ins) (Answer.i_questionId ins) s = false ->
  Inv (fst (createAnswer now ins s)).
Proof.
  intros I HA. rewrite hasPlayerAnswered_false in HA.
  destruct I. constructor; simpl; auto.
  - apply keyed_set; auto.
  - intros k a IN. in_set IN; [lia|].
    specialize (answers_ids0 _ _ IN). lia.
  - intros k1 a1 k2 a2 I1 I2 EP EQ. in_set I1; in_set I2; try reflexivity.
    + exfalso. apply (HA _ _ I2). auto.
    + exfalso. apply (HA _ _ I1). auto.
    + eauto.
Qed.

Lemma Inv_clearAnswersForPlayer pid s :
  Inv s -> Inv (fst (clearAnswersForPlayer pid s)).
Proof.
  intros I. destruct I. constructor; simpl; auto.
  - now apply keyed_delete_all.
  - intros k a IN. apply JSMapFacts.in_delete_all in IN.
    apply (answers_ids0 _ _ (proj2 IN)).
  - intros k1 a1 k2 a2 I1 I2. apply JSMapFacts.in_delete_all in I1, I2.
    apply answers_single0; [apply I1|apply I2].
Qed.

Lemma Inv_cleanupPlayer pid s : Inv s -> Inv (fst (cleanupPlayer pid s)).
Proof.
  intros I. unfold cleanupPlayer.
  destruct (JSMap.get pid (players s)) as [player|]; [|assumption].
  destruct I. constructor; simpl; auto.
  - now apply keyed_delete.
  - intros k p IN. apply JSMapFacts.in_delete in IN.
    apply (players_ids0 _ _ (proj2 IN)).
  - intros k p IN. apply JSMapFacts.in_delete in IN. eapply players_room0.
    apply (proj2 IN).
  - intros k p IN. apply JSMapFacts.in_delete in IN. eapply players_score0.
    apply (proj2 IN).
  - now apply keyed_delete_all.
  - intros k a IN. apply JSMapFacts.in_delete_all in IN.
    apply (answers_ids0 _ _ (proj2 IN)).
  - intros k1 a1 k2 a2 I1 I2. apply JSMapFacts.in_delete_all in I1, I2.
    apply answers_single0; [apply I1|apply I2].
Qed.

(** The third loop of [cleanupRoom] removes exactly the answers to the
    questions it runs over. *)
Lemma fold_deleteAnswersOf qs : forall ans,
  keyed Answer.id ans ->
  keyed Answer.id (fold_left deleteAnswersOf qs ans) /\
  forall k a,
    In (k, a) (fold_left deleteAnswersOf qs ans) <->
    In (k, a) ans /\
    forall q, In q qs -> Answer.questionId a <> Question.id q.
Proof.
  induction qs as [|q qs IH]; intros ans KA; simpl.
  - split; [assumption|]. intros k a. tauto.
  - assert (keyed Answer.id (deleteAnswersOf ans q)) as KD
      by (now apply keyed_delete_all).
    destruct (IH _ KD) as [KF IF]. split; [assumption|].
    intros k a. rewrite IF. unfold deleteAnswersOf at 1.
    rewrite (in_delete_matching Answer.id
               (fun a => Answer.questionId a =? Question.id q) k a ans KA).
    rewrite Z.eqb_neq. split.
    + intros [[IN N] R]. split; [assumption|].
      intros q' [<-|IQ]; auto.
    + intros [IN R]. split; [split|]; auto.
Qed.

Lemma in_cleanupRoom_players code room s k p :
  Inv s -> JSMap.get code (quizRooms s) = Some room ->
  (In (k, p) (players (fst (cleanupRoom code s))) <->
   In (k, p) (players s) /\ Player.roomId p <> QuizRoom.id room).
Proof.
  intros I G. unfold cleanupRoom. rewrite G. simpl.
  rewrite (in_delete_matching Player.playerId
             (fun p => Player.roomId p =? QuizRoom.id room) k p (players s)
             (players_keyed s I)).
  now rewrite Z.eqb_neq.
Qed.

Lemma in_cleanupRoom_questions code room s k q :
  Inv s -> JSMap.get code (quizRooms s) = Some room ->
  (In (k, q) (questions (fst (cleanupRoom code s))) <->
   In (k, q) (questions s) /\ Question.roomId q <> QuizRoom.id room).
Proof.
  intros I G. unfold cleanupRoom. rewrite G. simpl.
  rewrite (in_delete_matching Question.id
             (fun q => Question.roomId q =? QuizRoom.id room) k q (questions s)
             (questions_keyed s I)).
  now rewrite Z.eqb_neq.
Qed.

Lemma in_cleanupRoom_answers code room s k a :
  Inv s -> JSMap.get code (quizRooms s) = Some room ->
  (In (k, a) (answers (fst (cleanupRoom code s))) <->
   In (k, a) (answers s) /\
   forall kq q, In (kq, q) (questions s) ->
     Question.roomId q = QuizRoom.id room ->
     Answer.questionId a <> Question.id q).
Proof.
  intros I G. unfold cleanupRoom. rewrite G. simpl.
  destruct (fold_deleteAnswersOf
              (filter (fun q => Question.roomId q =? QuizRoom.id room)
                      (JSMap.values (questions s)))
              (answers s) (answers_keyed s I)) as [_ IF].
  rewrite IF. split; intros [IN R]; (split; [assumption|]).
  - intros kq q IQ ER. apply R. apply filter_In. split.
    + eapply JSMapFacts.in_values; eauto.
    + now apply Z.eqb_eq.
  - intros q IQ. apply filter_In in IQ. destruct IQ as [IQ ER].
    apply JSMapFacts.values_in in IQ. destruct IQ as [kq IQ].
    apply Z.eqb_eq in ER. eauto.
Qed.

Lemma rooms_cleanupRoom code room s :
  JSMap.get code (quizRooms s) = Some room ->
  quizRooms (fst (cleanupRoom code s)) = JSMap.delete code (quizRooms s).
Proof. intros G. unfold cleanupRoom. now rewrite G. Qed.

Lemma cleanupRoom_absent code s :
  JSMap.get code (quizRooms s) = None -> cleanupRoom code s = (s, false).
Proof. intros G. unfold cleanupRoom. now rewrite G. Qed.

Lemma Inv_cleanupRoom code s : Inv s -> Inv (fst (cleanupRoom code s)).
Proof.
  intros I.
  destruct (JSMap.get code (quizRooms s)) as [room|] eqn:G;
    [|now rewrite cleanupRoom_absent].
  pose proof (in_cleanupRoom_players code room s) as IP.
  pose proof (in_cleanupRoom_questions code room s) as IQ.
  pose proof (in_cleanupRoom_answers code room s) as IA.
  pose proof (rooms_cleanupRoom code room s G) as ER.
  assert (currentRoomId (fst (cleanupRoom code s)) = currentRoomId s
          /\ currentQuestionId (fst (cleanupRoom code s)) = currentQuestionId s
          /\ currentPlayerId (fst (cleanupRoom code s)) = currentPlayerId s
          /\ currentAnswerId (fst (cleanupRoom code s)) = currentAnswerId s)
    as (C1 & C2 & C3 & C4)
    by (unfold cleanupRoom; rewrite G; simpl; auto).
  assert (keyed Question.id (questions (fst (cleanupRoom code s)))
          /\ keyed Player.playerId (players (fst (cleanupRoom code s)))
          /\ keyed Answer.id (answers (fst (cleanupRoom code s))))
    as (KQ & KP & KA).
  { unfold cleanupRoom; rewrite G; simpl. split; [|split].
    - apply keyed_delete_all, I.
    - apply keyed_delete_all, I.
    - apply fold_deleteAnswersOf, I. }
  constructor; try assumption; rewrite ?ER, ?C1, ?C2, ?C3, ?C4.
  - apply keyed_delete, I.
  - intros c r IN. apply JSMapFacts.in_delete in IN. apply (rooms_ids s I _ _ (proj2 IN)).
  - intros c1 r1 c2 r2 I1 I2. apply JSMapFacts.in_delete in I1, I2.
    apply (rooms_unique s I); tauto.
  - intros c r IN. apply JSMapFacts.in_delete in IN. apply (rooms_time s I _ _ (proj2 IN)).
  - intros k q IN. apply IQ in IN; auto. apply (questions_ids s I _ _ (proj1 IN)).
  - intros k p IN. apply IP in IN; auto. apply (players_ids s I _ _ (proj1 IN)).
  - intros k p IN. apply IP in IN; auto. destruct IN as [IN N].
    destruct (players_room s I _ _ IN) as (c & r & IR & E).
    exists c, r. split; [|assumption]. apply JSMapFacts.in_delete.
    split; [|assumption]. intros ->.
    assert (r = room)
      by (apply (keyed_inj _ code code r room _ (rooms_keyed s I)); auto;
          now apply JSMapFacts.get_in).
    congruence.
  - intros k p IN. apply IP in IN; auto. apply (players_score s I _ _ (proj1 IN)).
  - intros k a IN. apply IA in IN; auto. apply (answers_ids s I _ _ (proj1 IN)).
  - intros k1 a1 k2 a2 I1 I2. apply IA in I1, I2; auto.
    apply (answers_single s I); tauto.
Qed.

(** [createQuestions] writes questions only. *)
Lemma createQuestions_frame l s :
  let s' := fst (createQuestions l s) in
  quizRooms s' = quizRooms s /\ players s' = players s /\
  answers s' = answers s /\ currentRoomId s' = currentRoomId s /\
  currentPlayerId s' = currentPlayerId s /\
  currentAnswerId s' = currentAnswerId s.
Proof.
  unfold createQuestions. generalize (@nil Question.t). revert s.
  induction l as [|q l IH]; intros s created; simpl; [tauto|].
  specialize (IH (fst (createQuestion (s, created) q))
                 (snd (createQuestion (s, created) q))).
  rewrite <- surjective_pairing in IH. simpl in IH. exact IH.
Qed.

Import Routes.

(** *** The allocation loop *)

(** More fuel than the guard [attempts < 10] leaves turns changes
    nothing: the loop of the source always ends. *)
Lemma allocate_fuel fuel fuel' random pos a s :
  9 - a <= Z.of_nat fuel -> 9 - a <= Z.of_nat fuel' ->
  allocate fuel random pos a s = allocate fuel' random pos a s.
Proof.
  revert fuel' pos a.
  induction fuel as [|fuel IH]; intros fuel' pos a F F'.
  - destruct fuel' as [|fuel']; [reflexivity|]. simpl.
    destruct (getQuizRoomByCode _ s); [|reflexivity].
    destruct (a + 1 <? 10) eqn:L; [|reflexivity].
    apply Z.ltb_lt in L. lia.
  - destruct fuel' as [|fuel']; simpl.
    + destruct (getQuizRoomByCode _ s); [|reflexivity].
      destruct (a + 1 <? 10) eqn:L; [|reflexivity].
      apply Z.ltb_lt in L. lia.
    + destruct (getQuizRoomByCode _ s); [|reflexivity].
      destruct (a + 1 <? 10) eqn:L; [|reflexivity].
      apply IH; lia.
Qed.

(** A loop that ends below ten attempts ends on a code no room has. *)
Lemma allocate_fresh fuel random pos a s code n :
  9 - a <= Z.of_nat fuel ->
  allocate fuel random pos a s = (code, n) ->
  n < 10 -> getQuizRoomByCode code s = None.
Proof.
  revert pos a.
  induction fuel as [|fuel IH]; intros pos a F; simpl;
    destruct (getQuizRoomByCode (generateRoomCode random pos) s) eqn:G;
    try (intros [= <- <-] _; exact G);
    destruct (a + 1 <? 10) eqn:L;
    try (intros [= <- <-] ?; apply Z.ltb_ge in L; lia).
  - apply Z.ltb_lt in L. lia.
  - apply IH. lia.
Qed.

Lemma allocate_attempts fuel random pos a s code n :
  allocate fuel random pos a s = (code, n) -> a < n.
Proof.
  revert pos a.
  induction fuel as [|fuel IH]; intros pos a; simpl;
    destruct (getQuizRoomByCode (generateRoomCode random pos) s);
    try (intros [= <- <-]; lia);
    destruct (a + 1 <? 10);
    try (intros [= <- <-]; lia).
  intros E. apply IH in E. lia.
Qed.

(** *** The schemas *)

Lemma CreateQuiz_parse_some body data :
  CreateQuiz.parse body = Some data ->
  5 <= CreateQuiz.questionCount data <= 20 /\
  10 <= CreateQuiz.timePerQuestion data <= 60 /\
  CreateQuiz.topic data = CreateQuiz.b_topic body /\
  CreateQuiz.hostId data = CreateQuiz.b_hostId body /\
  CreateQuiz.hostId data <> "" /\ CreateQuiz.topic data <> "".
Proof.
  unfold CreateQuiz.parse.
  destruct (nonempty (CreateQuiz.b_topic body) && _ && _ && _ && _ && _) eqn:E;
    [|discriminate].
  intros [= <-]. simpl.
  repeat (apply andb_true_iff in E; destruct E as [E ?]).
  unfold nonempty in *.
  repeat match goal with
         | H : negb _ = true |- _ => apply negb_true_iff, String.eqb_neq in H
         | H : (_ <=? _) = true |- _ => apply Z.leb_le in H
         end.
  repeat split; auto.
Qed.

Lemma JoinQuiz_parse_some body data :
  JoinQuiz.parse body = Some data -> data = body.
Proof.
  unfold JoinQuiz.parse. destruct (_ && _); [|discriminate]. congruence.
Qed.

Lemma nonempty_true x : nonempty x = true -> x <> "".
Proof. intros N ->. discriminate N. Qed.

Lemma JoinQuiz_parse_nonempty body data :
  JoinQuiz.parse body = Some data -> JoinQuiz.playerId body <> "".
Proof.
  unfold JoinQuiz.parse.
  destruct (has_length _ 6 && _ && _) eqn:E; [|discriminate]. intros _.
  apply andb_true_iff in E. destruct E as [_ E]. now apply nonempty_true.
Qed.

Lemma SubmitAnswer_parse_some body data :
  SubmitAnswer.parse body = Some data ->
  data = body /\ 0 <= SubmitAnswer.timeToAnswer body /\
  0 <= SubmitAnswer.selectedAnswer body <= 3.
Proof.
  unfold SubmitAnswer.parse.
  destruct (nonempty _ && _ && _ && _ && _) eqn:E; [|discriminate].
  intros [= <-].
  repeat (apply andb_true_iff in E; destruct E as [E ?]).
  repeat match goal with
         | H : (_ <=? _) = true |- _ => apply Z.leb_le in H
         end.
  repeat split; auto.
Qed.

Lemma CleanupRoom_parse_some body data :
  CleanupRoom.parse body = Some data ->
  data = body /\ CleanupRoom.isHost body = true.
Proof.
  unfold CleanupRoom.parse.
  destruct (nonempty _ && _) eqn:E; [|discriminate].
  intros [= <-]. apply andb_true_iff in E. tauto.
Qed.

Lemma LeaveRoom_parse_some body data :
  LeaveRoom.parse body = Some data -> data = body.
Proof.
  unfold LeaveRoom.parse. destruct (_ && _); [|discriminate]. congruence.
Qed.

(** *** The handlers keep the invariant *)

Lemma points_for_nonneg room t : 100 <= points_for room t.
Proof. unfold points_for. lia. Qed.

Lemma Inv_post_quiz_create env body s :
  Inv s -> Inv (fst (post_quiz_create env body s)).
Proof.
  intros I. unfold post_quiz_create.
  destruct (CreateQuiz.parse body) as [data|] eqn:P; [|assumption].
  apply CreateQuiz_parse_some in P. destruct P as (_ & T & _).
  destruct (allocate 9 (random env) 0 0 s) as [code n] eqn:A.
  destruct (n >=? 10) eqn:N; [assumption|].
  assert (n < 10) as N' by lia.
  assert (getQuizRoomByCode code s = None) as F
    by (apply (allocate_fresh 9 (random env) 0%nat 0 s code n); [lia|exact A|exact N']).
  set (insR := QuizRoom.mkInsert code _ _ _ _ _ _).
  pose proof (Inv_createQuizRoom (now env) insR s I F) as I1.
  assert (num_or (QuizRoom.i_timePerQuestion insR) 10
          = CreateQuiz.timePerQuestion data) as ET
    by (apply num_or_some; lia).
  rewrite ET in I1. specialize (I1 T).
  destruct (createQuizRoom (now env) insR s) as [s1 room] eqn:E1.
  simpl in I1.
  match goal with
  | |- context [createQuestions ?l s1] =>
      pose proof (Inv_createQuestions l s1 I1) as I2;
      pose proof (createQuestions_frame l s1) as FR;
      destruct (createQuestions l s1) as [s2 created]
  end.
  simpl in I2, FR. destruct FR as (FR & _).
  match goal with
  | |- context [createPlayer ?n ?ins s2] =>
      pose proof (Inv_createPlayer n ins s2 I2) as I3;
      destruct (createPlayer n ins s2) as [s3 host]
  end.
  simpl in *. apply I3; [|lia].
  exists code, room. rewrite FR.
  unfold createQuizRoom in E1. injection E1 as <- <-. simpl.
  split; [|reflexivity]. apply JSMapFacts.in_set. now left.
Qed.

Lemma Inv_post_quiz_join now body s :
  Inv s -> Inv (fst (post_quiz_join now body s)).
Proof.
  intros I. unfold post_quiz_join.
  destruct (JoinQuiz.parse body) as [data|]; [|assumption].
  destruct (getQuizRoomByCode (JoinQuiz.roomCode data) s) as [room|] eqn:G;
    [|assumption].
  destruct (negb (Status_eqb (QuizRoom.status room) waiting)); [assumption|].
  set (s1 := match getPlayerById (JoinQuiz.playerId data) s with
             | Some _ => fst (cleanupPlayer (JoinQuiz.playerId data) s)
             | None => s
             end).
  assert (Inv s1 /\ quizRooms s1 = quizRooms s) as [I1 R1].
  { subst s1. destruct (getPlayerById (JoinQuiz.playerId data) s) eqn:GP.
    - split; [now apply Inv_cleanupPlayer|].
      unfold cleanupPlayer. unfold getPlayerById in GP. now rewrite GP.
    - auto. }
  destruct (match getPlayerById (JoinQuiz.playerId data) s with
            | Some p => Player.roomId p =? QuizRoom.id room
            | None => false
            end); [assumption|].
  apply (Inv_createPlayer now
           (Player.mkInsert (QuizRoom.id room) (JoinQuiz.name data)
              (JoinQuiz.playerId data) (Some 0) (Some false)) s1);
    [assumption| |simpl; lia].
  exists (JoinQuiz.roomCode data), room. rewrite R1. split; [|reflexivity].
  now apply JSMapFacts.get_in.
Qed.

Lemma Inv_post_quiz_clear_answers pid s :
  Inv s -> Inv (fst (post_quiz_clear_answers pid s)).
Proof.
  intros I. unfold post_quiz_clear_answers.
  destruct (negb (nonempty pid)); [assumption|].
  simpl. now apply (Inv_clearAnswersForPlayer pid s).
Qed.

Lemma num_or_zero v : num_or (Some v) 0 = v.
Proof. simpl. destruct (v =? 0) eqn:E; [|reflexivity]. lia. Qed.

(** [POST /api/quiz/answer] either refuses and leaves the store as it
    is, or passes every check, records the answer and adds the points. *)
Lemma post_quiz_answer_cases now body s :
  (fst (post_quiz_answer now body s) = s /\
   Http.status (snd (post_quiz_answer now body s)) <> 200 /\
   Http.points (snd (post_quiz_answer now body s)) = 0)
  \/
  (exists player question,
     SubmitAnswer.parse body = Some body /\
     getPlayerById (SubmitAnswer.playerId body) s = Some player /\
     hasPlayerAnswered (SubmitAnswer.playerId body)
       (SubmitAnswer.questionId body) s = false /\
     getQuestionById (SubmitAnswer.questionId body) s = Some question /\
     Question.roomId question = Player.roomId player /\
     post_quiz_answer now body s =
     (answer_store now body player question s,
      Http.ok (Http.Answered (answer_isCorrect body question)
                 (answer_points body question s)
                 (Player.score player + answer_points body question s)
                 (Question.correctAnswer question)
                 (if answer_isCorrect body question
                  then "Correct answer!" else "Incorrect answer")))).
Proof.
  unfold post_quiz_answer.
  destruct (SubmitAnswer.parse body) as [data|] eqn:P;
    [|left; simpl; split; [reflexivity|split; [lia|reflexivity]]].
  apply SubmitAnswer_parse_some in P. destruct P as [-> _].
  destruct (getPlayerById (SubmitAnswer.playerId body) s) as [player|] eqn:GP;
    [|left; simpl; split; [reflexivity|split; [lia|reflexivity]]].
  destruct (hasPlayerAnswered _ _ s) eqn:HA;
    [left; simpl; split; [reflexivity|split; [lia|reflexivity]]|].
  destruct (getQuestionById (SubmitAnswer.questionId body) s)
    as [question|] eqn:GQ;
    [|left; simpl; split; [reflexivity|split; [lia|reflexivity]]].
  destruct (negb (Question.roomId question =? Player.roomId player)) eqn:ER;
    [left; simpl; split; [reflexivity|split; [lia|reflexivity]]|].
  right. exists player, question.
  apply negb_false_iff, Z.eqb_eq in ER.
  repeat (split; [reflexivity || assumption|]).
  unfold answer_store, answer_points, answer_isCorrect.
  unfold createAnswer at 1 2. cbv zeta. cbv beta iota.
  unfold updatePlayerScore. simpl players.
  unfold getPlayerById in GP. rewrite GP. simpl fst.
  unfold Player.with_score. simpl Player.score.
  now rewrite num_or_zero.
Qed.

Lemma answer_points_nonneg data question s :
  0 <= answer_points data question s.
Proof.
  unfold answer_points. destruct (answer_isCorrect data question); [|lia].
  pose proof (points_for_nonneg
                (getQuizRoomByPlayerId (SubmitAnswer.playerId data) s)
                (SubmitAnswer.timeToAnswer data)).
  lia.
Qed.

Lemma Inv_answer_store now data player question s :
  Inv s ->
  getPlayerById (SubmitAnswer.playerId data) s = Some player ->
  hasPlayerAnswered (SubmitAnswer.playerId data)
    (SubmitAnswer.questionId data) s = false ->
  getQuestionById (SubmitAnswer.questionId data) s = Some question ->
  Inv (answer_store now data player question s).
Proof.
  intros I GP HA GQ. unfold answer_store.
  apply Inv_updatePlayerScore.
  - apply Inv_createAnswer; [assumption|]. simpl.
    assert (Question.id question = SubmitAnswer.questionId data) as ->.
    { apply JSMapFacts.get_in in GQ. apply (proj2 (questions_keyed s I) _ _ GQ). }
    exact HA.
  - apply JSMapFacts.get_in in GP. pose proof (players_score s I _ _ GP).
    pose proof (answer_points_nonneg data question s). lia.
Qed.

Lemma Inv_post_quiz_answer now body s :
  Inv s -> Inv (fst (post_quiz_answer now body s)).
Proof.
  intros I. destruct (post_quiz_answer_cases now body s)
    as [[-> _]|(player & question & _ & GP & HA & GQ & _ & ->)];
    [assumption|].
  simpl. now apply Inv_answer_store.
Qed.

Lemma Inv_post_quiz_cleanup code body s :
  Inv s -> Inv (fst (post_quiz_cleanup code body s)).
Proof.
  intros I. unfold post_quiz_cleanup.
  destruct (CleanupRoom.parse body) as [data|]; [|assumption].
  destruct (getQuizRoomByCode code s); [|assumption].
  destruct (negb _); [assumption|].
  pose proof (Inv_cleanupRoom code s I) as I1.
  destruct (cleanupRoom code s) as [s1 success].
  now destruct (negb success).
Qed.

Lemma Inv_post_quiz_player_leave body s :
  Inv s -> Inv (fst (post_quiz_player_leave body s)).
Proof.
  intros I. unfold post_quiz_player_leave.
  destruct (LeaveRoom.parse body) as [data|]; [|assumption].
  destruct (getPlayerById _ s); [|assumption].
  pose proof (Inv_cleanupPlayer (LeaveRoom.playerId data) s I) as I1.
  destruct (cleanupPlayer _ s) as [s1 success].
  now destruct (negb success).
Qed.

Lemma Inv_ws_message data s : Inv s -> Inv (fst (ws_message data s)).
Proof.
  intros I. destruct data as [c p h|c p|c p h|c p h|c p h|c p h|]; simpl;
    try assumption.
  - pose proof (Inv_cleanupPlayer p s I) as I1.
    now destruct (cleanupPlayer p s).
  - destruct h; [|assumption].
    pose proof (Inv_cleanupRoom c s I) as I1.
    now destruct (cleanupRoom c s).
  - destruct h; [|assumption].
    destruct (getQuizRoomByCode c s); [|assumption].
    pose proof (Inv_updateQuizRoom_status c active s I) as I1.
    now destruct (updateQuizRoom c _ s).
  - destruct h; [|assumption].
    destruct (getQuizRoomByCode c s) as [room|]; [|assumption].
    destruct (_ <? _).
    + pose proof (Inv_updateQuizRoom_index c
                    (QuizRoom.currentQuestionIndex room + 1) s I) as I1.
      now destruct (updateQuizRoom c _ s).
    + pose proof (Inv_updateQuizRoom_status c finished s I) as I1.
      now destruct (updateQuizRoom c _ s).
  - destruct h; [|assumption].
    destruct (getQuizRoomByCode c s); [|assumption].
    pose proof (Inv_updateQuizRoom_status c finished s I) as I1.
    now destruct (updateQuizRoom c _ s).
Qed.

Lemma Inv_handle req s : Inv s -> Inv (fst (handle req s)).
Proof.
  intros I.
  destruct req as [env body|nw body|pid|nw body|c|c|c|c body|body|data];
    simpl; try assumption.
  - pose proof (Inv_post_quiz_create env body s I).
    now destruct (post_quiz_create env body s).
  - pose proof (Inv_post_quiz_join nw body s I).
    now destruct (post_quiz_join nw body s).
  - pose proof (Inv_post_quiz_clear_answers pid s I).
    now destruct (post_quiz_clear_answers pid s).
  - pose proof (Inv_post_quiz_answer nw body s I).
    now destruct (post_quiz_answer nw body s).
  - pose proof (Inv_post_quiz_cleanup c body s I).
    now destruct (post_quiz_cleanup c body s).
  - pose proof (Inv_post_quiz_player_leave body s I).
    now destruct (post_quiz_player_leave body s).
  - pose proof (Inv_ws_message data s I).
    now destruct (ws_message data s).
Qed.

Lemma Inv_run reqs s : Inv s -> Inv (run reqs s).
Proof.
  unfold run. revert s.
  induction reqs as [|req reqs IH]; intros s I; simpl; [assumption|].
  apply IH. now apply Inv_handle.
Qed.

Lemma reachable_Inv s : reachable s -> Inv s.
Proof. intros [reqs <-]. apply Inv_run, Inv_init. Qed.

Lemma reachable_init : reachable MemStorage.init.
Proof. now exists []. Qed.

Lemma reachable_handle req s : reachable s -> reachable (fst (handle req s)).
Proof.
  intros [reqs <-]. exists (reqs ++ [req]). unfold run.
  now rewrite fold_left_app.
Qed.

Lemma reachable_run reqs s : reachable s -> reachable (run reqs s).
Proof.
  intros [reqs0 <-]. exists (reqs0 ++ reqs). unfold run.
  now rewrite fold_left_app.
Qed.

End Invariant.

(** ** Sorting keeps the elements *)

Lemma sort_insert_In {A} (cmp : A -> A -> Z) x y l :
  In y (sort_insert cmp x l) <-> y = x \/ In y l.
Proof.
  induction l as [|z l IH]; simpl.
  - intuition congruence.
  - destruct (cmp x z <=? 0); simpl; [intuition congruence|].
    rewrite IH. intuition congruence.
Qed.

Lemma js_sort_In {A} (cmp : A -> A -> Z) y l :
  In y (js_sort cmp l) <-> In y l.
Proof.
  induction l as [|x l IH]; simpl; [tauto|].
  rewrite sort_insert_In, IH. intuition congruence.
Qed.

Lemma sort_insert_length {A} (cmp : A -> A -> Z) x l :
  List.length (sort_insert cmp x l) = S (List.length l).
Proof.
  induction l as [|z l IH]; simpl; [reflexivity|].
  destruct (cmp x z <=? 0); simpl; [reflexivity|]. now rewrite IH.
Qed.

Lemma js_sort_length {A} (cmp : A -> A -> Z) l :
  List.length (js_sort cmp l) = List.length l.
Proof.
  induction l as [|x l IH]; simpl; [reflexivity|].
  now rewrite sort_insert_length, IH.
Qed.

Lemma js_sort_nil {A} (cmp : A -> A -> Z) l : l = [] -> js_sort cmp l = [].
Proof. now intros ->. Qed.

(** ** Question generation (claim C4) *)

Section Generation.
Import OpenAI.

Lemma validate_shaped v q : validate v = Some q -> shaped q = true.
Proof.
  unfold validate.
  destruct (prop v "question") as [qq|]; [|discriminate].
  destruct (negb (truthy qq)) eqn:T; [discriminate|].
  destruct (prop v "options") as [[| | | | |items|]|]; try discriminate.
  destruct (negb (Z.of_nat (List.length items) =? 4)) eqn:L; [discriminate|].
  destruct (prop v "correctAnswer") as [[| | |c| | |]|]; try discriminate.
  destruct ((c <? 0) || (c >? 3)) eqn:C; [discriminate|].
  intros [= <-]. unfold shaped. simpl.
  apply negb_false_iff in T, L. rewrite T.
  apply Z.eqb_eq in L. apply orb_false_iff in C. destruct C as [C1 C2].
  assert (List.length items = 4%nat) as -> by lia. simpl.
  apply andb_true_iff. split; lia.
Qed.

Lemma map_throwing_Forall {A B} (f : A -> option B) (P : B -> Prop) l l' :
  (forall x y, f x = Some y -> P y) ->
  map_throwing f l = Some l' ->
  Forall P l' /\ List.length l' = List.length l.
Proof.
  intros FP. revert l'.
  induction l as [|x l IH]; intros l'; simpl.
  - intros [= <-]. split; [constructor|reflexivity].
  - destruct (f x) as [y|] eqn:E; [|discriminate].
    destruct (map_throwing f l) as [ys|]; [|discriminate].
    intros [= <-]. destruct (IH _ eq_refl) as [F L]. split.
    + constructor; eauto.
    + simpl. now rewrite L.
Qed.

Lemma Forall_prefix {A} (P : A -> Prop) n l :
  Forall P l -> Forall P (firstn n l).
Proof.
  intros F. apply Forall_forall. intros x I.
  rewrite Forall_forall in F. apply F.
  rewrite <- (firstn_skipn n l). apply in_or_app. now left.
Qed.

Lemma slice0_Forall {A} (P : A -> Prop) l n :
  Forall P l -> Forall P (slice0 l n).
Proof.
  intros F. unfold slice0. destruct (n <? 0); now apply Forall_prefix.
Qed.

Lemma slice0_length {A} (l : list A) n :
  0 <= n ->
  Z.of_nat (List.length (slice0 l n)) = Z.min n (Z.of_nat (List.length l)).
Proof.
  intros N. unfold slice0. destruct (n <? 0) eqn:E; [lia|].
  rewrite length_firstn. lia.
Qed.

Lemma FALLBACK_shaped : Forall (fun q => shaped q = true) FALLBACK_QUESTIONS.
Proof. repeat constructor. Qed.

Lemma generate_available up topic n :
  generateQuizQuestions up topic n = slice0 (available up) n.
Proof.
  unfold generateQuizQuestions, available.
  destruct up as [|result]; [reflexivity|].
  now destruct (validatedQuestions result).
Qed.

Lemma available_shaped up : Forall (fun q => shaped q = true) (available up).
Proof.
  destruct up as [|result]; simpl; [apply FALLBACK_shaped|].
  destruct (validatedQuestions result) as [validated|] eqn:E;
    [|apply FALLBACK_shaped].
  unfold validatedQuestions in E.
  destruct (prop result "questions") as [[| | | | |qs|]|]; try discriminate.
  eapply map_throwing_Forall in E; [apply E|].
  intros x y. apply validate_shaped.
Qed.

(** C4, as the code has it: the result is a prefix of at most [count]
    items, each of the validated shape; the function never raises (it is
    total), and a failed upstream gives the first [min count 10] of the
    ten fallback questions. The result has exactly [count] items only
    when at least [count] are available. *)
Theorem C4_generate_at_most_count up topic count :
  5 <= count <= 20 ->
  let r := OpenAI.generateQuizQuestions up topic count in
  r = firstn (Z.to_nat count) (available up) /\
  Z.of_nat (List.length r) = Z.min count (Z.of_nat (List.length (available up))) /\
  Forall (fun q => shaped q = true) r /\
  (upstream_failed up = true ->
   r = firstn (Z.to_nat count) FALLBACK_QUESTIONS /\
   Z.of_nat (List.length r) = Z.min count 10).
Proof.
  intros C r. subst r. rewrite generate_available. repeat split.
  - unfold slice0. destruct (count <? 0) eqn:E; [lia|reflexivity].
  - apply slice0_length. lia.
  - apply slice0_Forall, available_shaped.
  - assert (available up = FALLBACK_QUESTIONS) as ->.
    { destruct up as [|result]; simpl in *; [reflexivity|].
      now destruct (validatedQuestions result). }
    unfold slice0. destruct (count <? 0) eqn:E; [lia|reflexivity].
  - assert (available up = FALLBACK_QUESTIONS) as ->.
    { destruct up as [|result]; simpl in *; [reflexivity|].
      now destruct (validatedQuestions result). }
    rewrite slice0_length by lia. reflexivity.
Qed.

Lemma C4_generate_at_most_count_witness :
  5 <= 15 <= 20 /\
  Z.of_nat (List.length (OpenAI.generateQuizQuestions UpstreamThrows "X" 15))
  = Z.min 15 (Z.of_nat (List.length (available UpstreamThrows))).
Proof.
  split; [lia|].
  exact (proj1 (proj2 (C4_generate_at_most_count UpstreamThrows "X" 15
                         ltac:(lia)))).
Defined.

(** C4 as stated fails: with the service down and fifteen questions
    asked for, ten come back; and a service that sends three valid
    questions when five were asked for gives three. *)
Lemma C4_counterexample :
  List.length (OpenAI.generateQuizQuestions UpstreamThrows "X" 15) = 10%nat /\
  (let q := JObj [("question", JStr "Q"); 
                  ("options", JArr [JStr "a"; JStr "b"; JStr "c"; JStr "d"]);
                  ("correctAnswer", JNum 0)] in
   List.length (OpenAI.generateQuizQuestions
                  (UpstreamParsed (JObj [("questions", JArr [q; q; q])]))
                  "X" 5) = 3%nat).
Proof. split; reflexivity. Qed.

End Generation.

(** ** What each handler does to the store *)

Module Effects.
Import MemStorage Routes Invariant.

(** [POST /api/quiz/create] either answers 500 and leaves the store as it
    is, or adds one room under a code no room had, its questions, and
    the host's player record. *)
Lemma post_quiz_create_cases env body s :
  (fst (post_quiz_create env body s) = s /\
   Http.status (snd (post_quiz_create env body s)) = 500)
  \/
  (exists data code n s',
     CreateQuiz.parse body = Some data /\
     allocate 9 (random env) 0 0 s = (code, n) /\ n < 10 /\
     getQuizRoomByCode code s = None /\
     post_quiz_create env body s =
     (s', Http.ok (Http.Created code (created_room env data code s)
                     "Quiz created successfully")) /\
     quizRooms s' = JSMap.set code (created_room env data code s) (quizRooms s) /\
     players s' =
     JSMap.set (CreateQuiz.hostId data) (created_host env data s) (players s) /\
     answers s' = answers s /\
     currentRoomId s' = currentRoomId s + 1 /\
     currentPlayerId s' = currentPlayerId s + 1 /\
     currentAnswerId s' = currentAnswerId s).
Proof.
  unfold post_quiz_create.
  destruct (CreateQuiz.parse body) as [data|] eqn:P; [|left; split; reflexivity].
  pose proof (CreateQuiz_parse_some _ _ P) as (Q & T & _).
  destruct (allocate 9 (random env) 0 0 s) as [code n] eqn:A.
  destruct (n >=? 10) eqn:N; [left; split; reflexivity|].
  assert (n < 10) as N' by lia.
  assert (getQuizRoomByCode code s = None) as F
    by (apply (allocate_fresh 9 (random env) 0%nat 0 s code n); [lia|exact A|exact N']).
  right. exists data, code, n.
  assert (createQuizRoom (now env)
            (QuizRoom.mkInsert code (CreateQuiz.hostId data)
               (CreateQuiz.topic data)
               (Some (CreateQuiz.questionCount data))
               (Some (CreateQuiz.timePerQuestion data))
               (Some waiting) (Some 0)) s
          = (mk (JSMap.set code (created_room env data code s) (quizRooms s))
                (questions s) (players s) (answers s)
                (currentRoomId s + 1) (currentQuestionId s)
                (currentPlayerId s) (currentAnswerId s),
             created_room env data code s)) as E1.
  { unfold createQuizRoom, created_room.
    cbn [QuizRoom.i_roomCode QuizRoom.i_hostId QuizRoom.i_topic
         QuizRoom.i_questionCount QuizRoom.i_timePerQuestion
         QuizRoom.i_status QuizRoom.i_currentQuestionIndex].
    rewrite !num_or_some by lia. now rewrite num_or_zero. }
  rewrite E1. clear E1.
  match goal with
  | |- context [createQuestions ?l ?s1] =>
      pose proof (createQuestions_frame l s1) as FR;
      destruct (createQuestions l s1) as [s2 created]
  end.
  cbn [fst quizRooms players answers currentRoomId currentPlayerId
       currentAnswerId] in FR.
  destruct FR as (FR1 & FR2 & FR3 & FR4 & FR5 & FR6).
  unfold createPlayer.
  cbn [Player.i_roomId Player.i_name Player.i_playerId Player.i_score
       Player.i_isHost QuizRoom.id created_room].
  rewrite num_or_zero. cbn [bool_or].
  eexists. repeat (split; [reflexivity || assumption|]).
  cbn [quizRooms players answers currentRoomId currentPlayerId
       currentAnswerId].
  rewrite ?FR1, ?FR2, ?FR3, ?FR4, ?FR5, ?FR6.
  unfold created_host. repeat split; reflexivity.
Qed.

End Effects.

(** ** Room codes (claim C7) *)

Section RoomCodes.
Import MemStorage Routes Invariant Effects.

(** The loop gives up exactly when the first nine codes drawn are all
    taken: the tenth code is drawn and looked up, but [attempts] is then
    [10] whatever the lookup says. *)
Lemma allocate_exhausted fuel random pos a s code n :
  0 <= a <= 9 -> 9 - a <= Z.of_nat fuel ->
  allocate fuel random pos a s = (code, n) ->
  (10 <= n <->
   forall i : nat, Z.of_nat i < 9 - a ->
     getQuizRoomByCode (generateRoomCode random (pos + 6 * i)) s <> None).
Proof.
  revert pos a.
  induction fuel as [|fuel IH]; intros pos a A F; cbn [allocate];
    destruct (getQuizRoomByCode (generateRoomCode random pos) s) eqn:G.
  - destruct (a + 1 <? 10); intros [= <- <-];
      (split; [intros _ i L; lia|lia]).
  - intros [= <- <-]. split.
    + intros L i Li. lia.
    + intros C. destruct (Z.eq_dec a 9) as [->|N]; [lia|].
      exfalso. apply (C 0%nat); [lia|].
      now rewrite Nat.mul_0_r, Nat.add_0_r.
  - destruct (a + 1 <? 10) eqn:L.
    + intros E. rewrite (IH (pos + 6)%nat (a + 1) ltac:(lia) ltac:(lia) E).
      split.
      * intros C [|i] Li.
        -- rewrite Nat.mul_0_r, Nat.add_0_r. congruence.
        -- replace (pos + 6 * S i)%nat with (pos + 6 + 6 * i)%nat by lia.
           apply C. lia.
      * intros C i Li.
        replace (pos + 6 + 6 * i)%nat with (pos + 6 * S i)%nat by lia.
        apply C. lia.
    + intros [= <- <-]. split; [intros _ i Li; lia|lia].
  - intros [= <- <-]. split.
    + intros L i Li. lia.
    + intros C. destruct (Z.eq_dec a 9) as [->|N]; [lia|].
      exfalso. apply (C 0%nat); [lia|].
      now rewrite Nat.mul_0_r, Nat.add_0_r.
Qed.

(** Create answers 500 exactly when the request does not parse or the
    first nine codes drawn are all taken; a code it returns is the code
    of no room of the store it was allocated in. *)
Lemma create_fails_iff env body data s :
  CreateQuiz.parse body = Some data ->
  (Http.status (snd (post_quiz_create env body s)) = 500 <->
   forall i : nat, (i < 9)%nat ->
     getQuizRoomByCode (generateRoomCode (random env) (6 * i)) s <> None).
Proof.
  intros P. unfold post_quiz_create. rewrite P.
  destruct (allocate 9 (random env) 0 0 s) as [code n] eqn:A.
  pose proof (allocate_exhausted 9 (random env) 0 0 s code n
                ltac:(lia) ltac:(lia) A) as X.
  destruct (n >=? 10) eqn:N.
  - simpl. split; [|reflexivity]. intros _ i Li.
    apply (proj1 X); lia.
  - match goal with
    | |- context [createQuizRoom ?n0 ?ins s] =>
        destruct (createQuizRoom n0 ins s) as [s1 room]
    end.
    match goal with
    | |- context [createQuestions ?l s1] =>
        destruct (createQuestions l s1) as [s2 created]
    end.
    match goal with
    | |- context [createPlayer ?n0 ?ins s2] =>
        destruct (createPlayer n0 ins s2) as [s3 host]
    end.
    simpl. split; [discriminate|]. intros C. exfalso.
    assert (10 <= n); [|lia]. apply (proj2 X). intros i Li.
    apply C. lia.
Qed.

Lemma create_code_fresh env body s s' code room msg :
  post_quiz_create env body s = (s', Http.ok (Http.Created code room msg)) ->
  getQuizRoomByCode code s = None /\
  getQuizRoomByCode code s' = Some room /\
  forall c r, In (c, r) (quizRooms s') -> c = code \/ In (c, r) (quizRooms s).
Proof.
  intros E.
  destruct (post_quiz_create_cases env body s)
    as [[_ S]|(data & code0 & n & s0 & _ & _ & _ & F & E0 & R & _)].
  - rewrite E in S. discriminate.
  - rewrite E in E0. injection E0 as -> -> ->. split; [assumption|].
    unfold getQuizRoomByCode. rewrite R. split.
    + apply JSMapFacts.get_set_same.
    + intros c r I. apply JSMapFacts.in_set in I. tauto.
Qed.

Lemma length_append a b :
  String.length (String.append a b) = (String.length a + String.length b)%nat.
Proof. induction a as [|c a IH]; simpl; [reflexivity|]. now rewrite IH. Qed.

Lemma list_ascii_append a b :
  list_ascii_of_string (String.append a b)
  = list_ascii_of_string a ++ list_ascii_of_string b.
Proof. induction a as [|c a IH]; simpl; [reflexivity|]. now rewrite IH. Qed.

Lemma charAt_chars i :
  (i < 36)%nat ->
  exists c, charAt chars i = String c EmptyString /\
            In c (list_ascii_of_string chars).
Proof.
  intros L.
  do 36 (destruct i as [|i];
         [eexists; split; [reflexivity|];
          simpl; repeat (first [left; reflexivity | right])|]).
  lia.
Qed.

Lemma generateRoomCode_loop_shape random :
  (forall k, (random k < 36)%nat) ->
  forall n pos acc,
    alphanumeric acc ->
    String.length (generateRoomCode_loop random pos n acc)
    = (String.length acc + n)%nat /\
    alphanumeric (generateRoomCode_loop random pos n acc).
Proof.
  intros B. induction n as [|n IH]; intros pos acc A; simpl.
  - split; [lia|assumption].
  - destruct (charAt_chars (random pos) (B pos)) as (c & E & I).
    rewrite E.
    destruct (IH (S pos) (String.append acc (String c EmptyString))) as [L A'].
    + unfold alphanumeric in *. rewrite list_ascii_append.
      apply Forall_app. split; [assumption|].
      change (list_ascii_of_string (String c EmptyString)) with [c].
      constructor; [exact I|constructor].
    + split; [|assumption]. rewrite L, length_append.
      change (String.length (String c EmptyString)) with 1%nat. lia.
Qed.

(** A code is six characters of [chars] when every draw is an index of
    [chars], as [Math.floor(Math.random() * 36)] is. *)
Lemma generateRoomCode_shape random pos :
  (forall k, (random k < 36)%nat) ->
  String.length (generateRoomCode random pos) = 6%nat /\
  alphanumeric (generateRoomCode random pos).
Proof.
  intros B. unfold generateRoomCode.
  destruct (generateRoomCode_loop_shape random B 6 pos "") as [L A].
  - constructor.
  - split; [exact L|exact A].
Qed.

Lemma allocate_code fuel random pos a s code n :
  allocate fuel random pos a s = (code, n) ->
  exists pos', code = generateRoomCode random pos'.
Proof.
  revert pos a.
  induction fuel as [|fuel IH]; intros pos a; cbn [allocate];
    destruct (getQuizRoomByCode (generateRoomCode random pos) s);
    try (intros [= <- <-]; now exists pos);
    destruct (a + 1 <? 10);
    try (intros [= <- <-]; now exists pos).
  apply IH.
Qed.

(** The code of a successful create is six alphanumeric characters. *)
Lemma create_code_shape env body s s' code room msg :
  (forall k, (random env k < 36)%nat) ->
  post_quiz_create env body s = (s', Http.ok (Http.Created code room msg)) ->
  String.length code = 6%nat /\ alphanumeric code.
Proof.
  intros B E.
  destruct (post_quiz_create_cases env body s)
    as [[_ S]|(data & code0 & n & s0 & _ & A & _ & _ & E0 & _)].
  - rewrite E in S. discriminate.
  - rewrite E in E0. injection E0 as -> -> ->.
    destruct (allocate_code _ _ _ _ _ _ _ A) as [pos' ->].
    now apply generateRoomCode_shape.
Qed.

Lemma reachable_one_room : reachable one_room.
Proof.
  exists [PostCreate (mkEnv (fun _ => 0%nat) OpenAI.UpstreamThrows 0)
                     (CreateQuiz.mkBody "Space" (Some 5) (Some 15) "h1")].
  vm_compute. reflexivity.
Qed.

(** C7 at the failing input: the tenth code drawn, "BBBBBB", is the code
    of no room, and Create still answers 500 and creates nothing. *)
Theorem C7_tenth_attempt_discarded :
  let env := mkEnv nine_collisions OpenAI.UpstreamThrows 1 in
  let body := CreateQuiz.mkBody "Space" (Some 5) (Some 15) "h2" in
  reachable one_room /\
  allocate 9 nine_collisions 0 0 one_room = ("BBBBBB", 10) /\
  getQuizRoomByCode "BBBBBB" one_room = None /\
  post_quiz_create env body one_room =
  (one_room, Http.mk 500 (Http.Message "Failed to generate unique room code")).
Proof.
  cbv zeta. split; [|split; [|split]].
  - exact reachable_one_room.
  - vm_compute. reflexivity.
  - vm_compute. reflexivity.
  - vm_compute. reflexivity.
Qed.

End RoomCodes.

(** ** Creating a player under a token already present (claim C10) *)

Section CreatePlayer.
Import MemStorage Routes Invariant Effects.

Lemma keys_set_present {V} (k : string) (v : V) m :
  JSMap.has k m = true -> JSMap.keys (JSMap.set k v m) = JSMap.keys m.
Proof. intros H. rewrite JSMapFacts.keys_set. now rewrite H. Qed.

(** C10: [createPlayer] under a token that is present replaces the
    record where it stands (same keys in the same order, the token now
    maps to the new record, every other token to what it mapped to),
    the token maps to one record only, and rooms, questions and answers
    are untouched, so the answers stored under the token stay. The same
    holds of a successful Create whose host is already a player. *)
Theorem C10_createPlayer_replaces_in_place now ins s old :
  reachable s ->
  getPlayerById (Player.i_playerId ins) s = Some old ->
  let pid := Player.i_playerId ins in
  let s' := fst (createPlayer now ins s) in
  let p := snd (createPlayer now ins s) in
  (getPlayerById pid s' = Some p /\
   JSMap.keys (players s') = JSMap.keys (players s) /\
   (forall k, k <> pid -> getPlayerById k s' = getPlayerById k s) /\
   (forall p1 p2, In (pid, p1) (players s') -> In (pid, p2) (players s') ->
                  p1 = p2) /\
   quizRooms s' = quizRooms s /\ questions s' = questions s /\
   answers s' = answers s /\
   getAnswersByPlayerId pid s' = getAnswersByPlayerId pid s)
  /\
  (forall env body s2 r,
     CreateQuiz.b_hostId body = pid ->
     post_quiz_create env body s = (s2, r) -> Http.status r = 200 ->
     JSMap.keys (players s2) = JSMap.keys (players s) /\
     (exists host, getPlayerById pid s2 = Some host /\
                   Player.isHost host = true /\ Player.score host = 0 /\
                   Player.roomId host = currentRoomId s) /\
     (forall k, k <> pid -> getPlayerById k s2 = getPlayerById k s) /\
     answers s2 = answers s /\
     getAnswersByPlayerId pid s2 = getAnswersByPlayerId pid s).
Proof.
  intros R G pid s' p. apply reachable_Inv in R.
  assert (JSMap.has pid (players s) = true) as HP
    by (unfold JSMap.has; unfold getPlayerById in G; fold pid in G; now rewrite G).
  split.
  - subst s' p. unfold createPlayer, getPlayerById, getAnswersByPlayerId.
    cbn [fst snd players quizRooms questions answers]. fold pid.
    repeat split.
    + apply JSMapFacts.get_set_same.
    + now apply keys_set_present.
    + intros k N. now apply JSMapFacts.get_set_other.
    + intros p1 p2 I1 I2.
      apply JSMapFacts.in_set in I1, I2.
      destruct I1 as [[_ ->]|[N _]]; [|congruence].
      destruct I2 as [[_ ->]|[N _]]; [reflexivity|congruence].
  - intros env body s2 r EH E S.
    destruct (post_quiz_create_cases env body s)
      as [[_ S5]|(data & code & n & s0 & P & _ & _ & _ & E0 & _ & EP & EA & _)].
    + rewrite E in S5. simpl in S5. lia.
    + rewrite E in E0. injection E0 as -> _.
      apply CreateQuiz_parse_some in P. destruct P as (_ & _ & _ & EHost & _).
      rewrite EH in EHost. unfold getPlayerById, getAnswersByPlayerId.
      rewrite EP, EA, EHost. repeat split.
      * now apply keys_set_present.
      * exists (created_host env data s). split; [apply JSMapFacts.get_set_same|].
        now unfold created_host.
      * intros k N. now apply JSMapFacts.get_set_other.
Qed.

(** The host of "AAAAAA" is created again as a player of the same store. *)
Lemma C10_createPlayer_replaces_in_place_witness :
  reachable one_room /\
  JSMap.keys (players (fst (createPlayer 7
                              (Player.mkInsert 1 "Again" "h1" None None)
                              one_room)))
  = JSMap.keys (players one_room).
Proof.
  split; [exact reachable_one_room|].
  apply (C10_createPlayer_replaces_in_place 7
           (Player.mkInsert 1 "Again" "h1" None None) one_room
           (Player.mk 1 1 "Host" "h1" 0 true 0) reachable_one_room).
  vm_compute. reflexivity.
Defined.

End CreatePlayer.

(** ** Cleanup (claims C5 and C6) *)

Section Cleanup.
Import MemStorage Routes Invariant Effects.

Lemma filter_none {A} (f : A -> bool) l :
  (forall x, In x l -> f x = false) -> filter f l = [].
Proof.
  induction l as [|x l IH]; intros N; simpl; [reflexivity|].
  rewrite (N x (or_introl eq_refl)). apply IH. intros y I. apply N. now right.
Qed.

(** A successful REST cleanup and a socket cleanup flagged as host both
    leave the store [cleanupRoom] leaves. *)
Lemma post_quiz_cleanup_ok code body s s' r :
  post_quiz_cleanup code body s = (s', r) -> Http.status r = 200 ->
  s' = fst (cleanupRoom code s) /\ snd (cleanupRoom code s) = true /\
  exists room, getQuizRoomByCode code s = Some room /\
               QuizRoom.hostId room = CleanupRoom.playerId body.
Proof.
  unfold post_quiz_cleanup.
  destruct (CleanupRoom.parse body) as [data|] eqn:P;
    [|intros [= <- <-]; simpl; lia].
  apply CleanupRoom_parse_some in P. destruct P as [-> _].
  destruct (getQuizRoomByCode code s) as [room|] eqn:G;
    [|intros [= <- <-]; simpl; lia].
  destruct (negb (String.eqb _ _)) eqn:H; [intros [= <- <-]; simpl; lia|].
  apply negb_false_iff, String.eqb_eq in H.
  destruct (cleanupRoom code s) as [s1 success].
  destruct success; simpl; intros [= <- <-]; simpl; [|lia].
  intros _. repeat split. now exists room.
Qed.

(** C5: after a successful cleanup of room [room], no room, player or
    question of that room and no answer to one of its questions can be
    read back from the store, by key or by listing. *)
Theorem C5_cleanup_cascades code room s :
  reachable s ->
  getQuizRoomByCode code s = Some room ->
  let s' := fst (cleanupRoom code s) in
  snd (cleanupRoom code s) = true /\
  getQuizRoomByCode code s' = None /\
  (forall c r, getQuizRoomByCode c s' = Some r ->
               QuizRoom.id r <> QuizRoom.id room) /\
  (forall pid p, getPlayerById pid s' = Some p ->
                 Player.roomId p <> QuizRoom.id room) /\
  getPlayersByRoomId (QuizRoom.id room) s' = [] /\
  (forall qid q, getQuestionById qid s' = Some q ->
                 Question.roomId q <> QuizRoom.id room) /\
  getQuestionsByRoomId (QuizRoom.id room) s' = [] /\
  (forall q, In q (getQuestionsByRoomId (QuizRoom.id room) s) ->
             getQuestionById (Question.id q) s' = None /\
             getAnswersByQuestionId (Question.id q) s' = []) /\
  (forall aid a q, JSMap.get aid (answers s') = Some a ->
                   getQuestionById (Answer.questionId a) s = Some q ->
                   Question.roomId q <> QuizRoom.id room) /\
  (forall body s2 r, post_quiz_cleanup code body s = (s2, r) ->
                     Http.status r = 200 -> s2 = s') /\
  (forall pid, fst (ws_message (Hub.MCleanupRoom code pid true) s) = s').
Proof.
  intros R G s'. apply reachable_Inv in R.
  pose proof (Inv_cleanupRoom code s R) as I'. fold s' in I'.
  unfold getQuizRoomByCode in G.
  pose proof (fun k p => in_cleanupRoom_players code room s k p R G) as IP.
  pose proof (fun k q => in_cleanupRoom_questions code room s k q R G) as IQ.
  pose proof (fun k a => in_cleanupRoom_answers code room s k a R G) as IA.
  pose proof (rooms_cleanupRoom code room s G) as ER.
  fold s' in IP, IQ, IA, ER.
  assert (forall pid p, getPlayerById pid s' = Some p ->
                        Player.roomId p <> QuizRoom.id room) as NP.
  { intros pid p GP. apply JSMapFacts.get_in in GP. apply IP in GP. tauto. }
  assert (forall qid q, getQuestionById qid s' = Some q ->
                        Question.roomId q <> QuizRoom.id room) as NQ.
  { intros qid q GQ. apply JSMapFacts.get_in in GQ. apply IQ in GQ. tauto. }
  split; [|split; [|split; [|split; [|split; [|split; [|split; [|split;
    [|split; [|split]]]]]]]]].
  - unfold cleanupRoom. rewrite G. simpl. unfold JSMap.has. now rewrite G.
  - unfold getQuizRoomByCode. rewrite ER. apply JSMapFacts.get_delete_same.
  - intros c r GR E. unfold getQuizRoomByCode in GR. rewrite ER in GR.
    apply JSMapFacts.get_in, JSMapFacts.in_delete in GR. destruct GR as [N GR].
    apply N. apply (rooms_unique s R c r code room GR); [|exact E].
    now apply JSMapFacts.get_in.
  - exact NP.
  - unfold getPlayersByRoomId. apply js_sort_nil, filter_none.
    intros p I. apply JSMapFacts.values_in in I. destruct I as [k I].
    apply Z.eqb_neq. apply (NP k).
    now apply (keyed_get _ _ _ _ (players_keyed s' I')).
  - exact NQ.
  - unfold getQuestionsByRoomId. apply js_sort_nil, filter_none.
    intros q I. apply JSMapFacts.values_in in I. destruct I as [k I].
    apply Z.eqb_neq. apply (NQ k).
    now apply (keyed_get _ _ _ _ (questions_keyed s' I')).
  - intros q I. unfold getQuestionsByRoomId in I.
    apply js_sort_In, filter_In in I. destruct I as [I E].
    apply Z.eqb_eq in E. apply JSMapFacts.values_in in I. destruct I as [k I].
    split.
    + destruct (getQuestionById (Question.id q) s') as [q'|] eqn:GQ;
        [|reflexivity].
      exfalso. pose proof (NQ _ _ GQ) as N.
      apply JSMapFacts.get_in, IQ in GQ. destruct GQ as [GQ _].
      assert (k = Question.id q)
        by (symmetry; apply (proj2 (questions_keyed s R) _ _ I)).
      subst k.
      assert (q' = q)
        by (apply (keyed_inj _ _ _ _ _ _ (questions_keyed s R) GQ I eq_refl)).
      congruence.
    + unfold getAnswersByQuestionId. apply filter_none.
      intros a IN. apply JSMapFacts.values_in in IN. destruct IN as [ka IN].
      apply Z.eqb_neq. apply IA in IN. destruct IN as [_ N].
      apply (N k q I E).
  - intros aid a q GA GQ E. apply JSMapFacts.get_in, IA in GA.
    destruct GA as [_ N]. apply JSMapFacts.get_in in GQ.
    apply (N _ _ GQ E). symmetry.
    apply (proj2 (questions_keyed s R) _ _ GQ).
  - intros body s2 r E S. now apply (post_quiz_cleanup_ok code body s s2 r).
  - intros pid. subst s'. simpl. now destruct (cleanupRoom code s).
Qed.

Lemma C5_cleanup_cascades_witness :
  reachable one_room /\
  getPlayersByRoomId 1 (fst (cleanupRoom "AAAAAA" one_room)) = [] /\
  getQuestionsByRoomId 1 (fst (cleanupRoom "AAAAAA" one_room)) = [].
Proof.
  pose proof (C5_cleanup_cascades "AAAAAA"
                (QuizRoom.mk 1 "AAAAAA" "h1" "Space" 5 15 waiting 0 0)
                one_room reachable_one_room) as X.
  split; [exact reachable_one_room|].
  assert (getQuizRoomByCode "AAAAAA" one_room
          = Some (QuizRoom.mk 1 "AAAAAA" "h1" "Space" 5 15 waiting 0 0)) as G
    by (vm_compute; reflexivity).
  specialize (X G). cbv zeta in X. simpl QuizRoom.id in X.
  split; [apply X|apply X].
Defined.

(** C6 as stated fails on the socket path: "p1", who is not the host
    "h1" of room "AAAAAA", sends [cleanup-room] with [isHost: true], and
    the room, its host player and its five questions are deleted. *)
Lemma C6_counterexample :
  option_map QuizRoom.hostId (getQuizRoomByCode "AAAAAA" one_room) = Some "h1" /\
  List.length (players one_room) = 1%nat /\
  List.length (questions one_room) = 5%nat /\
  let s' := fst (ws_message (Hub.MCleanupRoom "AAAAAA" "p1" true) one_room) in
  getQuizRoomByCode "AAAAAA" s' = None /\ players s' = [] /\ questions s' = [].
Proof. vm_compute. repeat split. Qed.

(** C6, as the code has it. REST: a request whose [playerId] is not the
    room's [hostId] leaves the store as it is and is answered 403 when the
    body is valid and 400 when it is not; so a REST cleanup that changes
    the store comes from the host identity. Socket: [cleanup-room] is
    dropped, with no reply and no change, when its [isHost] flag is false;
    the flag is the client's word and the sender is not compared with the
    room's host. *)
Theorem C6_cleanup_host_check code room s :
  getQuizRoomByCode code s = Some room ->
  (forall body,
     CleanupRoom.playerId body <> QuizRoom.hostId room ->
     fst (post_quiz_cleanup code body s) = s /\
     (CleanupRoom.parse body = Some body ->
      snd (post_quiz_cleanup code body s)
      = Http.mk 403 (Http.Message "Only the room host can cleanup")) /\
     (CleanupRoom.parse body = None ->
      snd (post_quiz_cleanup code body s) = Http.mk 400 Http.InvalidRequestData))
  /\
  (forall body, fst (post_quiz_cleanup code body s) <> s ->
                CleanupRoom.playerId body = QuizRoom.hostId room)
  /\
  (forall pid, ws_message (Hub.MCleanupRoom code pid false) s = (s, [])).
Proof.
  intros G.
  assert (forall body,
     CleanupRoom.playerId body <> QuizRoom.hostId room ->
     fst (post_quiz_cleanup code body s) = s /\
     (CleanupRoom.parse body = Some body ->
      snd (post_quiz_cleanup code body s)
      = Http.mk 403 (Http.Message "Only the room host can cleanup")) /\
     (CleanupRoom.parse body = None ->
      snd (post_quiz_cleanup code body s) = Http.mk 400 Http.InvalidRequestData))
    as REST.
  { intros body N. unfold post_quiz_cleanup.
    destruct (CleanupRoom.parse body) as [data|] eqn:P.
    - apply CleanupRoom_parse_some in P. destruct P as [-> _].
      rewrite G.
      assert (String.eqb (QuizRoom.hostId room) (CleanupRoom.playerId body)
              = false) as -> by (apply String.eqb_neq; congruence).
      simpl. split; [reflexivity|split; [reflexivity|discriminate]].
    - simpl. split; [reflexivity|split; [discriminate|reflexivity]]. }
  split; [exact REST|split].
  - intros body C.
    destruct (String.eqb (CleanupRoom.playerId body) (QuizRoom.hostId room))
      eqn:E; [now apply String.eqb_eq|].
    apply String.eqb_neq in E. exfalso. apply C. now apply REST.
  - reflexivity.
Qed.

Lemma C6_cleanup_host_check_witness :
  fst (post_quiz_cleanup "AAAAAA" (CleanupRoom.mk "p1" true) one_room) = one_room.
Proof.
  apply (C6_cleanup_host_check "AAAAAA"
           (QuizRoom.mk 1 "AAAAAA" "h1" "Space" 5 15 waiting 0 0) one_room).
  - vm_compute. reflexivity.
  - simpl. discriminate.
Defined.

End Cleanup.

(** ** Answers and scoring (claims C2 and C3) *)

Section Answers.
Import MemStorage Routes Invariant Effects.

Lemma values_NoDup {K V} `{KeyEq K} (key_of : V -> K) (m : JSMap.t K V) :
  keyed key_of m -> NoDup (JSMap.values m).
Proof.
  intros [ND KO]. apply (NoDup_map_inv key_of).
  replace (map key_of (JSMap.values m)) with (JSMap.keys m); [assumption|].
  unfold JSMap.values, JSMap.keys. rewrite map_map.
  apply map_ext_in. intros [k v] I. simpl. symmetry. now apply KO.
Qed.








End Answers.

Section Scoring.
Import MemStorage Routes Invariant Effects.

Lemma reachable_joined : reachable joined.
Proof. apply reachable_run, reachable_one_room. Qed.

Lemma reachable_answered : reachable answered.
Proof. apply reachable_run, reachable_joined. Qed.




End Scoring.

(** ** Join (claim C8) *)

Section Join.
Import MemStorage Routes Invariant Effects.



Lemma in_getPlayersByRoomId q roomId s :
  Inv s ->
  (In q (getPlayersByRoomId roomId s) <->
   exists k, getPlayerById k s = Some q /\ Player.roomId q = roomId).
Proof.
  intros I. unfold getPlayersByRoomId, getPlayerById.
  rewrite js_sort_In, filter_In, Z.eqb_eq. split.
  - intros [IN E]. apply JSMapFacts.values_in in IN. destruct IN as [k IN].
    exists k. split; [|assumption].
    now apply (keyed_get _ _ _ _ (players_keyed s I)).
  - intros (k & G & E). split; [|assumption].
    apply JSMapFacts.get_in in G. eapply JSMapFacts.in_values; eauto.
Qed.



End Join.

(** ** What one request does to the rooms and to the players *)

Section Steps.
Import MemStorage Routes Invariant Effects.

Lemma post_quiz_join_effect now body s :
  fst (post_quiz_join now body s) = s \/
  exists room,
    getQuizRoomByCode (JoinQuiz.roomCode body) s = Some room /\
    (forall p, getPlayerById (JoinQuiz.playerId body) s = Some p ->
               Player.roomId p <> QuizRoom.id room) /\
    fst (post_quiz_join now body s)
    = fst (createPlayer now
             (Player.mkInsert (QuizRoom.id room) (JoinQuiz.name body)
                (JoinQuiz.playerId body) (Some 0) (Some false))
             (join_base (JoinQuiz.playerId body) s)).
Proof.
  unfold post_quiz_join.
  destruct (JoinQuiz.parse body) as [data|] eqn:P; [|now left].
  apply JoinQuiz_parse_some in P. subst data.
  destruct (getQuizRoomByCode (JoinQuiz.roomCode body) s) as [room|];
    [|now left].
  destruct (negb (Status_eqb (QuizRoom.status room) waiting)); [now left|].
  destruct (match getPlayerById (JoinQuiz.playerId body) s with
            | Some p => Player.roomId p =? QuizRoom.id room
            | None => false
            end) eqn:E; [now left|].
  right. exists room. split; [reflexivity|]. split.
  - intros p GP. rewrite GP in E. now apply Z.eqb_neq.
  - fold (join_base (JoinQuiz.playerId body) s).
    now destruct (createPlayer _ _ _).
Qed.


Lemma rooms_cleanupRoom_any code s :
  quizRooms (fst (cleanupRoom code s)) = JSMap.delete code (quizRooms s) /\
  currentRoomId (fst (cleanupRoom code s)) = currentRoomId s /\
  currentPlayerId (fst (cleanupRoom code s)) = currentPlayerId s.
Proof.
  unfold cleanupRoom. destruct (JSMap.get code (quizRooms s)) eqn:G; simpl.
  - auto.
  - now rewrite JSMapFacts.delete_absent.
Qed.

Lemma rooms_cleanupPlayer pid s :
  quizRooms (fst (cleanupPlayer pid s)) = quizRooms s /\
  currentRoomId (fst (cleanupPlayer pid s)) = currentRoomId s /\
  currentPlayerId (fst (cleanupPlayer pid s)) = currentPlayerId s /\
  players (fst (cleanupPlayer pid s)) = JSMap.delete pid (players s).
Proof.
  unfold cleanupPlayer. destruct (JSMap.get pid (players s)) eqn:G; simpl.
  - auto.
  - now rewrite JSMapFacts.delete_absent.
Qed.

Lemma ws_message_rooms data s :
  quizRooms (fst (ws_message data s)) = apply_change (ws_change data s) (quizRooms s) /\
  currentRoomId (fst (ws_message data s)) = currentRoomId s.
Proof.
  assert (forall c u room,
            JSMap.get c (quizRooms s) = Some room ->
            quizRooms (fst (updateQuizRoom c u s))
            = JSMap.set c (QuizRoom.spread room u) (quizRooms s) /\
            currentRoomId (fst (updateQuizRoom c u s)) = currentRoomId s) as U.
  { intros c u room G. unfold updateQuizRoom. rewrite G. simpl. auto. }
  destruct data as [c p h|c p|c p h|c p h|c p h|c p h|];
    unfold ws_message, ws_change, apply_change;
    try (split; reflexivity).
  - pose proof (rooms_cleanupPlayer p s) as (E1 & E2 & _).
    now destruct (cleanupPlayer p s).
  - destruct h; [|split; reflexivity].
    pose proof (rooms_cleanupRoom_any c s) as (E1 & E2 & _).
    now destruct (cleanupRoom c s).
  - destruct h; [|split; reflexivity]. unfold getQuizRoomByCode.
    destruct (JSMap.get c (quizRooms s)) as [room|] eqn:G; [|split; reflexivity].
    pose proof (U c (QuizRoom.only_status active) room G) as X.
    now destruct (updateQuizRoom c _ s).
  - destruct h; [|split; reflexivity]. unfold getQuizRoomByCode.
    destruct (JSMap.get c (quizRooms s)) as [room|] eqn:G; [|split; reflexivity].
    destruct (_ <? _); rewrite G.
    + pose proof (U c (QuizRoom.only_index
                         (QuizRoom.currentQuestionIndex room + 1)) room G) as X.
      now destruct (updateQuizRoom c _ s).
    + pose proof (U c (QuizRoom.only_status finished) room G) as X.
      now destruct (updateQuizRoom c _ s).
  - destruct h; [|split; reflexivity]. unfold getQuizRoomByCode.
    destruct (JSMap.get c (quizRooms s)) as [room|] eqn:G; [|split; reflexivity].
    pose proof (U c (QuizRoom.only_status finished) room G) as X.
    now destruct (updateQuizRoom c _ s).
Qed.

Lemma get_delete_some {V} (k k' : string) (v : V) m :
  JSMap.get k' (JSMap.delete k m) = Some v -> JSMap.get k' m = Some v.
Proof.
  destruct (String.eqb k' k) eqn:E.
  - apply String.eqb_eq in E. subst. now rewrite JSMapFacts.get_delete_same.
  - apply String.eqb_neq in E. now rewrite JSMapFacts.get_delete_other.
Qed.



Lemma rooms_step_change req s s' ch :
  quizRooms s' = apply_change ch (quizRooms s) ->
  currentRoomId s' = currentRoomId s ->
  (forall c st, ch = SetStatus c st ->
     st = finished \/
     (st = active /\ exists pid, req = Socket (Hub.MStartQuiz c pid true))) ->
  rooms_step req s s'.
Proof.
  intros ER EC SC. split; [lia|]. intros c' r' G. right.
  unfold getQuizRoomByCode in *. rewrite ER in G.
  destruct ch as [|code st|code i|code]; simpl in G.
  - exists r'. auto.
  - destruct (JSMap.get code (quizRooms s)) as [room|] eqn:GR;
      [|exists r'; auto].
    destruct (String.eqb c' code) eqn:E.
    + apply String.eqb_eq in E. subst c'. rewrite JSMapFacts.get_set_same in G.
      injection G as <-. exists room. split; [assumption|].
      split; [reflexivity|]. right. simpl.
      destruct (SC code st eq_refl) as [->|[-> X]]; auto.
    + apply String.eqb_neq in E. rewrite JSMapFacts.get_set_other in G by assumption.
      exists r'. auto.
  - destruct (JSMap.get code (quizRooms s)) as [room|] eqn:GR;
      [|exists r'; auto].
    destruct (String.eqb c' code) eqn:E.
    + apply String.eqb_eq in E. subst c'. rewrite JSMapFacts.get_set_same in G.
      injection G as <-. exists room. auto.
    + apply String.eqb_neq in E. rewrite JSMapFacts.get_set_other in G by assumption.
      exists r'. auto.
  - apply get_delete_some in G. exists r'. auto.
Qed.

Lemma rooms_step_same req s s' :
  quizRooms s' = quizRooms s -> currentRoomId s' = currentRoomId s ->
  rooms_step req s s'.
Proof.
  intros ER EC. apply (rooms_step_change req s s' Unchanged); auto.
  discriminate.
Qed.

Lemma answer_store_frame now data player question s :
  quizRooms (answer_store now data player question s) = quizRooms s /\
  currentRoomId (answer_store now data player question s) = currentRoomId s /\
  currentPlayerId (answer_store now data player question s) = currentPlayerId s.
Proof.
  unfold answer_store, updatePlayerScore, createAnswer. cbn [fst players].
  destruct (JSMap.get (SubmitAnswer.playerId data) (players s)); simpl; auto.
Qed.

Lemma join_frame now body s :
  quizRooms (fst (post_quiz_join now body s)) = quizRooms s /\
  currentRoomId (fst (post_quiz_join now body s)) = currentRoomId s.
Proof.
  destruct (post_quiz_join_effect now body s) as [->|(room & _ & _ & ->)];
    [auto|].
  unfold createPlayer, join_base. cbn [fst quizRooms currentRoomId].
  destruct (getPlayerById (JoinQuiz.playerId body) s); [|auto].
  pose proof (rooms_cleanupPlayer (JoinQuiz.playerId body) s). tauto.
Qed.

Lemma handle_rooms req s : Inv s -> rooms_step req s (fst (handle req s)).
Proof.
  intros I.
  destruct req as [env body|nw body|pid|nw body|c|c|c|c body|body|data];
    unfold handle; try (apply rooms_step_same; reflexivity).
  - destruct (post_quiz_create_cases env body s)
      as [[E _]|(data & code & n & s0 & _ & _ & _ & F & E & ER & _ & _ & EC & _)].
    + destruct (post_quiz_create env body s) as [s1 r]. simpl in *. subst s1.
      apply rooms_step_same; reflexivity.
    + rewrite E. cbn [fst]. split; [lia|]. intros c' r' G.
      unfold getQuizRoomByCode in *. rewrite ER in G.
      destruct (String.eqb c' code) eqn:EQ.
      * apply String.eqb_eq in EQ. subst c'. rewrite JSMapFacts.get_set_same in G.
        injection G as <-. left. auto.
      * apply String.eqb_neq in EQ.
        rewrite JSMapFacts.get_set_other in G by assumption.
        right. exists r'. auto.
  - pose proof (join_frame nw body s) as [E1 E2].
    destruct (post_quiz_join nw body s) as [s1 r].
    now apply rooms_step_same.
  - unfold post_quiz_clear_answers. destruct (negb (nonempty pid));
      apply rooms_step_same; reflexivity.
  - destruct (post_quiz_answer_cases nw body s)
      as [[E _]|(player & question & _ & _ & _ & _ & _ & E)].
    + destruct (post_quiz_answer nw body s) as [s1 r]. simpl in *. subst s1.
      apply rooms_step_same; reflexivity.
    + rewrite E. cbn [fst].
      pose proof (answer_store_frame nw body player question s).
      apply rooms_step_same; tauto.
  - unfold post_quiz_cleanup.
    destruct (CleanupRoom.parse body); [|apply rooms_step_same; reflexivity].
    destruct (getQuizRoomByCode c s); [|apply rooms_step_same; reflexivity].
    destruct (negb _); [apply rooms_step_same; reflexivity|].
    pose proof (rooms_cleanupRoom_any c s) as (E1 & E2 & _).
    destruct (cleanupRoom c s) as [s1 b].
    destruct (negb b); cbn [fst] in *;
      apply (rooms_step_change _ s s1 (Removed c)); auto; discriminate.
  - unfold post_quiz_player_leave.
    destruct (LeaveRoom.parse body) as [data|];
      [|apply rooms_step_same; reflexivity].
    destruct (getPlayerById _ s); [|apply rooms_step_same; reflexivity].
    pose proof (rooms_cleanupPlayer (LeaveRoom.playerId data) s) as (E1 & E2 & _).
    destruct (cleanupPlayer _ s) as [s1 b].
    destruct (negb b); cbn [fst] in *; now apply rooms_step_same.
  - pose proof (ws_message_rooms data s) as [E1 E2].
    destruct (ws_message data s) as [s1 a]. cbn [fst] in *.
    apply (rooms_step_change _ s s1 (ws_change data s)); auto.
    intros c st EC.
    destruct data as [c0 p h|c0 p|c0 p h|c0 p h|c0 p h|c0 p h|];
      simpl in EC; try discriminate; destruct h; try discriminate.
    + injection EC as -> <-. right. split; [reflexivity|]. now exists p.
    + destruct (getQuizRoomByCode c0 s); [|discriminate].
      destruct (_ <? _); [discriminate|]. injection EC as -> <-. now left.
    + injection EC as -> <-. now left.
Qed.

End Steps.

(** ** The status of a room along an execution (claim C1) *)

Section Status.
Import MemStorage Routes Invariant Effects.

(** A room of the last store whose id is older than the first store's
    counter was in the first store, and was waiting there if it is waiting
    at the end. *)
Lemma run_rooms reqs : forall s,
  Inv s ->
  currentRoomId s <= currentRoomId (run reqs s) /\
  forall c' r', getQuizRoomByCode c' (run reqs s) = Some r' ->
    QuizRoom.id r' < currentRoomId s ->
    exists c r, getQuizRoomByCode c s = Some r /\
                QuizRoom.id r = QuizRoom.id r' /\
                (QuizRoom.status r' = waiting -> QuizRoom.status r = waiting).
Proof.
  induction reqs as [|req reqs IH]; intros s I.
  - split; [simpl; lia|]. intros c' r' G _. exists c', r'. auto.
  - change (run (req :: reqs) s) with (run reqs (fst (handle req s))).
    pose proof (Inv_handle req s I) as I1.
    destruct (IH _ I1) as [L1 X1].
    destruct (handle_rooms req s I) as [L0 X0].
    split; [lia|]. intros c' r' G L.
    destruct (X1 c' r' G ltac:(lia)) as (c1 & r1 & G1 & E1 & W1).
    destruct (X0 c1 r1 G1) as [[EN _]|(r & G0 & E0 & ST)]; [lia|].
    exists c1, r. split; [assumption|]. split; [congruence|].
    intros W. specialize (W1 W).
    destruct ST as [ST|[ST|[ST _]]]; congruence.
Qed.

(** C1, as the code has it: along any execution a room that is active
    or finished is never waiting again; one request leaves the status of
    a room where it is or moves it forward, except that [start-quiz]
    flagged as host sets [active] whatever the status was, so it takes a
    finished room back to active: Start does not require [waiting]. *)
Theorem C1_status_transitions s :
  reachable s ->
  (forall reqs c r c' r',
     getQuizRoomByCode c s = Some r ->
     getQuizRoomByCode c' (run reqs s) = Some r' ->
     QuizRoom.id r' = QuizRoom.id r ->
     QuizRoom.status r <> waiting -> QuizRoom.status r' <> waiting) /\
  (forall req c r r',
     getQuizRoomByCode c s = Some r ->
     getQuizRoomByCode c (fst (handle req s)) = Some r' ->
     rank (QuizRoom.status r) <= rank (QuizRoom.status r') \/
     (QuizRoom.status r = finished /\ QuizRoom.status r' = active /\
      exists pid, req = Socket (Hub.MStartQuiz c pid true))) /\
  (forall c pid r,
     getQuizRoomByCode c s = Some r ->
     option_map QuizRoom.status
       (getQuizRoomByCode c
          (fst (handle (Socket (Hub.MStartQuiz c pid true)) s)))
     = Some active).
Proof.
  intros R. apply reachable_Inv in R. split; [|split].
  - intros reqs c r c' r' G G' E N W.
    destruct (run_rooms reqs s R) as [_ X].
    pose proof (JSMapFacts.get_in _ _ _ G) as IN.
    pose proof (rooms_ids s R _ _ IN) as L.
    destruct (X c' r' G' ltac:(lia)) as (c0 & r0 & G0 & E0 & W0).
    specialize (W0 W).
    assert (c0 = c).
    { apply (rooms_unique s R c0 r0 c r); [now apply JSMapFacts.get_in|assumption|].
      congruence. }
    subst c0. unfold getQuizRoomByCode in *. congruence.
  - intros req c r r' G G'.
    destruct (handle_rooms req s R) as [_ X].
    destruct (X c r' G') as [[_ GN]|(r0 & G0 & _ & ST)]; [congruence|].
    assert (r0 = r) by congruence. subst r0.
    destruct ST as [ST|[ST|[ST P]]].
    + left. rewrite ST. lia.
    + left. rewrite ST. destruct (QuizRoom.status r); simpl; lia.
    + destruct (QuizRoom.status r) eqn:SR.
      * left. rewrite ST. simpl. lia.
      * left. rewrite ST. simpl. lia.
      * right. auto.
  - intros c pid r G. simpl. rewrite G.
    unfold updateQuizRoom, getQuizRoomByCode in *. rewrite G. simpl.
    now rewrite JSMapFacts.get_set_same.
Qed.

Lemma reachable_finished_room : reachable finished_room.
Proof. apply reachable_run, reachable_one_room. Qed.

Lemma C1_status_transitions_witness :
  reachable finished_room /\
  option_map QuizRoom.status
    (getQuizRoomByCode "AAAAAA"
       (fst (handle (Socket (Hub.MStartQuiz "AAAAAA" "h1" true)) finished_room)))
  = Some active.
Proof.
  split; [exact reachable_finished_room|].
  apply (proj2 (proj2 (C1_status_transitions finished_room
                         reachable_finished_room))
           "AAAAAA" "h1" (QuizRoom.mk 1 "AAAAAA" "h1" "Space" 5 15 finished 0 0)).
  vm_compute. reflexivity.
Defined.

(** C1 as stated fails: room "AAAAAA" is finished, a [start-quiz]
    message flagged as host arrives, and the same room is active. *)
Lemma C1_counterexample :
  reachable finished_room /\
  option_map (fun r => (QuizRoom.id r, QuizRoom.status r))
    (getQuizRoomByCode "AAAAAA" finished_room) = Some (1, finished) /\
  option_map (fun r => (QuizRoom.id r, QuizRoom.status r))
    (getQuizRoomByCode "AAAAAA"
       (fst (handle (Socket (Hub.MStartQuiz "AAAAAA" "h1" true)) finished_room)))
  = Some (1, active).
Proof.
  split; [exact reachable_finished_room|]. split; vm_compute; reflexivity.
Qed.

End Status.

(** ** The score of a player along an execution (claim C9) *)

Section Score.
Import MemStorage Routes Invariant Effects.










End Score.

(** ** The example scenarios of the specification, run on the embedding *)

Section Scenarios.
Import MemStorage Routes.

(** Scenario 1: a created room is waiting at index 0, with its questions
    at positions 0 to 4 and the host as its only player, score 0. *)
Example scenario_create :
  option_map (fun r => (QuizRoom.status r, QuizRoom.currentQuestionIndex r))
    (getQuizRoomByCode "AAAAAA" one_room) = Some (waiting, 0) /\
  map Question.order (getQuestionsByRoomId 1 one_room) = [0; 1; 2; 3; 4] /\
  map (fun p => (Player.playerId p, Player.score p, Player.isHost p))
    (getPlayersByRoomId 1 one_room) = [("h1", 0, true)].
Proof. vm_compute. repeat split. Qed.

(** Scenario 2: a second join of the same room is refused; a join of
    another room moves the player there. *)
Example scenario_join :
  let two_rooms :=
    run [PostCreate (mkEnv (fun _ => 1%nat) OpenAI.UpstreamThrows 5)
           (CreateQuiz.mkBody "Sea" (Some 5) (Some 10) "h2")] joined in
  Http.status (snd (post_quiz_join 6 (JoinQuiz.mk "AAAAAA" "Alice" "p1") two_rooms))
  = 400 /\
  let moved := fst (post_quiz_join 6 (JoinQuiz.mk "BBBBBB" "Alice" "p1") two_rooms) in
  map Player.playerId (getPlayersByRoomId 1 moved) = ["h1"] /\
  map Player.playerId (getPlayersByRoomId 2 moved) = ["h2"; "p1"].
Proof. vm_compute. repeat split. Qed.

(** Scenario 3: start, four advances, and a fifth that finishes. *)
Example scenario_advance :
  let next := Socket (Hub.MNextQuestion "AAAAAA" "h1" true) in
  let started := run [Socket (Hub.MStartQuiz "AAAAAA" "h1" true)] one_room in
  let state s :=
    option_map (fun r => (QuizRoom.status r, QuizRoom.currentQuestionIndex r))
      (getQuizRoomByCode "AAAAAA" s) in
  state started = Some (active, 0) /\
  state (run [next] started) = Some (active, 1) /\
  state (run [next; next; next; next] started) = Some (active, 4) /\
  state (run [next; next; next; next; next] started) = Some (finished, 4).
Proof. vm_compute. repeat split. Qed.

(** Scenario 4: a correct answer after 3 of 15 seconds is worth 220, and
    the same submission again is refused. *)
Example scenario_answer :
  snd (post_quiz_answer 2 (SubmitAnswer.mk "p1" 1 2 3) joined)
  = Http.ok (Http.Answered true 220 220 2 "Correct answer!") /\
  post_quiz_answer 3 (SubmitAnswer.mk "p1" 1 2 3) answered
  = (answered, Http.mk 400 (Http.Message "Already answered this question")).
Proof. vm_compute. repeat split. Qed.

(** Scenario 5: a REST cleanup by another identity is answered 403. *)
Example scenario_cleanup_refused :
  post_quiz_cleanup "AAAAAA" (CleanupRoom.mk "p1" true) joined
  = (joined, Http.mk 403 (Http.Message "Only the room host can cleanup")).
Proof. vm_compute. repeat split. Qed.

(** Leaving twice answers 200 both times. *)
Example scenario_leave_twice :
  let leave := post_quiz_player_leave (LeaveRoom.mk "p1" "AAAAAA") in
  Http.status (snd (leave joined)) = 200 /\
  Http.status (snd (leave (fst (leave joined)))) = 200.
Proof. vm_compute. repeat split. Qed.

End Scenarios.


(** * Further properties of the code *)

(** ** The maps as lists *)

Section MapLists.
Context {K V : Type} `{KeyEq K}.
Implicit Types (k : K) (v : V) (m : JSMap.t K V).

Lemma filter_filter {A} (f g : A -> bool) (l : list A) :
  filter f (filter g l) = filter (fun x => g x && f x) l.
Proof.
  induction l as [|x l IH]; simpl; [reflexivity|].
  destruct (g x); simpl; [destruct (f x)|]; now rewrite IH.
Qed.

(** [for (const k of ks) m.delete(k)] keeps, in order, the entries whose
    key is none of [ks]. *)
Lemma delete_all_filter ks m :
  JSMap.delete_all ks m
  = filter (fun e => negb (existsb (keqb (fst e)) ks)) m.
Proof.
  unfold JSMap.delete_all. revert m.
  induction ks as [|k ks IH]; intros m; simpl.
  - symmetry. induction m as [|e m IHm]; simpl; [reflexivity|]. now f_equal.
  - rewrite IH. unfold JSMap.delete. rewrite filter_filter.
    apply filter_ext. intros e. now rewrite negb_orb.
Qed.

(** Deleting the entries whose value satisfies [f], by the key their
    value names, is filtering them out. *)
Lemma delete_matching_filter (key_of : V -> K) (f : V -> bool) m :
  keyed key_of m ->
  JSMap.delete_all (map key_of (filter f (JSMap.values m))) m
  = filter (fun e => negb (f (snd e))) m.
Proof.
  intros KM. rewrite delete_all_filter. apply filter_ext_in.
  intros [k v] I. simpl. f_equal.
  destruct (f v) eqn:F.
  - apply existsb_exists. exists k. split; [|apply keqb_refl].
    apply in_map_iff. exists v. split; [now apply (proj2 KM)|].
    apply filter_In. split; [|assumption]. eapply JSMapFacts.in_values; eauto.
  - destruct (existsb _ _) eqn:E; [|reflexivity].
    apply existsb_exists in E. destruct E as (k' & I' & E').
    apply keqb_eq in E'. subst k'.
    apply in_map_iff in I'. destruct I' as (v' & EK & I').
    apply filter_In in I'. destruct I' as [I' F'].
    apply JSMapFacts.values_in in I'. destruct I' as [k' I'].
    assert (k' = k) by (rewrite <- (proj2 KM _ _ I'); exact EK). subst k'.
    assert (v' = v) by (apply (keyed_inj key_of k k v' v m KM); auto).
    congruence.
Qed.

Lemma set_absent k v m :
  JSMap.get k m = None -> JSMap.set k v m = m ++ [(k, v)].
Proof. intros G. unfold JSMap.set, JSMap.has. now rewrite G. Qed.

Lemma values_app m m' :
  JSMap.values (m ++ m') = JSMap.values m ++ JSMap.values m'.
Proof. apply map_app. Qed.

Lemma values_filter (f : V -> bool) m :
  JSMap.values (filter (fun e => f (snd e)) m) = filter f (JSMap.values m).
Proof.
  unfold JSMap.values. induction m as [|[k v] m IH]; simpl; [reflexivity|].
  destruct (f v); simpl; now rewrite IH.
Qed.

Lemma delete_last k v m :
  JSMap.get k m = None -> JSMap.delete k (m ++ [(k, v)]) = m.
Proof.
  intros G. unfold JSMap.delete. rewrite filter_app. simpl.
  rewrite keqb_refl. simpl. rewrite app_nil_r.
  apply (JSMapFacts.delete_absent k m G).
Qed.

End MapLists.


(** ** What one request does to the store *)

Section Effects.
Import MemStorage Routes Invariant Effects.

Lemma store_eta s :
  MemStorage.mk (quizRooms s) (questions s) (players s) (answers s)
    (currentRoomId s) (currentQuestionId s) (currentPlayerId s)
    (currentAnswerId s) = s.
Proof. now destruct s. Qed.

Lemma keyed_filter {K V} `{KeyEq K} (key_of : V -> K) (f : K * V -> bool) m :
  keyed key_of m -> keyed key_of (filter f m).
Proof.
  intros [ND KO]. split.
  - unfold JSMap.keys. induction m as [|[k v] m IH]; simpl; [constructor|].
    inversion ND as [|? ? NI ND']; subst.
    assert (forall k0 v0, In (k0, v0) m -> key_of v0 = k0) as KO'
      by (intros; apply KO; now right).
    destruct (f (k, v)); simpl; [|now apply IH].
    constructor; [|now apply IH].
    intros I. apply NI. apply in_map_iff in I. destruct I as ([k' v'] & E & I).
    simpl in E. subst k'. apply filter_In in I.
    apply in_map_iff. exists (k, v'). split; [reflexivity|apply I].
  - intros k v I. apply filter_In in I. apply KO, I.
Qed.

Lemma fold_deleteAnswersOf_filter qs : forall ans,
  keyed Answer.id ans ->
  fold_left deleteAnswersOf qs ans = without_questions qs ans.
Proof.
  unfold without_questions.
  induction qs as [|q qs IH]; intros ans KA; simpl.
  - symmetry. induction ans as [|e ans IHa]; simpl; [reflexivity|].
    f_equal. apply IHa. destruct KA as [ND KO]. split.
    + now inversion ND.
    + intros k v I. apply KO. now right.
  - unfold deleteAnswersOf at 2.
    rewrite (delete_matching_filter Answer.id
               (fun a => Answer.questionId a =? Question.id q) ans KA).
    rewrite IH by (now apply keyed_filter).
    rewrite filter_filter. apply filter_ext. intros e. now rewrite negb_orb.
Qed.

Lemma mapi_from_length {A B} (f : A -> Z -> B) i l :
  List.length (mapi_from f i l) = List.length l.
Proof. revert i. induction l as [|x l IH]; intros i; simpl; auto. Qed.

Lemma fold_createQuestion l : forall s acc i,
  (forall k, In k (JSMap.keys (questions s)) -> k < currentQuestionId s) ->
  fold_left createQuestion l (s, acc)
  = (MemStorage.mk (quizRooms s)
       (questions s ++
        by_id (mapi_from
                 (fun ins j =>
                    Question.mk (currentQuestionId s - i + j)
                      (Question.i_roomId ins) (Question.i_questionText ins)
                      (Question.i_options ins) (Question.i_correctAnswer ins)
                      (Question.i_order ins)) i l))
       (players s) (answers s) (currentRoomId s)
       (currentQuestionId s + Z.of_nat (List.length l))
       (currentPlayerId s) (currentAnswerId s),
     acc ++
     mapi_from
       (fun ins j =>
          Question.mk (currentQuestionId s - i + j)
            (Question.i_roomId ins) (Question.i_questionText ins)
            (Question.i_options ins) (Question.i_correctAnswer ins)
            (Question.i_order ins)) i l).
Proof.
  induction l as [|x l IH]; intros s acc i F.
  - simpl. rewrite !app_nil_r, Z.add_0_r. now rewrite store_eta.
  - cbn [fold_left]. unfold createQuestion at 2. cbn [Question.id].
    rewrite set_absent.
    2:{ apply JSMapFacts.get_none. intros I. apply F in I. lia. }
    rewrite (IH _ _ (i + 1)).
    2:{ cbn [questions currentQuestionId]. intros k I.
        unfold JSMap.keys in I. rewrite map_app in I. apply in_app_iff in I.
        destruct I as [I|[<-|[]]]; [apply F in I; lia|simpl; lia]. }
    cbn [quizRooms questions players answers currentRoomId currentQuestionId
         currentPlayerId currentAnswerId mapi_from by_id map].
    replace (currentQuestionId s + 1 - (i + 1)) with (currentQuestionId s - i)
      by lia.
    replace (currentQuestionId s - i + i) with (currentQuestionId s) by lia.
    rewrite <- !app_assoc. cbn [app Question.id].
    f_equal. f_equal. cbn [List.length]. lia.
Qed.

Lemma createQuestions_list l s :
  (forall k, In k (JSMap.keys (questions s)) -> k < currentQuestionId s) ->
  createQuestions l s
  = (MemStorage.mk (quizRooms s)
       (questions s ++ by_id (assign_ids (currentQuestionId s) l))
       (players s) (answers s) (currentRoomId s)
       (currentQuestionId s + Z.of_nat (List.length l))
       (currentPlayerId s) (currentAnswerId s),
     assign_ids (currentQuestionId s) l).
Proof.
  intros F. unfold createQuestions. rewrite (fold_createQuestion l s [] 0 F).
  unfold assign_ids, mapi. cbn [app].
  replace (currentQuestionId s - 0) with (currentQuestionId s) by lia.
  reflexivity.
Qed.

Lemma mapi_from_map {A B C} (f : A -> Z -> B) (g : B -> Z -> C) i l :
  mapi_from g i (mapi_from f i l) = mapi_from (fun x j => g (f x j) j) i l.
Proof.
  revert i. induction l as [|x l IH]; intros i; simpl; [reflexivity|].
  now rewrite IH.
Qed.

Lemma created_questions_assign rid cq gs :
  assign_ids cq
    (mapi (fun q index =>
             Question.mkInsert rid (OpenAI.question q) (OpenAI.options q)
               (OpenAI.correctAnswer q) index) gs)
  = created_questions rid cq gs.
Proof. unfold assign_ids, created_questions, mapi. now rewrite mapi_from_map. Qed.

Lemma keys_below {V} (key_bound : Z) (m : JSMap.t Z V) :
  (forall k v, In (k, v) m -> k < key_bound) ->
  forall k, In k (JSMap.keys m) -> k < key_bound.
Proof.
  intros F k I. apply in_map_iff in I. destruct I as ([k' v] & E & I).
  simpl in E. subst. eauto.
Qed.

Lemma cleanupRoom_effect code s : Inv s -> Effect s (fst (cleanupRoom code s)).
Proof.
  intros I. unfold cleanupRoom.
  destruct (JSMap.get code (quizRooms s)) as [room|] eqn:G; [|constructor].
  cbn [fst].
  rewrite (delete_matching_filter Player.playerId
             (fun p => Player.roomId p =? QuizRoom.id room) (players s)
             (players_keyed s I)).
  rewrite (delete_matching_filter Question.id
             (fun q => Question.roomId q =? QuizRoom.id room) (questions s)
             (questions_keyed s I)).
  rewrite (fold_deleteAnswersOf_filter _ _ (answers_keyed s I)).
  now apply E_cleanup.
Qed.

Lemma cleanupPlayer_effect pid s : Inv s -> Effect s (fst (cleanupPlayer pid s)).
Proof.
  intros I. unfold cleanupPlayer.
  destruct (JSMap.get pid (players s)) as [player|] eqn:G; [|constructor].
  cbn [fst].
  rewrite (delete_matching_filter Answer.id
             (fun a => String.eqb (Answer.playerId a) pid) (answers s)
             (answers_keyed s I)).
  now apply (E_leave s pid player).
Qed.

Lemma updateQuizRoom_status_effect code st s :
  st = active \/ st = finished ->
  Effect s (fst (updateQuizRoom code (QuizRoom.only_status st) s)).
Proof.
  intros ST. unfold updateQuizRoom.
  destruct (JSMap.get code (quizRooms s)) as [room|] eqn:G; [|constructor].
  now apply E_status.
Qed.

Lemma ws_message_effect data s : Inv s -> Effect s (fst (ws_message data s)).
Proof.
  intros I.
  destruct data as [c p h|c p|c p h|c p h|c p h|c p h|]; unfold ws_message;
    try constructor.
  - pose proof (cleanupPlayer_effect p s I) as X.
    now destruct (cleanupPlayer p s).
  - destruct h; [|constructor].
    pose proof (cleanupRoom_effect c s I) as X.
    now destruct (cleanupRoom c s).
  - destruct h; [|constructor].
    destruct (getQuizRoomByCode c s); [|constructor].
    pose proof (updateQuizRoom_status_effect c active s (or_introl eq_refl)) as X.
    now destruct (updateQuizRoom c _ s).
  - destruct h; [|constructor].
    destruct (getQuizRoomByCode c s) as [room|] eqn:G; [|constructor].
    destruct (_ <? _) eqn:L.
    + apply Z.ltb_lt in L.
      pose proof (E_index s c room G L) as X.
      unfold updateQuizRoom. unfold getQuizRoomByCode in G. rewrite G.
      exact X.
    + pose proof (updateQuizRoom_status_effect c finished s (or_intror eq_refl)) as X.
      now destruct (updateQuizRoom c _ s).
  - destruct h; [|constructor].
    destruct (getQuizRoomByCode c s); [|constructor].
    pose proof (updateQuizRoom_status_effect c finished s (or_intror eq_refl)) as X.
    now destruct (updateQuizRoom c _ s).
Qed.

Lemma post_quiz_create_effect env body s :
  Inv s -> Effect s (fst (post_quiz_create env body s)).
Proof.
  intros I. unfold post_quiz_create.
  destruct (CreateQuiz.parse body) as [data|] eqn:P; [|constructor].
  pose proof (CreateQuiz_parse_some _ _ P) as (Q & T & _ & _ & HN & _).
  destruct (allocate 9 (random env) 0 0 s) as [code n] eqn:A.
  destruct (n >=? 10) eqn:N; [constructor|].
  assert (getQuizRoomByCode code s = None) as F
    by (apply (allocate_fresh 9 (random env) 0%nat 0 s code n); [lia|exact A|lia]).
  unfold createQuizRoom.
  cbn [QuizRoom.i_roomCode QuizRoom.i_hostId QuizRoom.i_topic
       QuizRoom.i_questionCount QuizRoom.i_timePerQuestion
       QuizRoom.i_status QuizRoom.i_currentQuestionIndex].
  rewrite !num_or_some by lia. rewrite num_or_zero.
  fold (created_room env data code s).
  rewrite createQuestions_list.
  2:{ cbn [questions currentQuestionId].
      apply keys_below. apply (questions_ids s I). }
  cbn [QuizRoom.id created_room questions currentQuestionId].
  rewrite created_questions_assign.
  unfold createPlayer.
  cbn [Player.i_roomId Player.i_name Player.i_playerId Player.i_score
       Player.i_isHost quizRooms questions players answers currentRoomId
       currentQuestionId currentPlayerId currentAnswerId fst].
  rewrite num_or_zero. cbn [bool_or].
  rewrite set_absent by exact F.
  unfold mapi. rewrite mapi_from_length.
  exact (E_create s env data code F Q T HN).
Qed.

Lemma post_quiz_join_effect_full now body s :
  Inv s -> Effect s (fst (post_quiz_join now body s)).
Proof.
  intros I. unfold post_quiz_join.
  destruct (JoinQuiz.parse body) as [data|] eqn:P; [|constructor].
  pose proof (JoinQuiz_parse_nonempty _ _ P) as PN.
  apply JoinQuiz_parse_some in P. subst data.
  destruct (getQuizRoomByCode (JoinQuiz.roomCode body) s) as [room|] eqn:G;
    [|constructor].
  destruct (QuizRoom.status room) eqn:W; cbn [Status_eqb negb];
    try constructor.
  pose proof (E_join s now body room G W PN) as X.
  destruct (getPlayerById (JoinQuiz.playerId body) s) as [p|] eqn:GP.
  - destruct (Player.roomId p =? QuizRoom.id room) eqn:E; [constructor|].
    apply Z.eqb_neq in E.
    unfold cleanupPlayer. unfold getPlayerById in GP. rewrite GP.
    cbn [fst]. unfold createPlayer.
    cbn [Player.i_roomId Player.i_name Player.i_playerId Player.i_score
         Player.i_isHost quizRooms questions players answers currentRoomId
         currentQuestionId currentPlayerId currentAnswerId fst].
    rewrite num_or_zero. cbn [bool_or].
    rewrite (delete_matching_filter Answer.id
               (fun a => String.eqb (Answer.playerId a) (JoinQuiz.playerId body))
               (answers s) (answers_keyed s I)).
    rewrite set_absent by apply JSMapFacts.get_delete_same.
    apply X. intros p0 [= <-]. exact E.
  - unfold createPlayer.
    cbn [Player.i_roomId Player.i_name Player.i_playerId Player.i_score
         Player.i_isHost fst].
    rewrite num_or_zero. cbn [bool_or].
    unfold getPlayerById in GP. rewrite set_absent by exact GP.
    rewrite (JSMapFacts.delete_absent _ _ GP) in X.
    apply X. discriminate.
Qed.

Lemma post_quiz_answer_effect now body s :
  Inv s -> Effect s (fst (post_quiz_answer now body s)).
Proof.
  intros I.
  destruct (post_quiz_answer_cases now body s)
    as [[-> _]|(player & question & _ & GP & HA & GQ & ER & ->)];
    [constructor|].
  cbn [fst]. unfold answer_store, updatePlayerScore, createAnswer.
  cbn [fst players Answer.i_playerId Answer.i_questionId
       Answer.i_selectedAnswer Answer.i_isCorrect Answer.i_timeToAnswer
       Answer.id].
  pose proof GP as GP'. unfold getPlayerById in GP'. rewrite GP'.
  cbn [fst]. unfold set_players.
  cbn [quizRooms questions players answers currentRoomId currentQuestionId
       currentPlayerId currentAnswerId].
  rewrite (set_absent (currentAnswerId s)).
  2:{ apply JSMapFacts.get_none.
      intros IN. apply (keys_below _ _ (answers_ids s I)) in IN. lia. }
  exact (E_answer s now body player question GP HA GQ ER).
Qed.

Lemma post_quiz_clear_answers_effect pid s :
  Inv s -> Effect s (fst (post_quiz_clear_answers pid s)).
Proof.
  intros I. unfold post_quiz_clear_answers.
  destruct (negb (nonempty pid)); [constructor|].
  unfold clearAnswersForPlayer, set_answers. cbn [fst].
  rewrite (delete_matching_filter Answer.id
             (fun a => String.eqb (Answer.playerId a) pid)
             (answers s) (answers_keyed s I)).
  apply E_clear.
Qed.

Lemma post_quiz_cleanup_effect code body s :
  Inv s -> Effect s (fst (post_quiz_cleanup code body s)).
Proof.
  intros I. unfold post_quiz_cleanup.
  destruct (CleanupRoom.parse body); [|constructor].
  destruct (getQuizRoomByCode code s); [|constructor].
  destruct (negb _); [constructor|].
  pose proof (cleanupRoom_effect code s I) as X.
  destruct (cleanupRoom code s) as [s1 b]. now destruct (negb b).
Qed.

Lemma post_quiz_player_leave_effect body s :
  Inv s -> Effect s (fst (post_quiz_player_leave body s)).
Proof.
  intros I. unfold post_quiz_player_leave.
  destruct (LeaveRoom.parse body) as [data|]; [|constructor].
  destruct (getPlayerById _ s); [|constructor].
  pose proof (cleanupPlayer_effect (LeaveRoom.playerId data) s I) as X.
  destruct (cleanupPlayer _ s) as [s1 b]. now destruct (negb b).
Qed.

(** Every request acts on the store in one of the ways of [Effect]. *)
Lemma handle_effect req s : Inv s -> Effect s (fst (handle req s)).
Proof.
  intros I.
  destruct req as [env body|nw body|pid|nw body|c|c|c|c body|body|data];
    unfold handle; try constructor.
  - pose proof (post_quiz_create_effect env body s I).
    now destruct (post_quiz_create env body s).
  - pose proof (post_quiz_join_effect_full nw body s I).
    now destruct (post_quiz_join nw body s).
  - pose proof (post_quiz_clear_answers_effect pid s I).
    now destruct (post_quiz_clear_answers pid s).
  - pose proof (post_quiz_answer_effect nw body s I).
    now destruct (post_quiz_answer nw body s).
  - pose proof (post_quiz_cleanup_effect c body s I).
    now destruct (post_quiz_cleanup c body s).
  - pose proof (post_quiz_player_leave_effect body s I).
    now destruct (post_quiz_player_leave body s).
  - pose proof (ws_message_effect data s I).
    now destruct (ws_message data s).
Qed.

(** A property kept by every effect holds of every reachable store. *)
Lemma reachable_ind (P : MemStorage.t -> Prop) :
  P MemStorage.init ->
  (forall s s', Inv s -> P s -> Effect s s' -> P s') ->
  forall s, reachable s -> P s.
Proof.
  intros P0 PS s [reqs <-].
  assert (forall s0, Inv s0 -> P s0 -> P (run reqs s0)) as X.
  { induction reqs as [|req reqs IH]; intros s0 I0 H0; [assumption|].
    change (run (req :: reqs) s0) with (run reqs (fst (handle req s0))).
    apply IH; [now apply Inv_handle|].
    apply (PS s0); auto. now apply handle_effect. }
  apply X; [apply Inv_init|assumption].
Qed.

End Effects.


(** ** References, positions and the current index *)

Section Shapes.
Import MemStorage Routes Invariant Effects.

Lemma values_by_id qs : JSMap.values (by_id qs) = qs.
Proof.
  unfold JSMap.values, by_id. rewrite map_map. simpl. apply map_id.
Qed.

Lemma in_by_id k q qs : In (k, q) (by_id qs) <-> k = Question.id q /\ In q qs.
Proof.
  unfold by_id. rewrite in_map_iff. split.
  - intros (q' & [= <- <-] & I). auto.
  - intros [-> I]. now exists q.
Qed.

Lemma created_questions_spec rid cq gs :
  forall q, In q (created_questions rid cq gs) -> Question.roomId q = rid.
Proof.
  unfold created_questions, mapi. generalize 0.
  induction gs as [|g gs IH]; intros i q; simpl; [tauto|].
  intros [<-|I]; [reflexivity|eauto].
Qed.

Lemma created_questions_length rid cq gs :
  List.length (created_questions rid cq gs) = List.length gs.
Proof. apply mapi_from_length. Qed.

Lemma zseq_shift i n :
  map (fun k => i + Z.of_nat k) (seq 1 n)
  = map (fun k => i + 1 + Z.of_nat k) (seq 0 n).
Proof.
  rewrite <- seq_shift, map_map. apply map_ext. intros k. lia.
Qed.

Lemma created_questions_order rid cq gs :
  map Question.order (created_questions rid cq gs) = zseq (List.length gs).
Proof.
  unfold created_questions, mapi, zseq.
  assert (forall i,
            map Question.order
              (mapi_from (fun g j => Question.mk (cq + j) rid (OpenAI.question g)
                                       (OpenAI.options g) (OpenAI.correctAnswer g) j)
                 i gs)
            = map (fun k => i + Z.of_nat k) (seq 0 (List.length gs))) as X.
  { induction gs as [|g gs IH]; intros i; simpl; [reflexivity|].
    rewrite IH. f_equal; [lia|]. symmetry. apply zseq_shift. }
  rewrite X. apply map_ext. intros k. lia.
Qed.

Lemma filter_all {A} (f : A -> bool) l :
  (forall x, In x l -> f x = true) -> filter f l = l.
Proof.
  induction l as [|x l IH]; intros T; simpl; [reflexivity|].
  rewrite (T x (or_introl eq_refl)). f_equal. apply IH.
  intros y I. apply T. now right.
Qed.

Lemma questionsOf_in q rid s :
  In q (questionsOf rid s) <->
  (exists k, In (k, q) (questions s)) /\ Question.roomId q = rid.
Proof.
  unfold questionsOf. rewrite filter_In, Z.eqb_eq. split.
  - intros [I E]. split; [|assumption]. now apply JSMapFacts.values_in.
  - intros [[k I] E]. split; [|assumption]. eapply JSMapFacts.in_values; eauto.
Qed.

(** No question is of a room that is yet to be created. *)
Lemma questionsOf_future s rid :
  Inv s -> Shape s -> currentRoomId s <= rid -> questionsOf rid s = [].
Proof.
  intros I S L. apply filter_none. intros q IN.
  apply JSMapFacts.values_in in IN. destruct IN as [k IN].
  destruct (questions_room s S _ _ IN) as (c & r & IR & E).
  pose proof (rooms_ids s I _ _ IR). apply Z.eqb_neq. lia.
Qed.

Lemma Shape_init : Shape MemStorage.init.
Proof.
  constructor; simpl; try (intros; contradiction).
  - intros rid. reflexivity.
Qed.

Lemma Shape_rooms_only s rooms' :
  Shape s ->
  (forall c r, In (c, r) (quizRooms s) ->
     exists r', In (c, r') rooms' /\ QuizRoom.id r' = QuizRoom.id r) ->
  (forall c r', In (c, r') rooms' ->
     0 <= QuizRoom.currentQuestionIndex r' /\
     (QuizRoom.currentQuestionIndex r' = 0 \/
      QuizRoom.currentQuestionIndex r'
      < Z.of_nat (List.length (questionsOf (QuizRoom.id r') s)))) ->
  Shape (MemStorage.mk rooms' (questions s) (players s) (answers s)
           (currentRoomId s) (currentQuestionId s) (currentPlayerId s)
           (currentAnswerId s)).
Proof.
  intros S R X. constructor; cbn [quizRooms questions answers].
  - intros k q IN. destruct (questions_room s S _ _ IN) as (c & r & IR & E).
    destruct (R _ _ IR) as (r' & IR' & E'). exists c, r'. split; congruence.
  - apply (answers_question s S).
  - apply (questions_dense s S).
  - exact X.
Qed.

Lemma Shape_answers_only s players' answers' cp ca :
  Shape s ->
  (forall k a, In (k, a) answers' ->
     exists q, In (Answer.questionId a, q) (questions s)) ->
  Shape (MemStorage.mk (quizRooms s) (questions s) players' answers'
           (currentRoomId s) (currentQuestionId s) cp ca).
Proof.
  intros S A. constructor; cbn [quizRooms questions answers].
  - apply (questions_room s S).
  - exact A.
  - apply (questions_dense s S).
  - apply (rooms_index s S).
Qed.

Lemma in_spread_rooms code room u rooms c r :
  JSMap.get code rooms = Some room ->
  In (c, r) (JSMap.set code (QuizRoom.spread room u) rooms) ->
  (c = code /\ r = QuizRoom.spread room u) \/ (c <> code /\ In (c, r) rooms).
Proof. intros G I. now apply JSMapFacts.in_set in I. Qed.

Lemma Shape_effect s s' : Inv s -> Shape s -> Effect s s' -> Shape s'.
Proof.
  intros I S E.
  destruct E as [|env data code F Q T HN|now body room G W PN NP
                 |now body player question GP HA GQ ER|pid|pid player GP
                 |code room G|code room st G ST|code room G L].
  - assumption.
  - (* create *)
    set (gs := OpenAI.generateQuizQuestions (upstream env)
                 (CreateQuiz.topic data) (CreateQuiz.questionCount data)).
    assert (forall rid,
              questionsOf rid
                (MemStorage.mk
                   (quizRooms s ++ [(code, created_room env data code s)])
                   (questions s ++
                    by_id (created_questions (currentRoomId s)
                             (currentQuestionId s) gs))
                   (JSMap.set (CreateQuiz.hostId data)
                      (created_host env data s) (players s))
                   (answers s) (currentRoomId s + 1)
                   (currentQuestionId s + Z.of_nat (List.length gs))
                   (currentPlayerId s + 1) (currentAnswerId s))
              = if rid =? currentRoomId s
                then created_questions (currentRoomId s) (currentQuestionId s) gs
                else questionsOf rid s) as QO.
    { intros rid. unfold questionsOf at 1. cbn [questions].
      rewrite values_app, filter_app, values_by_id.
      fold (questionsOf rid s).
      destruct (rid =? currentRoomId s) eqn:ER.
      - apply Z.eqb_eq in ER. subst rid.
        rewrite (questionsOf_future s _ I S) by lia. cbn [app].
        apply filter_all. intros q IN. apply Z.eqb_eq.
        now apply (created_questions_spec _ _ _ _ IN).
      - apply Z.eqb_neq in ER. rewrite filter_none; [apply app_nil_r|].
        intros q IN. apply Z.eqb_neq.
        rewrite (created_questions_spec _ _ _ _ IN). congruence. }
    constructor.
    + cbn [quizRooms questions]. intros k q IN. apply in_app_iff in IN.
      destruct IN as [IN|IN].
      * destruct (questions_room s S _ _ IN) as (c & r & IR & E).
        exists c, r. split; [|assumption]. apply in_app_iff. now left.
      * apply in_by_id in IN. destruct IN as [_ IN].
        exists code, (created_room env data code s). split.
        -- apply in_app_iff. right. now left.
        -- now rewrite (created_questions_spec _ _ _ _ IN).
    + cbn [answers questions]. intros k a IN.
      destruct (answers_question s S _ _ IN) as (q & IQ).
      exists q. apply in_app_iff. now left.
    + intros rid. rewrite QO. destruct (rid =? currentRoomId s).
      * now rewrite created_questions_order, created_questions_length.
      * apply (questions_dense s S).
    + intros c r IN. rewrite QO. cbn [quizRooms] in IN.
      apply in_app_iff in IN. destruct IN as [IN|[[= <- <-]|[]]].
      * pose proof (rooms_ids s I _ _ IN) as LT.
        assert ((QuizRoom.id r =? currentRoomId s) = false) as ->
          by (apply Z.eqb_neq; lia).
        apply (rooms_index s S _ _ IN).
      * simpl. lia.
  - (* join *)
    apply Shape_answers_only; [assumption|]. intros k a IN.
    destruct (getPlayerById (JoinQuiz.playerId body) s);
      [apply filter_In in IN; destruct IN as [IN _]|];
      apply (answers_question s S _ _ IN).
  - (* answer *)
    apply Shape_answers_only; [assumption|]. intros k a IN.
    apply in_app_iff in IN. destruct IN as [IN|[[= <- <-]|[]]].
    + apply (answers_question s S _ _ IN).
    + exists question. cbn [Answer.questionId].
      apply JSMapFacts.get_in in GQ.
      now rewrite (proj2 (questions_keyed s I) _ _ GQ).
  - (* clear *)
    apply Shape_answers_only; [assumption|]. intros k a IN.
    apply filter_In in IN. apply (answers_question s S _ _ (proj1 IN)).
  - (* leave *)
    apply Shape_answers_only; [assumption|]. intros k a IN.
    apply filter_In in IN. apply (answers_question s S _ _ (proj1 IN)).
  - (* cleanup *)
    pose proof (JSMapFacts.get_in _ _ _ G) as INR.
    assert (forall rid,
              questionsOf rid
                (MemStorage.mk (JSMap.delete code (quizRooms s))
                   (filter (fun e => negb (Question.roomId (snd e)
                                           =? QuizRoom.id room)) (questions s))
                   (filter (fun e => negb (Player.roomId (snd e)
                                           =? QuizRoom.id room)) (players s))
                   (without_questions
                      (filter (fun q => Question.roomId q =? QuizRoom.id room)
                              (JSMap.values (questions s))) (answers s))
                   (currentRoomId s) (currentQuestionId s) (currentPlayerId s)
                   (currentAnswerId s))
              = if rid =? QuizRoom.id room then [] else questionsOf rid s) as QO.
    { intros rid. unfold questionsOf. cbn [questions].
      rewrite (values_filter (fun q => negb (Question.roomId q =? QuizRoom.id room))).
      rewrite filter_filter.
      destruct (rid =? QuizRoom.id room) eqn:ER.
      - apply Z.eqb_eq in ER. subst rid. apply filter_none.
        intros q _. now destruct (Question.roomId q =? QuizRoom.id room).
      - apply Z.eqb_neq in ER. apply filter_ext. intros q.
        destruct (Question.roomId q =? rid) eqn:E1; [|apply andb_false_r].
        apply Z.eqb_eq in E1. rewrite andb_true_r.
        apply negb_true_iff, Z.eqb_neq. congruence. }
    assert (forall c r, In (c, r) (JSMap.delete code (quizRooms s)) ->
              In (c, r) (quizRooms s) /\ QuizRoom.id r <> QuizRoom.id room) as DR.
    { intros c r IN. apply JSMapFacts.in_delete in IN. destruct IN as [N IN].
      split; [assumption|]. intros E. apply N.
      apply (rooms_unique s I c r code room IN INR E). }
    constructor.
    + cbn [quizRooms questions]. intros k q IN. apply filter_In in IN.
      destruct IN as [IN N]. simpl in N. apply negb_true_iff, Z.eqb_neq in N.
      destruct (questions_room s S _ _ IN) as (c & r & IR & E).
      exists c, r. split; [|assumption]. apply JSMapFacts.in_delete.
      split; [|assumption]. intros ->.
      assert (r = room)
        by (apply (keyed_inj _ code code r room _ (rooms_keyed s I)); auto).
      congruence.
    + cbn [answers questions]. intros k a IN. unfold without_questions in IN.
      apply filter_In in IN. destruct IN as [IN N]. simpl in N.
      destruct (answers_question s S _ _ IN) as (q & IQ).
      exists q. apply filter_In. split; [assumption|]. simpl.
      apply negb_true_iff. destruct (Question.roomId q =? QuizRoom.id room) eqn:E;
        [|reflexivity].
      exfalso. apply negb_true_iff in N.
      assert (existsb (fun q0 => Answer.questionId a =? Question.id q0)
                (filter (fun q0 => Question.roomId q0 =? QuizRoom.id room)
                        (JSMap.values (questions s))) = true); [|congruence].
      apply existsb_exists. exists q. split.
      * apply filter_In. split; [|assumption].
        eapply JSMapFacts.in_values; eauto.
      * apply Z.eqb_eq. symmetry. apply (proj2 (questions_keyed s I) _ _ IQ).
    + intros rid. rewrite QO. destruct (rid =? QuizRoom.id room);
        [reflexivity|apply (questions_dense s S)].
    + intros c r IN. rewrite QO. cbn [quizRooms] in IN.
      destruct (DR _ _ IN) as [IN' N].
      assert ((QuizRoom.id r =? QuizRoom.id room) = false) as ->
        by (now apply Z.eqb_neq).
      apply (rooms_index s S _ _ IN').
  - (* status *)
    pose proof (JSMapFacts.get_in _ _ _ G) as INR.
    apply Shape_rooms_only; [assumption| |].
    + intros c r IN. destruct (String.eqb c code) eqn:EC.
      * apply String.eqb_eq in EC. subst c.
        assert (r = room)
          by (apply (keyed_inj _ code code r room _ (rooms_keyed s I)); auto).
        subst r. exists (QuizRoom.spread room (QuizRoom.only_status st)).
        split; [|reflexivity]. apply JSMapFacts.in_set. now left.
      * apply String.eqb_neq in EC. exists r. split; [|reflexivity].
        apply JSMapFacts.in_set. now right.
    + intros c r' IN. apply JSMapFacts.in_set in IN.
      destruct IN as [[-> ->]|[_ IN]].
      * apply (rooms_index s S _ _ INR).
      * apply (rooms_index s S _ _ IN).
  - (* index *)
    pose proof (JSMapFacts.get_in _ _ _ G) as INR.
    apply Shape_rooms_only; [assumption| |].
    + intros c r IN. destruct (String.eqb c code) eqn:EC.
      * apply String.eqb_eq in EC. subst c.
        assert (r = room)
          by (apply (keyed_inj _ code code r room _ (rooms_keyed s I)); auto).
        subst r. eexists. split; [apply JSMapFacts.in_set; now left|reflexivity].
      * apply String.eqb_neq in EC. exists r. split; [|reflexivity].
        apply JSMapFacts.in_set. now right.
    + intros c r' IN. apply JSMapFacts.in_set in IN.
      destruct IN as [[-> ->]|[_ IN]].
      * cbn [QuizRoom.spread QuizRoom.only_index QuizRoom.pick
             QuizRoom.p_currentQuestionIndex QuizRoom.p_id
             QuizRoom.currentQuestionIndex QuizRoom.id].
        pose proof (rooms_index s S _ _ INR) as [P _].
        unfold getQuestionsByRoomId in L. rewrite js_sort_length in L.
        fold (questionsOf (QuizRoom.id room) s) in L. lia.
      * apply (rooms_index s S _ _ IN).
Qed.

Lemma reachable_Shape s : reachable s -> Shape s.
Proof.
  apply (reachable_ind Shape); [apply Shape_init|].
  intros s0 s' I S E. now apply (Shape_effect s0 s').
Qed.

End Shapes.


(** ** [Array.prototype.sort] *)

Section Sorting.

Variable A : Type.
Variable cmp : A -> A -> Z.

(** The comparators of the source are differences of a numeric field:
    when [a] sorts after [b], [b] sorts before [a]. *)
Hypothesis cmp_total : forall a b, 0 < cmp a b -> cmp b a <= 0.

Lemma sort_insert_Sorted x l :
  Sorted (before cmp) l -> Sorted (before cmp) (sort_insert cmp x l).
Proof.
  induction l as [|y l IH]; intros S; simpl.
  - repeat constructor.
  - destruct (cmp x y <=? 0) eqn:E.
    + constructor; [assumption|]. constructor. unfold before. lia.
    + inversion S as [|? ? S' HR]; subst. constructor; [now apply IH|].
      destruct l as [|z l]; simpl.
      * constructor. apply cmp_total. lia.
      * destruct (cmp x z <=? 0).
        -- constructor. apply cmp_total. lia.
        -- inversion HR; subst. now constructor.
Qed.

Lemma js_sort_Sorted l : Sorted (before cmp) (js_sort cmp l).
Proof.
  induction l as [|x l IH]; simpl; [constructor|].
  now apply sort_insert_Sorted.
Qed.

Lemma sort_insert_Permutation x l : Permutation (sort_insert cmp x l) (x :: l).
Proof.
  induction l as [|y l IH]; simpl; [reflexivity|].
  destruct (cmp x y <=? 0); [reflexivity|].
  rewrite IH. apply perm_swap.
Qed.

Lemma js_sort_Permutation l : Permutation (js_sort cmp l) l.
Proof.
  induction l as [|x l IH]; simpl; [reflexivity|].
  rewrite sort_insert_Permutation. now constructor.
Qed.

(** Sorting a sorted list changes nothing. *)
Lemma js_sort_sorted l : Sorted (before cmp) l -> js_sort cmp l = l.
Proof.
  induction l as [|x l IH]; intros S; simpl; [reflexivity|].
  inversion S as [|? ? S' HR]; subst. rewrite (IH S').
  destruct l as [|y l]; simpl; [reflexivity|].
  inversion HR; subst. unfold before in *.
  destruct (cmp x y <=? 0) eqn:E; [reflexivity|lia].
Qed.

(** The sort is stable: elements that none of which sorts after another
    keep their order. *)
Lemma sort_insert_filter (p : A -> bool) x l :
  (forall a b, p a = true -> p b = true -> cmp a b <= 0) ->
  filter p (sort_insert cmp x l) = filter p (x :: l).
Proof.
  intros P. induction l as [|y l IH]; simpl; [reflexivity|].
  destruct (cmp x y <=? 0) eqn:E; [reflexivity|].
  simpl. rewrite IH. simpl.
  destruct (p x) eqn:Px; [|reflexivity].
  destruct (p y) eqn:Py; [|reflexivity].
  specialize (P x y Px Py). lia.
Qed.

Lemma js_sort_filter (p : A -> bool) l :
  (forall a b, p a = true -> p b = true -> cmp a b <= 0) ->
  filter p (js_sort cmp l) = filter p l.
Proof.
  intros P. induction l as [|x l IH]; simpl; [reflexivity|].
  rewrite (sort_insert_filter p x _ P). simpl. now rewrite IH.
Qed.

End Sorting.


(** ** Rosters and question lists *)

Section Listings.
Import MemStorage Routes Invariant Effects.

Lemma by_score_total a b :
  0 < Player.score b - Player.score a -> Player.score a - Player.score b <= 0.
Proof. lia. Qed.

(** X1: the roster of a room is the players of the room, each once, highest
    score first, players of equal score in the order the players map
    holds them. *)
Theorem roster_sorted_complete rid s :
  reachable s ->
  let roster := getPlayersByRoomId rid s in
  StronglySorted score_desc roster /\
  NoDup roster /\
  (forall p, In p roster <->
             exists pid, getPlayerById pid s = Some p /\ Player.roomId p = rid) /\
  (forall v, filter (fun p => Player.score p =? v) roster
             = filter (fun p => Player.score p =? v)
                 (filter (fun p => Player.roomId p =? rid)
                         (JSMap.values (players s)))).
Proof.
  intros R roster. apply reachable_Inv in R. subst roster.
  unfold getPlayersByRoomId. split; [|split; [|split]].
  - apply Sorted_StronglySorted.
    + intros a b c. unfold score_desc. lia.
    + pose proof (js_sort_Sorted _ (fun a b => Player.score b - Player.score a)
                    (fun a b => by_score_total a b)
                    (filter (fun p => Player.roomId p =? rid)
                            (JSMap.values (players s)))) as S.
      induction S as [|x l S IH HR]; constructor; auto.
      destruct HR as [|y l' HR]; constructor. unfold before, score_desc in *. lia.
  - eapply Permutation_NoDup; [symmetry; apply js_sort_Permutation|].
    apply NoDup_filter. apply (values_NoDup Player.playerId), R.
  - intros p. now apply in_getPlayersByRoomId.
  - intros v. apply js_sort_filter. intros a b Ea Eb.
    apply Z.eqb_eq in Ea, Eb. lia.
Qed.

Lemma roster_sorted_complete_witness :
  reachable answered /\
  StronglySorted score_desc (getPlayersByRoomId 1 answered) /\
  map Player.playerId (getPlayersByRoomId 1 answered) = ["p1"; "h1"].
Proof.
  split; [exact reachable_answered|]. split.
  - exact (proj1 (roster_sorted_complete 1 answered reachable_answered)).
  - vm_compute. reflexivity.
Defined.

Lemma ascending_Sorted (l : list Question.t) : forall i,
  map Question.order l
  = map (fun k => i + Z.of_nat k) (seq 0 (List.length l)) ->
  Sorted (before (fun a b => Question.order a - Question.order b)) l.
Proof.
  induction l as [|x l IH]; intros i E; [constructor|].
  simpl in E. injection E as Ex El. rewrite zseq_shift in El.
  constructor; [now apply (IH (i + 1))|].
  destruct l as [|y l]; constructor.
  simpl in El. injection El as Ey _. unfold before. lia.
Qed.

Lemma find_filter {A} (f g : A -> bool) l :
  find (fun x => g x && f x) l = find f (filter g l).
Proof.
  induction l as [|x l IH]; simpl; [reflexivity|].
  destruct (g x); simpl; [destruct (f x)|]; auto.
Qed.

Lemma find_ascending (l : list Question.t) : forall i k,
  map Question.order l
  = map (fun n => i + Z.of_nat n) (seq 0 (List.length l)) ->
  find (fun q => Question.order q =? k) l
  = if k <? i then None else nth_error l (Z.to_nat (k - i)).
Proof.
  induction l as [|x l IH]; intros i k E.
  - simpl. destruct (k <? i); [reflexivity|]. now destruct (Z.to_nat (k - i)).
  - simpl in E. injection E as Ex El. rewrite zseq_shift in El.
    cbn [find]. rewrite (IH (i + 1) k El). rewrite Ex, Z.add_0_r.
    destruct (i =? k) eqn:EK.
    + apply Z.eqb_eq in EK. subst k.
      assert ((i <? i) = false) as -> by lia.
      now rewrite Z.sub_diag.
    + apply Z.eqb_neq in EK. destruct (k <? i) eqn:L.
      * assert ((k <? i + 1) = true) as -> by lia. reflexivity.
      * assert ((k <? i + 1) = false) as -> by lia.
        replace (Z.to_nat (k - i)) with (S (Z.to_nat (k - (i + 1)))) by lia.
        reflexivity.
Qed.

Lemma zseq_as_map n : zseq n = map (fun k => 0 + Z.of_nat k) (seq 0 n).
Proof. unfold zseq. apply map_ext. intros k. lia. Qed.

Lemma getQuestionsByRoomId_questionsOf rid s :
  Shape s -> getQuestionsByRoomId rid s = questionsOf rid s.
Proof.
  intros S. unfold getQuestionsByRoomId. fold (questionsOf rid s).
  apply js_sort_sorted. apply (ascending_Sorted _ 0).
  rewrite <- zseq_as_map. apply (questions_dense s S).
Qed.

(** X2: the questions of a room are listed at positions 0, 1, ..., n - 1:
    sorting leaves them in the order they were stored, each belongs to
    the room, and [getQuestionByRoomAndOrder] finds at position [k] the
    [k]-th of the list, nothing outside it. *)
Theorem questions_at_dense_positions rid s :
  reachable s ->
  let qs := getQuestionsByRoomId rid s in
  map Question.order qs = zseq (List.length qs) /\
  qs = questionsOf rid s /\
  (forall q, In q qs <->
             getQuestionById (Question.id q) s = Some q /\
             Question.roomId q = rid) /\
  (forall k, getQuestionByRoomAndOrder rid k s = at_index qs k).
Proof.
  intros R qs. pose proof (reachable_Shape s R) as S.
  apply reachable_Inv in R. subst qs.
  rewrite (getQuestionsByRoomId_questionsOf rid s S).
  split; [apply (questions_dense s S)|]. split; [reflexivity|]. split.
  - intros q. rewrite questionsOf_in. split.
    + intros [[k I] E]. split; [|assumption].
      rewrite <- (proj2 (questions_keyed s R) _ _ I) in I.
      now apply (keyed_get _ _ _ _ (questions_keyed s R)).
    + intros [G E]. split; [|assumption]. exists (Question.id q).
      now apply JSMapFacts.get_in.
  - intros k. unfold getQuestionByRoomAndOrder.
    rewrite (find_filter (fun q => Question.order q =? k)
               (fun q => Question.roomId q =? rid)).
    fold (questionsOf rid s).
    rewrite (find_ascending _ 0 k)
      by (rewrite <- zseq_as_map; apply (questions_dense s S)).
    unfold at_index. now rewrite Z.sub_0_r.
Qed.

Lemma questions_at_dense_positions_witness :
  reachable one_room /\
  List.length (getQuestionsByRoomId 1 one_room) = 5%nat /\
  map Question.order (getQuestionsByRoomId 1 one_room)
  = zseq (List.length (getQuestionsByRoomId 1 one_room)).
Proof.
  split; [exact reachable_one_room|]. split; [vm_compute; reflexivity|].
  exact (proj1 (questions_at_dense_positions 1 one_room reachable_one_room)).
Defined.

End Listings.

(** ** References between the maps *)

Section References.
Import MemStorage Routes Invariant Effects.



End References.

(** ** Delivering the questions: start and advance *)

Section Delivery.
Import MemStorage Routes Invariant Effects.

Lemma nth_error_dense (qs : list Question.t) k q :
  map Question.order qs = zseq (List.length qs) ->
  nth_error qs k = Some q -> Question.order q = Z.of_nat k.
Proof.
  intros D N.
  assert (nth_error (map Question.order qs) k = Some (Question.order q)) as X
    by (now apply map_nth_error).
  rewrite D in X. unfold zseq in X.
  assert (k < List.length qs)%nat as L
    by (apply nth_error_Some; congruence).
  rewrite (map_nth_error Z.of_nat k (seq 0 (List.length qs)) (d := k)) in X.
  - congruence.
  - rewrite nth_error_nth' with (d := 0%nat) by (now rewrite length_seq).
    now rewrite seq_nth.
Qed.

Lemma at_index_dense (qs : list Question.t) i :
  map Question.order qs = zseq (List.length qs) ->
  0 <= i < Z.of_nat (List.length qs) ->
  exists q, at_index qs i = Some q /\ Question.order q = i /\ In q qs.
Proof.
  intros D L. unfold at_index.
  assert ((i <? 0) = false) as -> by lia.
  destruct (nth_error qs (Z.to_nat i)) as [q|] eqn:N.
  - exists q. split; [reflexivity|]. split.
    + rewrite (nth_error_dense qs _ q D N). lia.
    + eapply nth_error_In; eauto.
  - apply nth_error_None in N. lia.
Qed.

Lemma at_index_outside {A} (qs : list A) i :
  Z.of_nat (List.length qs) <= i -> at_index qs i = None.
Proof.
  intros L. unfold at_index. destruct (i <? 0); [reflexivity|].
  apply nth_error_None. lia.
Qed.

Lemma getPlayersByRoomId_resorted rid s :
  js_sort by_score_desc (getPlayersByRoomId rid s) = getPlayersByRoomId rid s.
Proof.
  apply js_sort_sorted. unfold getPlayersByRoomId.
  apply (js_sort_Sorted _ by_score_desc). unfold by_score_desc. intros; lia.
Qed.

Lemma room_budget s c room :
  Inv s -> getQuizRoomByCode c s = Some room ->
  num_or (Some (QuizRoom.timePerQuestion room)) 10 = QuizRoom.timePerQuestion room.
Proof.
  intros I G. apply JSMapFacts.get_in in G.
  pose proof (rooms_time s I _ _ G). apply num_or_some. lia.
Qed.

Lemma getQuestionsByRoomId_listed rid s :
  Shape s ->
  map Question.order (getQuestionsByRoomId rid s)
  = zseq (List.length (getQuestionsByRoomId rid s)) /\
  getQuestionsByRoomId rid s = questionsOf rid s /\
  (forall q, In q (getQuestionsByRoomId rid s) -> Question.roomId q = rid).
Proof.
  intros S. rewrite (getQuestionsByRoomId_questionsOf rid s S).
  split; [apply (questions_dense s S)|]. split; [reflexivity|].
  intros q IN. now apply questionsOf_in in IN.
Qed.

Lemma updateQuizRoom_found c u room s :
  getQuizRoomByCode c s = Some room ->
  updateQuizRoom c u s
  = (set_quizRooms s (JSMap.set c (QuizRoom.spread room u) (quizRooms s)),
     Some (QuizRoom.spread room u)).
Proof. unfold updateQuizRoom, getQuizRoomByCode. now intros ->. Qed.

(** X4: the current index of a room is never negative and, unless it is 0,
    is the position of one of the room's questions. An advance flagged
    as host that stays in range stores the next index and sends every
    participant the question at that position, with the room's time
    budget; an advance past the last question stores [finished], leaves
    the index, and sends the roster, highest score first. *)
Theorem next_question_delivers c pid room s :
  reachable s ->
  getQuizRoomByCode c s = Some room ->
  let qs := getQuestionsByRoomId (QuizRoom.id room) s in
  let n := Z.of_nat (List.length qs) in
  let i := QuizRoom.currentQuestionIndex room in
  let s' := fst (ws_message (Hub.MNextQuestion c pid true) s) in
  0 <= i /\ (i = 0 \/ i < n) /\
  (i + 1 < n ->
   exists q,
     at_index qs (i + 1) = Some q /\ Question.order q = i + 1 /\
     Question.roomId q = QuizRoom.id room /\
     snd (ws_message (Hub.MNextQuestion c pid true) s)
     = [Hub.BroadcastToRoom c
          (Hub.NextQuestion (Some q) (QuizRoom.timePerQuestion room) (i + 1) n)
          None] /\
     getQuizRoomByCode c s'
     = Some (QuizRoom.spread room (QuizRoom.only_index (i + 1)))) /\
  (n <= i + 1 ->
   snd (ws_message (Hub.MNextQuestion c pid true) s)
   = [Hub.BroadcastToRoom c
        (Hub.QuizFinished (getPlayersByRoomId (QuizRoom.id room) s)) None] /\
   getQuizRoomByCode c s'
   = Some (QuizRoom.spread room (QuizRoom.only_status finished))).
Proof.
  intros R G qs n i s'. pose proof (reachable_Shape s R) as S.
  pose proof (reachable_Inv s R) as I.
  pose proof (JSMapFacts.get_in _ _ _ G) as IN.
  pose proof (rooms_index s S _ _ IN) as [P0 P1].
  pose proof (getQuestionsByRoomId_listed (QuizRoom.id room) s S) as (D & Q & M).
  fold qs in D, Q, M.
  split; [exact P0|]. split.
  { fold (questionsOf (QuizRoom.id room) s) in P1. rewrite <- Q in P1. exact P1. }
  subst s'. cbn [ws_message]. rewrite G. cbv zeta. fold qs. fold n. fold i.
  split.
  - intros L. assert ((i + 1 <? n) = true) as -> by lia.
    rewrite (updateQuizRoom_found c _ room s G).
    destruct (at_index_dense qs (i + 1) D) as (q & A & O & IQ); [lia|].
    exists q. split; [exact A|]. split; [exact O|]. split; [apply M, IQ|].
    cbn [fst snd]. rewrite A, (room_budget s c room I G).
    split; [reflexivity|].
    unfold getQuizRoomByCode. cbn. apply JSMapFacts.get_set_same.
  - intros L. assert ((i + 1 <? n) = false) as -> by lia.
    rewrite (updateQuizRoom_found c _ room s G). cbn [fst snd].
    split.
    + change (getPlayersByRoomId (QuizRoom.id room)
                (set_quizRooms s
                   (JSMap.set c (QuizRoom.spread room (QuizRoom.only_status finished))
                      (quizRooms s))))
        with (getPlayersByRoomId (QuizRoom.id room) s).
      now rewrite getPlayersByRoomId_resorted.
    + unfold getQuizRoomByCode. cbn. apply JSMapFacts.get_set_same.
Qed.

Lemma next_question_delivers_witness :
  reachable one_room /\
  exists room q,
    getQuizRoomByCode "AAAAAA" one_room = Some room /\
    Question.order q = QuizRoom.currentQuestionIndex room + 1 /\
    snd (ws_message (Hub.MNextQuestion "AAAAAA" "h1" true) one_room)
    = [Hub.BroadcastToRoom "AAAAAA"
         (Hub.NextQuestion (Some q) (QuizRoom.timePerQuestion room)
            (QuizRoom.currentQuestionIndex room + 1)
            (Z.of_nat
               (List.length
                  (getQuestionsByRoomId (QuizRoom.id room) one_room))))
         None].
Proof.
  split; [exact reachable_one_room|].
  destruct (getQuizRoomByCode "AAAAAA" one_room) as [room|] eqn:G;
    [|vm_compute in G; discriminate G].
  pose proof (next_question_delivers "AAAAAA" "h1" room one_room
                reachable_one_room G) as (_ & _ & ADV & _).
  destruct ADV as (q & _ & O & _ & SND & _).
  - assert (room = QuizRoom.mk 1 "AAAAAA" "h1" "Space" 5 15 waiting 0 0) as ->
      by (vm_compute in G; now injection G).
    vm_compute. reflexivity.
  - exists room, q. split; [reflexivity|]. split; [exact O|exact SND].
Defined.

(** X5: a start flagged as host stores [active] and leaves the index as it
    is; every participant is sent the room's question at position 0 (none
    only if the room has no question), index 0 and the number of
    questions. *)
Theorem start_quiz_delivers c pid room s :
  reachable s ->
  getQuizRoomByCode c s = Some room ->
  let qs := getQuestionsByRoomId (QuizRoom.id room) s in
  let s' := fst (ws_message (Hub.MStartQuiz c pid true) s) in
  snd (ws_message (Hub.MStartQuiz c pid true) s)
  = [Hub.BroadcastToRoom c
       (Hub.QuizStarted (at_index qs 0) (QuizRoom.timePerQuestion room) 0
          (Z.of_nat (List.length qs)))
       None] /\
  getQuizRoomByCode c s'
  = Some (QuizRoom.spread room (QuizRoom.only_status active)) /\
  (qs <> [] ->
   exists q, at_index qs 0 = Some q /\ Question.order q = 0 /\
             Question.roomId q = QuizRoom.id room) /\
  (qs = [] -> at_index qs 0 = None) /\
  getQuestionsByRoomId (QuizRoom.id room) s' = qs /\
  getPlayersByRoomId (QuizRoom.id room) s'
  = getPlayersByRoomId (QuizRoom.id room) s.
Proof.
  intros R G qs s'. pose proof (reachable_Inv s R) as I.
  pose proof (getQuestionsByRoomId_listed (QuizRoom.id room) s
                (reachable_Shape s R)) as (D & _ & M).
  fold qs in D, M.
  subst s'. cbn [ws_message]. rewrite G.
  rewrite (updateQuizRoom_found c _ room s G). cbv zeta. cbn [fst snd].
  change (getQuestionsByRoomId (QuizRoom.id room)
            (set_quizRooms s
               (JSMap.set c (QuizRoom.spread room (QuizRoom.only_status active))
                  (quizRooms s))))
    with qs.
  rewrite (room_budget s c room I G).
  split; [reflexivity|]. split.
  { unfold getQuizRoomByCode. cbn. apply JSMapFacts.get_set_same. }
  split; [|split; [|split; reflexivity]].
  - intros NE. destruct (at_index_dense qs 0 D) as (q & A & O & IQ).
    + destruct qs; [congruence|]. cbn [List.length]. lia.
    + exists q. split; [exact A|]. split; [exact O|]. apply M, IQ.
  - intros ->. reflexivity.
Qed.

Lemma start_quiz_delivers_witness :
  reachable one_room /\
  exists room, getQuizRoomByCode "AAAAAA" one_room = Some room /\
  getQuizRoomByCode "AAAAAA"
    (fst (ws_message (Hub.MStartQuiz "AAAAAA" "h1" true) one_room))
  = Some (QuizRoom.spread room (QuizRoom.only_status active)).
Proof.
  split; [exact reachable_one_room|].
  destruct (getQuizRoomByCode "AAAAAA" one_room) as [room|] eqn:G.
  - exists room. split; [reflexivity|].
    exact (proj1 (proj2 (start_quiz_delivers "AAAAAA" "h1" room one_room
                           reachable_one_room G))).
  - vm_compute in G. discriminate G.
Defined.

End Delivery.

(** ** What a successful create stores *)

Section Creation.
Import MemStorage Routes Invariant Effects OpenAI.

Lemma post_quiz_create_store env body s data code n :
  Inv s ->
  CreateQuiz.parse body = Some data ->
  allocate 9 (random env) 0 0 s = (code, n) -> n < 10 ->
  post_quiz_create env body s
  = (MemStorage.mk
       (quizRooms s ++ [(code, created_room env data code s)])
       (questions s ++
        by_id (created_questions (currentRoomId s) (currentQuestionId s)
                 (generateQuizQuestions (upstream env)
                    (CreateQuiz.topic data)
                    (CreateQuiz.questionCount data))))
       (JSMap.set (CreateQuiz.hostId data) (created_host env data s)
          (players s))
       (answers s)
       (currentRoomId s + 1)
       (currentQuestionId s
        + Z.of_nat (List.length
                      (generateQuizQuestions (upstream env)
                         (CreateQuiz.topic data)
                         (CreateQuiz.questionCount data))))
       (currentPlayerId s + 1)
       (currentAnswerId s),
     Http.ok (Http.Created code (created_room env data code s)
                "Quiz created successfully")).
Proof.
  intros I P A N. unfold post_quiz_create. rewrite P, A.
  pose proof (CreateQuiz_parse_some _ _ P) as (Q & T & _).
  assert ((n >=? 10) = false) as -> by lia.
  assert (getQuizRoomByCode code s = None) as F
    by (apply (allocate_fresh 9 (random env) 0%nat 0 s code n); [lia|exact A|lia]).
  unfold createQuizRoom.
  cbn [QuizRoom.i_roomCode QuizRoom.i_hostId QuizRoom.i_topic
       QuizRoom.i_questionCount QuizRoom.i_timePerQuestion
       QuizRoom.i_status QuizRoom.i_currentQuestionIndex].
  rewrite !num_or_some by lia. rewrite num_or_zero.
  fold (created_room env data code s).
  rewrite createQuestions_list.
  2:{ cbn [questions currentQuestionId].
      apply keys_below. apply (questions_ids s I). }
  cbn [QuizRoom.id created_room questions currentQuestionId].
  rewrite created_questions_assign.
  unfold createPlayer.
  cbn [Player.i_roomId Player.i_name Player.i_playerId Player.i_score
       Player.i_isHost quizRooms questions players answers currentRoomId
       currentQuestionId currentPlayerId currentAnswerId fst].
  rewrite num_or_zero. cbn [bool_or].
  rewrite set_absent by exact F.
  unfold mapi. rewrite mapi_from_length.
  reflexivity.
Qed.

Lemma filter_none_iff {A} (f : A -> bool) l :
  (forall x, In x l -> f x = false) -> filter f l = [].
Proof.
  induction l as [|x l IH]; intros T; simpl; [reflexivity|].
  rewrite (T x (or_introl eq_refl)). apply IH. intros y Y. apply T. now right.
Qed.


Lemma create_success env body s s' code room msg :
  Inv s ->
  post_quiz_create env body s = (s', Http.ok (Http.Created code room msg)) ->
  exists data,
    CreateQuiz.parse body = Some data /\
    room = created_room env data code s /\
    s' = MemStorage.mk
           (quizRooms s ++ [(code, created_room env data code s)])
           (questions s ++
            by_id (created_questions (currentRoomId s) (currentQuestionId s)
                     (generateQuizQuestions (upstream env)
                        (CreateQuiz.topic data)
                        (CreateQuiz.questionCount data))))
           (JSMap.set (CreateQuiz.hostId data) (created_host env data s)
              (players s))
           (answers s)
           (currentRoomId s + 1)
           (currentQuestionId s
            + Z.of_nat (List.length
                          (generateQuizQuestions (upstream env)
                             (CreateQuiz.topic data)
                             (CreateQuiz.questionCount data))))
           (currentPlayerId s + 1)
           (currentAnswerId s).
Proof.
  intros I E.
  destruct (CreateQuiz.parse body) as [data|] eqn:P.
  2:{ unfold post_quiz_create in E. rewrite P in E. discriminate. }
  destruct (allocate 9 (random env) 0 0 s) as [code0 n] eqn:A.
  destruct (Z_lt_ge_dec n 10) as [N|N].
  2:{ unfold post_quiz_create in E. rewrite P, A in E.
      assert ((n >=? 10) = true) as X by lia. rewrite X in E. discriminate. }
  rewrite (post_quiz_create_store env body s data code0 n I P A N) in E.
  injection E as Es -> Er _. exists data. auto.
Qed.

Lemma create_questions_listed env body s s' code room msg :
  reachable s ->
  post_quiz_create env body s = (s', Http.ok (Http.Created code room msg)) ->
  getQuestionsByRoomId (QuizRoom.id room) s'
  = mapi (fun g j =>
            Question.mk (currentQuestionId s + j) (QuizRoom.id room)
              (question g) (options g) (correctAnswer g) j)
         (generateQuizQuestions (upstream env) (CreateQuiz.b_topic body)
            (QuizRoom.questionCount room)).
Proof.
  intros R E.
  assert (reachable s') as R'.
  { replace s' with (fst (handle (PostCreate env body) s)).
    - now apply reachable_handle.
    - cbn [handle]. now rewrite E. }
  pose proof (reachable_Inv s R) as I. pose proof (reachable_Shape s R) as S.
  pose proof (reachable_Shape s' R') as S'.
  destruct (create_success env body s s' code room msg I E) as (data & P & Er & Es).
  pose proof (CreateQuiz_parse_some _ _ P) as (Q & T & PT & PH & _).
  assert (QuizRoom.id room = currentRoomId s) as RI by (now subst room).
  assert (QuizRoom.questionCount room = CreateQuiz.questionCount data) as RQ
    by (now subst room).
  rewrite (getQuestionsByRoomId_questionsOf _ s' S'). unfold questionsOf.
  rewrite Es. cbn [questions].
  rewrite values_app, filter_app, values_by_id.
  fold (questionsOf (QuizRoom.id room) s).
  rewrite (questionsOf_future s _ I S) by lia. cbn [app].
  rewrite RI, RQ, <- PT.
  apply filter_all. intros q IN. apply Z.eqb_eq.
  now apply created_questions_spec in IN.
Qed.



End Creation.

(** ** Which submissions are accepted *)

Section Acceptance.
Import MemStorage Routes Invariant Effects.

Lemma created_questions_ids rid cq gs :
  forall q, In q (created_questions rid cq gs) -> cq <= Question.id q.
Proof.
  unfold created_questions, mapi.
  assert (forall i q,
            0 <= i ->
            In q (mapi_from (fun g j => Question.mk (cq + j) rid (OpenAI.question g)
                                          (OpenAI.options g) (OpenAI.correctAnswer g) j)
                    i gs) -> cq <= Question.id q) as X.
  { induction gs as [|g gs IH]; intros i q L; simpl; [tauto|].
    intros [<-|IN]; [simpl; lia|]. apply (IH (i + 1)); [lia|assumption]. }
  intros q. apply X. lia.
Qed.

Lemma Named_effect s s' : Inv s -> Named s -> Effect s s' -> Named s'.
Proof.
  intros I [PN QP QC] E.
  destruct E as [|env data code F Q T HN|now body room G W PJ NP
                 |now body player question GP HA GQ ER|pid|pid player GP
                 |code room G|code room st G ST|code room G L];
    constructor; cbn [players questions currentQuestionId];
    try assumption; try lia.
  - intros k p IN. apply JSMapFacts.in_set in IN.
    destruct IN as [[-> _]|[_ IN]]; [assumption|eauto].
  - intros k q IN. apply in_app_or in IN. destruct IN as [IN|IN]; [eauto|].
    apply in_by_id in IN. destruct IN as [-> IN].
    apply created_questions_ids in IN. lia.
  - intros k p IN. apply in_app_or in IN. destruct IN as [IN|IN].
    + apply JSMapFacts.in_delete in IN. apply (PN k p), IN.
    + destruct IN as [[= <- <-]|[]]. assumption.
  - intros k p IN. apply JSMapFacts.in_set in IN.
    destruct IN as [[-> _]|[_ IN]]; [|eauto].
    apply JSMapFacts.get_in in GP. eauto.
  - intros k p IN. apply JSMapFacts.in_delete in IN. apply (PN k p), IN.
  - intros k p IN. apply filter_In in IN. apply (PN k p), IN.
  - intros k q IN. apply filter_In in IN. apply (QP k q), IN.
Qed.

Lemma reachable_Named s : reachable s -> Named s.
Proof.
  apply reachable_ind.
  - constructor; simpl; try (intros; contradiction). lia.
  - intros s0 s1 I N E. now apply (Named_effect s0).
Qed.

(** X7: a submission is accepted exactly when it passes the schema, the
    player exists, the question exists and is of the player's room, and
    the player has no answer to it; a refused one leaves the store as it
    is. The verdict does not look at the rooms: status and current index
    play no part in it. *)
Theorem answer_accepted_iff now body s :
  let r := snd (post_quiz_answer now body s) in
  (Http.status r = 200 <->
   SubmitAnswer.parse body = Some body /\
   exists player question,
     getPlayerById (SubmitAnswer.playerId body) s = Some player /\
     getQuestionById (SubmitAnswer.questionId body) s = Some question /\
     Question.roomId question = Player.roomId player /\
     hasPlayerAnswered (SubmitAnswer.playerId body)
       (SubmitAnswer.questionId body) s = false) /\
  (Http.status r <> 200 -> fst (post_quiz_answer now body s) = s) /\
  (forall rooms',
     Http.status (snd (post_quiz_answer now body (set_quizRooms s rooms')))
     = Http.status r).
Proof.
  cbv zeta. split; [|split].
  - split.
    + intros OK.
      destruct (post_quiz_answer_cases now body s)
        as [(_ & N & _)|(player & question & P & GP & HA & GQ & ER & _)];
        [contradiction|].
      split; [exact P|]. exists player, question. auto.
    + intros (P & player & question & GP & GQ & ER & HA).
      unfold post_quiz_answer. rewrite P, GP, HA, GQ.
      apply Z.eqb_eq in ER. rewrite ER. cbn [negb].
      destruct (createAnswer _ _ s) as [s1 a].
      destruct (updatePlayerScore _ _ s1) as [s2 u]. reflexivity.
  - intros N.
    destruct (post_quiz_answer_cases now body s)
      as [(E & _)|(player & question & _ & _ & _ & _ & _ & E)];
      [exact E|].
    rewrite E in N. exfalso. now apply N.
  - intros rooms'. unfold post_quiz_answer.
    destruct (SubmitAnswer.parse body) as [data|]; [|reflexivity].
    change (getPlayerById (SubmitAnswer.playerId data) (set_quizRooms s rooms'))
      with (getPlayerById (SubmitAnswer.playerId data) s).
    destruct (getPlayerById (SubmitAnswer.playerId data) s) as [player|];
      [|reflexivity].
    change (hasPlayerAnswered (SubmitAnswer.playerId data)
              (SubmitAnswer.questionId data) (set_quizRooms s rooms'))
      with (hasPlayerAnswered (SubmitAnswer.playerId data)
              (SubmitAnswer.questionId data) s).
    destruct (hasPlayerAnswered _ _ s); [reflexivity|].
    change (getQuestionById (SubmitAnswer.questionId data)
              (set_quizRooms s rooms'))
      with (getQuestionById (SubmitAnswer.questionId data) s).
    destruct (getQuestionById (SubmitAnswer.questionId data) s) as [question|];
      [|reflexivity].
    destruct (negb (Question.roomId question =? Player.roomId player));
      [reflexivity|].
    destruct (createAnswer _ _ (set_quizRooms s rooms')) as [s1 a].
    destruct (updatePlayerScore _ _ s1) as [s2 u].
    destruct (createAnswer _ _ s) as [s1' a'].
    destruct (updatePlayerScore _ _ s1') as [s2' u']. reflexivity.
Qed.

Lemma listed_question_accepted now pid p q sel t s :
  Inv s -> Shape s -> Named s ->
  getPlayerById pid s = Some p ->
  In q (getQuestionsByRoomId (Player.roomId p) s) ->
  hasPlayerAnswered pid (Question.id q) s = false ->
  0 <= sel <= 3 -> 0 <= t ->
  let body := SubmitAnswer.mk pid (Question.id q) sel t in
  SubmitAnswer.parse body = Some body /\
  post_quiz_answer now body s
  = (answer_store now body p q s,
     Http.ok (Http.Answered (answer_isCorrect body q)
                (answer_points body q s)
                (Player.score p + answer_points body q s)
                (Question.correctAnswer q)
                (if answer_isCorrect body q
                 then "Correct answer!" else "Incorrect answer"))).
Proof.
  intros I S N GP IN HA SEL T body.
  destruct (getQuestionsByRoomId_listed (Player.roomId p) s S) as (_ & Q & M).
  pose proof (M q IN) as RQ. rewrite Q in IN. apply questionsOf_in in IN.
  destruct IN as [[k IN] _].
  pose proof (proj2 (questions_keyed s I) _ _ IN) as <-.
  pose proof (questions_positive s N _ _ IN) as QP.
  pose proof (players_named s N _ _ (JSMapFacts.get_in _ _ _ GP)) as PN.
  assert (getQuestionById (Question.id q) s = Some q) as GQ
    by (now apply (keyed_get _ _ _ _ (questions_keyed s I))).
  assert (SubmitAnswer.parse body = Some body) as P.
  { unfold SubmitAnswer.parse, body. cbn [SubmitAnswer.playerId
      SubmitAnswer.questionId SubmitAnswer.selectedAnswer
      SubmitAnswer.timeToAnswer].
    assert (nonempty pid = true) as ->
      by (unfold nonempty; apply negb_true_iff, String.eqb_neq, PN).
    assert ((1 <=? Question.id q) = true) as -> by lia.
    assert ((0 <=? sel) = true) as -> by lia.
    assert ((sel <=? 3) = true) as -> by lia.
    assert ((0 <=? t) = true) as -> by lia. reflexivity. }
  split; [exact P|].
  destruct (post_quiz_answer_cases now body s)
    as [(_ & NO & _)|(player & question & _ & GP' & _ & GQ' & _ & E)].
  - exfalso. apply NO. unfold post_quiz_answer. rewrite P.
    cbn [body SubmitAnswer.playerId SubmitAnswer.questionId].
    rewrite GP, HA, GQ.
    assert ((Question.roomId q =? Player.roomId p) = true) as -> by lia.
    cbn [negb].
    destruct (createAnswer _ _ s) as [s1 a].
    destruct (updatePlayerScore _ _ s1) as [s2 u]. reflexivity.
  - cbn [body SubmitAnswer.playerId SubmitAnswer.questionId] in GP', GQ'.
    rewrite GP in GP'. rewrite GQ in GQ'.
    injection GP' as <-. injection GQ' as <-. exact E.
Qed.

(** X8: a player can answer, once, every question listed for the room the
    player is in, with any option 0..3 and any elapsed time that is not
    negative, whatever the status of the room and whichever question is
    current; the answer is then on record, so a second one is refused. *)
Theorem listed_question_answerable now pid p q sel t s :
  reachable s ->
  getPlayerById pid s = Some p ->
  In q (getQuestionsByRoomId (Player.roomId p) s) ->
  hasPlayerAnswered pid (Question.id q) s = false ->
  0 <= sel <= 3 -> 0 <= t ->
  let body := SubmitAnswer.mk pid (Question.id q) sel t in
  let s' := fst (post_quiz_answer now body s) in
  Http.status (snd (post_quiz_answer now body s)) = 200 /\
  hasPlayerAnswered pid (Question.id q) s' = true /\
  Http.status (snd (post_quiz_answer now body s')) = 400.
Proof.
  intros R GP IN HA SEL T body s'.
  destruct (listed_question_accepted now pid p q sel t s
              (reachable_Inv s R) (reachable_Shape s R) (reachable_Named s R)
              GP IN HA SEL T) as [P E].
  fold body in P, E.
  assert (hasPlayerAnswered pid (Question.id q) s' = true) as HA'.
  { subst s'. rewrite E. cbn [fst]. unfold answer_store.
    unfold updatePlayerScore, createAnswer. cbn [players fst answers].
    cbn [body SubmitAnswer.playerId] in *. unfold getPlayerById in GP.
    rewrite GP. cbn [fst]. unfold hasPlayerAnswered. cbn [answers].
    apply existsb_exists.
    eexists. split.
    - eapply JSMapFacts.in_values. apply JSMapFacts.get_in.
      apply JSMapFacts.get_set_same.
    - cbn. rewrite String.eqb_refl, Z.eqb_refl. reflexivity. }
  split; [now rewrite E|]. split; [exact HA'|].
  assert (exists p', getPlayerById pid s' = Some p') as [p' GP'].
  { subst s'. rewrite E. cbn [fst]. unfold answer_store.
    unfold updatePlayerScore, createAnswer. cbn [players fst].
    cbn [body SubmitAnswer.playerId] in *. unfold getPlayerById in *.
    rewrite GP. cbn [fst players]. eexists. apply JSMapFacts.get_set_same. }
  unfold post_quiz_answer. rewrite P.
  cbn [body SubmitAnswer.playerId SubmitAnswer.questionId].
  now rewrite GP', HA'.
Qed.

Lemma listed_question_answerable_witness :
  reachable joined /\
  Http.status
    (snd (post_quiz_answer 2 (SubmitAnswer.mk "p1" 5 0 70) joined)) = 200.
Proof.
  split; [exact reachable_joined|].
  refine (proj1 (listed_question_answerable 2 "p1"
                   (Player.mk 2 1 "Alice" "p1" 0 false 1)
                   (Question.mk 5 1
                      (JStr "What is the chemical symbol for gold?")
                      (JArr [JStr "Ag"; JStr "Au"; JStr "Fe"; JStr "Cu"]) 1 4)
                   0 70 joined reachable_joined _ _ _ _ _)).
  - vm_compute. reflexivity.
  - vm_compute. auto 10.
  - vm_compute. reflexivity.
  - lia.
  - lia.
Defined.

End Acceptance.

(** ** Sorting and filtering commute *)

Section SortFilter.
Variable A : Type.
Variable cmp : A -> A -> Z.
Hypothesis cmp_total : forall a b, 0 < cmp a b -> cmp b a <= 0.
Hypothesis cmp_trans : forall a b c, cmp a b <= 0 -> cmp b c <= 0 -> cmp a c <= 0.

Lemma sort_insert_first x l :
  Forall (before cmp x) l -> sort_insert cmp x l = x :: l.
Proof.
  destruct l as [|y l]; [reflexivity|]. intros F. inversion F; subst.
  unfold before in *. simpl.
  destruct (cmp x y <=? 0) eqn:E; [reflexivity|lia].
Qed.

Lemma sort_insert_filter_out (f : A -> bool) x l :
  f x = false -> filter f (sort_insert cmp x l) = filter f l.
Proof.
  intros F. induction l as [|y l IH]; simpl; [now rewrite F|].
  destruct (cmp x y <=? 0); simpl; [now rewrite F|]. now rewrite IH.
Qed.

Lemma sort_insert_filter_in (f : A -> bool) x l :
  f x = true -> StronglySorted (before cmp) l ->
  filter f (sort_insert cmp x l) = sort_insert cmp x (filter f l).
Proof.
  intros F S. induction S as [|y l S IH FA]; simpl; [now rewrite F|].
  destruct (cmp x y <=? 0) eqn:E.
  - simpl. rewrite F. symmetry.
    change (sort_insert cmp x (filter f (y :: l)) = x :: filter f (y :: l)).
    apply sort_insert_first. apply Forall_forall. intros z Z.
    apply filter_In in Z. destruct Z as [[<-|Z] _]; unfold before; [lia|].
    rewrite Forall_forall in FA. specialize (FA z Z). unfold before in FA.
    apply (cmp_trans x y z); [lia|assumption].
  - simpl. destruct (f y); simpl; [rewrite E|]; now rewrite IH.
Qed.

(** Sorting the members of [l] that satisfy [f] gives the sorted list's
    members that satisfy [f], in the same order. *)
Lemma js_sort_filter_comm (f : A -> bool) l :
  js_sort cmp (filter f l) = filter f (js_sort cmp l).
Proof.
  induction l as [|x l IH]; simpl; [reflexivity|].
  destruct (f x) eqn:F.
  - simpl. rewrite IH. symmetry. apply sort_insert_filter_in; [assumption|].
    apply Sorted_StronglySorted; [exact cmp_trans|].
    now apply js_sort_Sorted.
  - rewrite IH. symmetry. now apply sort_insert_filter_out.
Qed.

End SortFilter.

(** ** Leaving a room *)

Section Leaving.
Import MemStorage Routes Invariant Effects.

Lemma values_delete {K V} `{KeyEq K} (key_of : V -> K) k (m : JSMap.t K V) :
  keyed key_of m ->
  JSMap.values (JSMap.delete k m)
  = filter (fun v => negb (keqb (key_of v) k)) (JSMap.values m).
Proof.
  intros KM. rewrite <- (values_filter (fun v => negb (keqb (key_of v) k))).
  f_equal. unfold JSMap.delete. apply filter_ext_in.
  intros [k' v] IN. simpl. now rewrite (proj2 KM _ _ IN).
Qed.

Lemma filter_comm {A} (f g : A -> bool) l :
  filter f (filter g l) = filter g (filter f l).
Proof.
  rewrite !filter_filter. apply filter_ext. intros x. apply andb_comm.
Qed.

Lemma roster_filter (f : Player.t -> bool) rid l :
  js_sort (fun a b => Player.score b - Player.score a)
    (filter (fun p => Player.roomId p =? rid) (filter f l))
  = filter f
      (js_sort (fun a b => Player.score b - Player.score a)
         (filter (fun p => Player.roomId p =? rid) l)).
Proof.
  rewrite filter_comm. apply js_sort_filter_comm; intros; lia.
Qed.

Lemma cleanupPlayer_found pid p s :
  Inv s -> getPlayerById pid s = Some p ->
  cleanupPlayer pid s
  = (MemStorage.mk (quizRooms s) (questions s)
       (JSMap.delete pid (players s))
       (without_player pid (answers s))
       (currentRoomId s) (currentQuestionId s) (currentPlayerId s)
       (currentAnswerId s), true).
Proof.
  intros I G. unfold cleanupPlayer, getPlayerById in *. rewrite G.
  rewrite (delete_matching_filter Answer.id
             (fun a => String.eqb (Answer.playerId a) pid) (answers s)
             (answers_keyed s I)).
  f_equal. apply JSMapFacts.has_true.
  apply JSMapFacts.get_in in G. apply in_map_iff. now exists (pid, p).
Qed.

Lemma cleanupPlayer_absent pid s :
  getPlayerById pid s = None -> cleanupPlayer pid s = (s, false).
Proof. unfold cleanupPlayer, getPlayerById. now intros ->. Qed.

Lemma answers_without_player pid k ans :
  filter (fun a => String.eqb (Answer.playerId a) k)
    (JSMap.values (without_player pid ans))
  = if String.eqb k pid then []
    else filter (fun a => String.eqb (Answer.playerId a) k) (JSMap.values ans).
Proof.
  unfold without_player.
  rewrite (values_filter (fun a => negb (String.eqb (Answer.playerId a) pid))).
  rewrite filter_filter. destruct (String.eqb_spec k pid) as [->|NE].
  - apply filter_none. intros a _. now destruct (String.eqb _ _).
  - apply filter_ext. intros a.
    destruct (String.eqb_spec (Answer.playerId a) k) as [->|NK].
    + apply String.eqb_neq in NE. now rewrite NE.
    + now rewrite andb_false_r.
Qed.

(** X9: a leave request for a player who is stored removes the player and
    the player's answers and nothing else: the rosters are the old ones
    without the player, in the same order, every other player keeps
    record and answers, rooms and questions stay (also when the player
    was the host, and whatever room code the request names). A second
    leave finds nothing to remove and changes nothing, and the
    [leave-room] message has the same effect on the store. *)
Theorem leave_removes_player body p s :
  reachable s ->
  LeaveRoom.parse body = Some body ->
  getPlayerById (LeaveRoom.playerId body) s = Some p ->
  let pid := LeaveRoom.playerId body in
  let s' := fst (post_quiz_player_leave body s) in
  snd (post_quiz_player_leave body s)
  = Http.ok (Http.Message "Player removed successfully") /\
  getPlayerById pid s' = None /\
  getAnswersByPlayerId pid s' = [] /\
  (forall k, k <> pid ->
     getPlayerById k s' = getPlayerById k s /\
     getAnswersByPlayerId k s' = getAnswersByPlayerId k s) /\
  (forall rid,
     getPlayersByRoomId rid s'
     = filter (fun x => negb (String.eqb (Player.playerId x) pid))
         (getPlayersByRoomId rid s)) /\
  quizRooms s' = quizRooms s /\ questions s' = questions s /\
  post_quiz_player_leave body s'
  = (s', Http.ok (Http.Message "Player already removed")) /\
  (forall code, fst (ws_message (Hub.MLeaveRoom code pid) s) = s').
Proof.
  intros R P G pid s'. pose proof (reachable_Inv s R) as I.
  assert (post_quiz_player_leave body s
          = (MemStorage.mk (quizRooms s) (questions s)
               (JSMap.delete pid (players s))
               (without_player pid (answers s))
               (currentRoomId s) (currentQuestionId s) (currentPlayerId s)
               (currentAnswerId s),
             Http.ok (Http.Message "Player removed successfully"))) as E.
  { unfold post_quiz_player_leave. rewrite P, G.
    now rewrite (cleanupPlayer_found _ p s I G). }
  subst s'. rewrite E. cbn [fst snd].
  assert (forall k,
            getPlayerById k
              (MemStorage.mk (quizRooms s) (questions s)
                 (JSMap.delete pid (players s))
                 (without_player pid (answers s))
                 (currentRoomId s) (currentQuestionId s) (currentPlayerId s)
                 (currentAnswerId s))
            = if String.eqb k pid then None else getPlayerById k s) as GK.
  { intros k. unfold getPlayerById. cbn [players].
    destruct (String.eqb_spec k pid) as [->|NE].
    - apply JSMapFacts.get_delete_same.
    - now apply JSMapFacts.get_delete_other. }
  split; [reflexivity|]. split; [now rewrite GK, String.eqb_refl|].
  split.
  { unfold getAnswersByPlayerId. cbn [answers].
    now rewrite answers_without_player, String.eqb_refl. }
  split.
  { intros k NE. rewrite GK. apply String.eqb_neq in NE. rewrite NE.
    split; [reflexivity|]. unfold getAnswersByPlayerId. cbn [answers].
    now rewrite answers_without_player, NE. }
  split.
  { intros rid. unfold getPlayersByRoomId. cbn [players].
    rewrite (values_delete Player.playerId pid (players s) (players_keyed s I)).
    apply roster_filter. }
  split; [reflexivity|]. split; [reflexivity|]. split.
  - unfold post_quiz_player_leave. rewrite P. fold pid.
    now rewrite GK, String.eqb_refl.
  - intros code. cbn [ws_message]. unfold pid.
    rewrite (cleanupPlayer_found _ p s I G). reflexivity.
Qed.

Lemma leave_removes_player_witness :
  reachable joined /\
  getPlayerById "p1"
    (fst (post_quiz_player_leave (LeaveRoom.mk "p1" "ZZZZZZ") joined)) = None.
Proof.
  split; [exact reachable_joined|].
  refine (proj1 (proj2 (leave_removes_player (LeaveRoom.mk "p1" "ZZZZZZ")
                          (Player.mk 2 1 "Alice" "p1" 0 false 1) joined
                          reachable_joined _ _))).
  - vm_compute. reflexivity.
  - vm_compute. reflexivity.
Defined.

End Leaving.

(** ** Clearing a player's answers *)

Section Clearing.
Import MemStorage Routes Invariant Effects.

Lemma clearAnswersForPlayer_store pid s :
  Inv s ->
  fst (clearAnswersForPlayer pid s)
  = set_answers s (without_player pid (answers s)).
Proof.
  intros I. unfold clearAnswersForPlayer. cbn [fst].
  now rewrite (delete_matching_filter Answer.id
                 (fun a => String.eqb (Answer.playerId a) pid) (answers s)
                 (answers_keyed s I)).
Qed.

Lemma hasPlayerAnswered_none pid qid s :
  getAnswersByPlayerId pid s = [] -> hasPlayerAnswered pid qid s = false.
Proof.
  unfold getAnswersByPlayerId, hasPlayerAnswered. intros E.
  destruct (existsb _ _) eqn:X; [|reflexivity].
  apply existsb_exists in X. destruct X as (a & IN & T).
  apply andb_true_iff in T. destruct T as [T _].
  assert (In a []) as []. rewrite <- E. apply filter_In. auto.
Qed.

(** X10: clearing the answers of a player removes every answer recorded under
    the token and nothing else: the score the answers earned stays, the
    answers of the others stay. Every question listed for the player's
    room, answered before or not, is then accepted again. An empty token
    is refused with 400. *)
Theorem clear_answers_reopens pid s :
  reachable s ->
  pid <> "" ->
  let s' := fst (post_quiz_clear_answers pid s) in
  snd (post_quiz_clear_answers pid s)
  = Http.ok (Http.Message "Answers cleared successfully") /\
  getAnswersByPlayerId pid s' = [] /\
  (forall k, k <> pid -> getAnswersByPlayerId k s' = getAnswersByPlayerId k s) /\
  players s' = players s /\ quizRooms s' = quizRooms s /\
  questions s' = questions s /\
  (forall now p q sel t,
     getPlayerById pid s = Some p ->
     In q (getQuestionsByRoomId (Player.roomId p) s) ->
     0 <= sel <= 3 -> 0 <= t ->
     Http.status
       (snd (post_quiz_answer now (SubmitAnswer.mk pid (Question.id q) sel t) s'))
     = 200) /\
  post_quiz_clear_answers "" s
  = (s, Http.mk 400 (Http.Message "Player ID is required")).
Proof.
  intros R NE s'. pose proof (reachable_Inv s R) as I.
  assert (reachable s') as R'.
  { pose proof (reachable_handle (PostClearAnswers pid) s R) as X.
    cbn [handle] in X. subst s'.
    now destruct (post_quiz_clear_answers pid s). }
  assert (post_quiz_clear_answers pid s
          = (set_answers s (without_player pid (answers s)),
             Http.ok (Http.Message "Answers cleared successfully"))) as E.
  { unfold post_quiz_clear_answers.
    assert (nonempty pid = true) as ->
      by (unfold nonempty; apply negb_true_iff, String.eqb_neq, NE).
    cbn [negb]. rewrite <- (clearAnswersForPlayer_store pid s I).
    now destruct (clearAnswersForPlayer pid s). }
  subst s'. rewrite E in *. cbn [fst snd] in *.
  assert (getAnswersByPlayerId pid
            (set_answers s (without_player pid (answers s))) = []) as GA.
  { unfold getAnswersByPlayerId. cbn [answers set_answers].
    now rewrite answers_without_player, String.eqb_refl. }
  split; [reflexivity|]. split; [exact GA|]. split.
  { intros k NK. unfold getAnswersByPlayerId. cbn [answers set_answers].
    apply String.eqb_neq in NK. now rewrite answers_without_player, NK. }
  split; [reflexivity|]. split; [reflexivity|]. split; [reflexivity|].
  split; [|reflexivity].
  intros now p q sel t GP IN SEL T.
  destruct (listed_question_accepted now pid p q sel t
              (set_answers s (without_player pid (answers s)))
              (reachable_Inv _ R') (reachable_Shape _ R') (reachable_Named _ R')
              GP IN (hasPlayerAnswered_none _ _ _ GA) SEL T) as [_ X].
  now rewrite X.
Qed.

Lemma clear_answers_reopens_witness :
  reachable answered /\
  hasPlayerAnswered "p1" 1 answered = true /\
  Http.status
    (snd (post_quiz_answer 5 (SubmitAnswer.mk "p1" 1 2 3)
            (fst (post_quiz_clear_answers "p1" answered)))) = 200.
Proof.
  split; [exact reachable_answered|]. split; [vm_compute; reflexivity|].
  assert ("p1" <> "") as NE by discriminate.
  refine (proj1 (proj2 (proj2 (proj2 (proj2 (proj2 (proj2
            (clear_answers_reopens "p1" answered reachable_answered NE)))))))
            5 (Player.mk 2 1 "Alice" "p1" 220 false 1)
            (Question.mk 1 1 (JStr "What is the capital of France?")
               (JArr [JStr "London"; JStr "Berlin"; JStr "Paris"; JStr "Madrid"])
               2 0)
            2 3 _ _ _ _).
  - vm_compute. reflexivity.
  - vm_compute. auto 10.
  - lia.
  - lia.
Defined.

End Clearing.

(** ** The leaderboard *)

Section Board.
Import MemStorage Routes Invariant Effects.

Lemma Sorted_map {A B} (f : A -> B) (ra : A -> A -> Prop) (rb : B -> B -> Prop) l :
  (forall a b, ra a b -> rb (f a) (f b)) ->
  Sorted ra l -> Sorted rb (map f l).
Proof.
  intros M S. induction S as [|x l S IH HR]; simpl; constructor; auto.
  destruct HR; simpl; constructor; auto.
Qed.

(** X11: the leaderboard of a room has one row for each player of the room,
    in the order of the roster (highest score first, ties in the order
    of the players map): sorting the rows again moves nothing. A row
    counts the correct answers stored under the player's token, in
    whatever room they were given, beside the number of the room's
    questions. A code of no room is answered 404. *)
Theorem leaderboard_rows code s :
  (getQuizRoomByCode code s = None ->
   get_quiz_leaderboard code s = Http.mk 404 (Http.Message "Room not found")) /\
  (forall room,
     getQuizRoomByCode code s = Some room ->
     let row p :=
       Http.mkRow p
         (Z.of_nat (List.length
                      (filter Answer.isCorrect
                         (getAnswersByPlayerId (Player.playerId p) s))))
         (Z.of_nat (List.length (getQuestionsByRoomId (QuizRoom.id room) s))) in
     get_quiz_leaderboard code s
     = Http.ok (Http.Leaderboard
                  (map row (getPlayersByRoomId (QuizRoom.id room) s)) room)).
Proof.
  split.
  - intros G. unfold get_quiz_leaderboard. now rewrite G.
  - intros room G row. unfold get_quiz_leaderboard. rewrite G. cbv zeta.
    f_equal. f_equal. fold row. apply js_sort_sorted.
    apply (Sorted_map row
             (before (fun a b => Player.score b - Player.score a))).
    + intros a b. unfold before, row. simpl. auto.
    + unfold getPlayersByRoomId. apply js_sort_Sorted. intros; lia.
Qed.

End Board.

(** ** Which room code a create returns *)

Section CodeChoice.
Import MemStorage Routes Invariant Effects.

Lemma allocate_first random s : forall (i : nat) fuel pos a,
  0 <= a -> 9 - a <= Z.of_nat fuel -> Z.of_nat i < 9 - a ->
  getQuizRoomByCode (generateRoomCode random (pos + 6 * i)) s = None ->
  (forall j, (j < i)%nat ->
     getQuizRoomByCode (generateRoomCode random (pos + 6 * j)) s <> None) ->
  allocate fuel random pos a s
  = (generateRoomCode random (pos + 6 * i), a + 1 + Z.of_nat i).
Proof.
  induction i as [|i IH]; intros fuel pos a A F L FREE TAKEN.
  - replace (pos + 6 * 0)%nat with pos in * by lia.
    destruct fuel; cbn [allocate]; rewrite FREE; f_equal; lia.
  - destruct fuel as [|fuel]; [lia|]. cbn [allocate].
    pose proof (TAKEN 0%nat ltac:(lia)) as T0.
    replace (pos + 6 * 0)%nat with pos in T0 by lia.
    destruct (getQuizRoomByCode (generateRoomCode random pos) s);
      [|congruence].
    assert ((a + 1 <? 10) = true) as -> by lia.
    rewrite (IH fuel (pos + 6)%nat (a + 1)); try lia.
    + f_equal; [f_equal; lia|lia].
    + replace (pos + 6 + 6 * i)%nat with (pos + 6 * S i)%nat by lia.
      exact FREE.
    + intros j J.
      replace (pos + 6 + 6 * j)%nat with (pos + 6 * S j)%nat by lia.
      apply TAKEN. lia.
Qed.

(** X12: a create request that passes the schema takes the first of the
    first nine room codes drawn that no room has: it succeeds with that
    code, six characters of the alphabet, whenever one of the nine is
    free, and answers 500 exactly when all nine are taken. *)
Theorem create_takes_first_free_code env body data s :
  CreateQuiz.parse body = Some data ->
  let drawn (i : nat) := generateRoomCode (random env) (6 * i) in
  (forall i : nat,
     (i < 9)%nat ->
     getQuizRoomByCode (drawn i) s = None ->
     (forall j, (j < i)%nat -> getQuizRoomByCode (drawn j) s <> None) ->
     exists s' room msg,
       post_quiz_create env body s
       = (s', Http.ok (Http.Created (drawn i) room msg)) /\
       getQuizRoomByCode (drawn i) s' = Some room) /\
  (Http.status (snd (post_quiz_create env body s)) = 500 <->
   forall i : nat, (i < 9)%nat -> getQuizRoomByCode (drawn i) s <> None) /\
  (forall i : nat,
     (forall k, (random env k < 36)%nat) ->
     String.length (drawn i) = 6%nat /\ alphanumeric (drawn i)).
Proof.
  intros P drawn. split; [|split].
  - intros i L FREE TAKEN.
    pose proof (allocate_first (random env) s i 9 0%nat 0
                  ltac:(lia) ltac:(lia) ltac:(lia) FREE TAKEN) as A.
    cbn [Nat.add] in A. fold (drawn i) in A.
    destruct (post_quiz_create_cases env body s)
      as [[_ S]|(data' & code & n & s' & P' & A' & N & F & E & _)].
    + exfalso. apply (proj1 (create_fails_iff env body data s P) S i L FREE).
    + rewrite A in A'. injection A' as <- <-.
      exists s'. eexists. eexists. split; [exact E|].
      apply (create_code_fresh env body s s' _ _ _ E).
  - apply (create_fails_iff env body data s P).
  - intros i B. now apply generateRoomCode_shape.
Qed.

Lemma create_takes_first_free_code_witness :
  exists s' room msg,
    post_quiz_create (mkEnv nine_collisions OpenAI.UpstreamThrows 1)
      (CreateQuiz.mkBody "Space" (Some 5) (Some 15) "h2") MemStorage.init
    = (s', Http.ok (Http.Created "AAAAAA" room msg)) /\
    getQuizRoomByCode "AAAAAA" s' = Some room.
Proof.
  assert (CreateQuiz.parse (CreateQuiz.mkBody "Space" (Some 5) (Some 15) "h2")
          = Some (CreateQuiz.mk "Space" 5 15 "h2")) as P
    by (vm_compute; reflexivity).
  refine (proj1 (create_takes_first_free_code
                   (mkEnv nine_collisions OpenAI.UpstreamThrows 1)
                   _ _ MemStorage.init P) 0%nat _ _ _).
  - lia.
  - vm_compute. reflexivity.
  - intros j J. lia.
Defined.

End CodeChoice.

(** ** Round trips *)

Section RoundTrips.
Import MemStorage Routes Invariant Effects.

Lemma filter_set {V} (f : string * V -> bool) (k : string) (v : V) m :
  f (k, v) = false ->
  (forall e, In e m -> fst e <> k -> f e = true) ->
  filter f (JSMap.set k v m) = JSMap.delete k m.
Proof.
  intros FK FO. unfold JSMap.set, JSMap.delete.
  destruct (JSMap.has k m) eqn:HK.
  - clear HK. induction m as [|[k' v'] m IH]; simpl; [reflexivity|].
    destruct (String.eqb_spec k' k) as [->|NE]; simpl.
    + rewrite FK. apply IH. intros e IN. apply FO. now right.
    + rewrite (FO (k', v')); [|now left|exact NE].
      f_equal. apply IH. intros e IN. apply FO. now right.
  - rewrite filter_app. simpl. rewrite FK, app_nil_r.
    apply filter_ext_in. intros [k' v'] IN. simpl.
    assert (k' <> k) as NE.
    { intros ->. apply JSMapFacts.has_false in HK. apply HK.
      apply in_map_iff. now exists (k, v'). }
    rewrite (FO (k', v') IN NE). symmetry. apply negb_true_iff.
    now apply String.eqb_neq.
Qed.

Lemma post_quiz_join_new now body room s :
  JoinQuiz.parse body = Some body ->
  getQuizRoomByCode (JoinQuiz.roomCode body) s = Some room ->
  QuizRoom.status room = waiting ->
  getPlayerById (JoinQuiz.playerId body) s = None ->
  let player := Player.mk (currentPlayerId s) (QuizRoom.id room)
                  (JoinQuiz.name body) (JoinQuiz.playerId body) 0 false now in
  let s' := MemStorage.mk (quizRooms s) (questions s)
              (players s ++ [(JoinQuiz.playerId body, player)]) (answers s)
              (currentRoomId s) (currentQuestionId s) (currentPlayerId s + 1)
              (currentAnswerId s) in
  post_quiz_join now body s
  = (s', Http.ok (Http.Joined player room
                    (getPlayersByRoomId (QuizRoom.id room) s')
                    "Successfully joined quiz")).
Proof.
  intros P G W GP. cbv zeta. unfold post_quiz_join. rewrite P, G, W, GP.
  cbn [Status_eqb negb]. unfold createPlayer.
  cbn [Player.i_roomId Player.i_name Player.i_playerId Player.i_score
       Player.i_isHost fst].
  rewrite num_or_zero. cbn [bool_or].
  unfold getPlayerById in GP. rewrite (set_absent _ _ _ GP). reflexivity.
Qed.

Lemma without_player_none pid ans :
  filter (fun a => String.eqb (Answer.playerId a) pid) (JSMap.values ans) = [] ->
  without_player pid ans = ans.
Proof.
  intros E. unfold without_player. apply filter_all. intros [k a] IN. simpl.
  destruct (String.eqb (Answer.playerId a) pid) eqn:X; [|reflexivity].
  assert (In a []) as []. rewrite <- E. apply filter_In. split; [|exact X].
  eapply JSMapFacts.in_values; eauto.
Qed.

(** X13: a player who joins under a token the store does not know and then
    leaves is gone without a trace: the store is the one before the
    join, but for the player counter, which has moved on by one. *)
Theorem join_then_leave now body room s :
  reachable s ->
  JoinQuiz.parse body = Some body ->
  getQuizRoomByCode (JoinQuiz.roomCode body) s = Some room ->
  QuizRoom.status room = waiting ->
  getPlayerById (JoinQuiz.playerId body) s = None ->
  getAnswersByPlayerId (JoinQuiz.playerId body) s = [] ->
  let s1 := fst (post_quiz_join now body s) in
  let leave := LeaveRoom.mk (JoinQuiz.playerId body) (JoinQuiz.roomCode body) in
  Http.status (snd (post_quiz_join now body s)) = 200 /\
  post_quiz_player_leave leave s1
  = (MemStorage.mk (quizRooms s) (questions s) (players s) (answers s)
       (currentRoomId s) (currentQuestionId s) (currentPlayerId s + 1)
       (currentAnswerId s),
     Http.ok (Http.Message "Player removed successfully")).
Proof.
  intros R P G W GP GA s1 leave.
  pose proof (post_quiz_join_new now body room s P G W GP) as E. cbv zeta in E.
  assert (Inv s1) as I1.
  { pose proof (Inv_handle (PostJoin now body) s (reachable_Inv s R)) as X.
    cbn [handle] in X. subst s1. now destruct (post_quiz_join now body s). }
  subst s1. rewrite E in *. cbn [fst snd] in *. split; [reflexivity|].
  assert (LeaveRoom.parse leave = Some leave) as PL.
  { unfold JoinQuiz.parse in P. unfold LeaveRoom.parse, leave.
    cbn [LeaveRoom.playerId LeaveRoom.roomCode].
    destruct (has_length (JoinQuiz.roomCode body) 6); [|discriminate].
    destruct (nonempty (JoinQuiz.name body)); [|discriminate].
    destruct (nonempty (JoinQuiz.playerId body)); [|discriminate].
    reflexivity. }
  unfold post_quiz_player_leave. rewrite PL.
  cbn [leave LeaveRoom.playerId].
  match goal with
  | |- context [getPlayerById ?k ?st] =>
      assert (getPlayerById k st
              = Some (Player.mk (currentPlayerId s) (QuizRoom.id room)
                        (JoinQuiz.name body) (JoinQuiz.playerId body) 0 false now))
        as GP1
  end.
  { unfold getPlayerById in *. cbn [players].
    rewrite (JSMapFacts.get_app_absent _ _ _ GP). simpl.
    now rewrite String.eqb_refl. }
  rewrite GP1. rewrite (cleanupPlayer_found _ _ _ I1 GP1).
  cbn [negb quizRooms questions players answers currentRoomId
       currentQuestionId currentPlayerId currentAnswerId].
  unfold getPlayerById in GP. rewrite (delete_last _ _ _ GP).
  now rewrite (without_player_none _ _ GA).
Qed.

Lemma join_then_leave_witness :
  reachable one_room /\
  players
    (fst (post_quiz_player_leave (LeaveRoom.mk "p1" "AAAAAA")
            (fst (post_quiz_join 1 (JoinQuiz.mk "AAAAAA" "Alice" "p1") one_room))))
  = players one_room.
Proof.
  split; [exact reachable_one_room|].
  destruct (getQuizRoomByCode "AAAAAA" one_room) as [room|] eqn:G;
    [|vm_compute in G; discriminate G].
  assert (QuizRoom.status room = waiting) as W
    by (vm_compute in G; injection G as <-; reflexivity).
  assert (JoinQuiz.parse (JoinQuiz.mk "AAAAAA" "Alice" "p1")
          = Some (JoinQuiz.mk "AAAAAA" "Alice" "p1")) as P
    by (vm_compute; reflexivity).
  assert (getPlayerById "p1" one_room = None) as GP by (vm_compute; reflexivity).
  assert (getAnswersByPlayerId "p1" one_room = []) as GA
    by (vm_compute; reflexivity).
  pose proof (proj2 (join_then_leave 1 (JoinQuiz.mk "AAAAAA" "Alice" "p1")
                       room one_room reachable_one_room P G W GP GA)) as E.
  cbv zeta in E. cbn [JoinQuiz.playerId JoinQuiz.roomCode] in E.
  now rewrite E.
Defined.

Lemma cleanupRoom_found code room s :
  Inv s -> getQuizRoomByCode code s = Some room ->
  cleanupRoom code s
  = (MemStorage.mk
       (JSMap.delete code (quizRooms s))
       (filter (fun e => negb (Question.roomId (snd e) =? QuizRoom.id room))
               (questions s))
       (filter (fun e => negb (Player.roomId (snd e) =? QuizRoom.id room))
               (players s))
       (without_questions
          (filter (fun q => Question.roomId q =? QuizRoom.id room)
                  (JSMap.values (questions s)))
          (answers s))
       (currentRoomId s) (currentQuestionId s) (currentPlayerId s)
       (currentAnswerId s), true).
Proof.
  intros I G. unfold cleanupRoom, getQuizRoomByCode in *. rewrite G.
  rewrite (delete_matching_filter Player.playerId
             (fun p => Player.roomId p =? QuizRoom.id room) (players s)
             (players_keyed s I)).
  rewrite (delete_matching_filter Question.id
             (fun q => Question.roomId q =? QuizRoom.id room) (questions s)
             (questions_keyed s I)).
  rewrite (fold_deleteAnswersOf_filter _ _ (answers_keyed s I)).
  f_equal. unfold JSMap.has. now rewrite G.
Qed.

(** X14: a room that is created and then cleaned up by its host is gone
    without a trace: rooms, questions and answers are those before the
    create, and so are the players, except that a record the host had
    before, in another room, is gone with the room; the counters of
    rooms, questions and players have moved on. *)
Theorem create_then_cleanup env body s s1 code room msg :
  reachable s ->
  post_quiz_create env body s = (s1, Http.ok (Http.Created code room msg)) ->
  let host := CreateQuiz.b_hostId body in
  post_quiz_cleanup code (CleanupRoom.mk host true) s1
  = (MemStorage.mk (quizRooms s) (questions s)
       (JSMap.delete host (players s)) (answers s)
       (currentRoomId s1) (currentQuestionId s1) (currentPlayerId s1)
       (currentAnswerId s),
     Http.ok (Http.Message "Room cleaned up successfully")) /\
  (getPlayerById host s = None -> JSMap.delete host (players s) = players s) /\
  currentRoomId s1 = currentRoomId s + 1 /\
  currentPlayerId s1 = currentPlayerId s + 1 /\
  currentQuestionId s1
  = currentQuestionId s
    + Z.of_nat (List.length (getQuestionsByRoomId (QuizRoom.id room) s1)).
Proof.
  intros R E host.
  pose proof (reachable_Inv s R) as I. pose proof (reachable_Shape s R) as S.
  assert (reachable s1) as R1.
  { pose proof (reachable_handle (PostCreate env body) s R) as X.
    cbn [handle] in X. now rewrite E in X. }
  pose proof (reachable_Inv s1 R1) as I1.
  pose proof (create_code_fresh env body s s1 code room msg E) as (F & G1 & _).
  pose proof (create_questions_listed env body s s1 code room msg R E) as GQ.
  destruct (create_success env body s s1 code room msg I E) as (data & P & Er & Es).
  pose proof (CreateQuiz_parse_some _ _ P) as (Q & T & PT & PH & HN & _).
  assert (QuizRoom.id room = currentRoomId s) as RI by (now subst room).
  assert (QuizRoom.hostId room = host) as RH by (now subst room).
  split; [|split; [|split; [|split]]].
  - unfold post_quiz_cleanup.
    assert (CleanupRoom.parse (CleanupRoom.mk host true)
            = Some (CleanupRoom.mk host true)) as ->.
    { unfold CleanupRoom.parse. cbn [CleanupRoom.playerId CleanupRoom.isHost].
      unfold host. rewrite <- PH.
      assert (nonempty (CreateQuiz.hostId data) = true) as ->
        by (unfold nonempty; apply negb_true_iff, String.eqb_neq, HN).
      reflexivity. }
    rewrite G1. cbn [CleanupRoom.playerId]. rewrite RH, String.eqb_refl.
    cbn [negb]. rewrite (cleanupRoom_found code room s1 I1 G1). cbn [negb].
    f_equal. rewrite RI. rewrite Es.
    cbn [quizRooms questions players answers currentRoomId currentQuestionId
         currentPlayerId currentAnswerId].
    f_equal.
    + apply delete_last. exact F.
    + rewrite filter_app.
      rewrite (filter_all _ (questions s)).
      * rewrite filter_none; [apply app_nil_r|].
        intros [k q] IN. apply in_by_id in IN. destruct IN as [_ IN].
        apply created_questions_spec in IN. simpl. rewrite IN.
        now rewrite Z.eqb_refl.
      * intros [k q] IN. simpl.
        destruct (questions_room s S _ _ IN) as (c & r & IR & ER).
        pose proof (rooms_ids s I _ _ IR).
        apply negb_true_iff, Z.eqb_neq. lia.
    + unfold host. rewrite <- PH. apply filter_set.
      * simpl. now rewrite Z.eqb_refl.
      * intros [k p] IN _. simpl.
        destruct (players_room s I _ _ IN) as (c & r & IR & ER).
        pose proof (rooms_ids s I _ _ IR).
        apply negb_true_iff, Z.eqb_neq. lia.
    + unfold without_questions. apply filter_all. intros [k a] IN. simpl.
      apply negb_true_iff.
      destruct (existsb _ _) eqn:X; [|reflexivity]. exfalso.
      apply existsb_exists in X. destruct X as (q & IQ & EQ).
      apply Z.eqb_eq in EQ. apply filter_In in IQ. destruct IQ as [IQ RQ].
      apply Z.eqb_eq in RQ.
      destruct (answers_question s S _ _ IN) as (q0 & IQ0).
      rewrite values_app in IQ. apply in_app_or in IQ.
      destruct IQ as [IQ|IQ].
      * apply JSMapFacts.values_in in IQ. destruct IQ as [k' IQ].
        destruct (questions_room s S _ _ IQ) as (c & r & IR & ER).
        pose proof (rooms_ids s I _ _ IR). lia.
      * rewrite values_by_id in IQ. apply created_questions_ids in IQ.
        pose proof (questions_ids s I _ _ IQ0). lia.
  - intros GP. now apply JSMapFacts.delete_absent.
  - now rewrite Es.
  - now rewrite Es.
  - rewrite GQ. unfold mapi. rewrite mapi_from_length.
    rewrite Es. cbn [currentQuestionId]. subst room.
    cbn [QuizRoom.questionCount created_room]. rewrite <- PT. reflexivity.
Qed.

Lemma create_then_cleanup_witness :
  reachable MemStorage.init /\
  quizRooms
    (fst (post_quiz_cleanup "AAAAAA" (CleanupRoom.mk "h1" true) one_room))
  = [].
Proof.
  split; [exact reachable_init|].
  destruct (post_quiz_create (mkEnv (fun _ => 0%nat) OpenAI.UpstreamThrows 0)
              (CreateQuiz.mkBody "Space" (Some 5) (Some 15) "h1")
              MemStorage.init) as [s1 [st b]] eqn:E.
  assert (s1 = one_room) as ES by (unfold one_room; now rewrite E).
  assert (exists room msg, st = 200 /\ b = Http.Created "AAAAAA" room msg)
    as (room & msg & -> & ->).
  { vm_compute in E. injection E as _ <- <-. eexists. eexists. split; reflexivity. }
  pose proof (proj1 (create_then_cleanup _ _ _ _ _ _ _ reachable_init E)) as X.
  cbv zeta in X. cbn [CreateQuiz.b_hostId] in X. rewrite ES in X.
  now rewrite X.
Defined.

End RoundTrips.

(** ** A room during its life *)

Section RoomLife.
Import MemStorage Routes Invariant Effects.





End RoomLife.

(** ** What an accepted answer leaves alone *)

Section AnswerFrame.
Import MemStorage Routes Invariant Effects.

Lemma answer_store_eq now body player question s :
  Inv s ->
  getPlayerById (SubmitAnswer.playerId body) s = Some player ->
  answer_store now body player question s
  = MemStorage.mk (quizRooms s) (questions s)
      (JSMap.set (SubmitAnswer.playerId body)
         (Player.with_score player
            (Player.score player + answer_points body question s))
         (players s))
      (answers s ++
       [(currentAnswerId s,
         Answer.mk (currentAnswerId s) (SubmitAnswer.playerId body)
           (Question.id question) (SubmitAnswer.selectedAnswer body)
           (answer_isCorrect body question)
           (SubmitAnswer.timeToAnswer body) now)])
      (currentRoomId s) (currentQuestionId s) (currentPlayerId s)
      (currentAnswerId s + 1).
Proof.
  intros I GP. unfold answer_store, updatePlayerScore, createAnswer.
  cbn [fst players Answer.i_playerId Answer.i_questionId
       Answer.i_selectedAnswer Answer.i_isCorrect Answer.i_timeToAnswer
       Answer.id].
  unfold getPlayerById in GP. rewrite GP.
  cbn [fst]. unfold set_players.
  cbn [quizRooms questions players answers currentRoomId currentQuestionId
       currentPlayerId currentAnswerId].
  rewrite (set_absent (currentAnswerId s)); [reflexivity|].
  apply JSMapFacts.get_none.
  intros IN. apply (keys_below _ _ (answers_ids s I)) in IN. lia.
Qed.

(** X16: an accepted answer adds one answer record, last in the map, under
    the next answer id, with the submitted fields and the time of the
    request, and replaces the score of the submitting player; the record
    of the player is otherwise the same and stays where it was in the
    map, and rooms, questions, the other players and the earlier answers
    are untouched. *)
Theorem accepted_answer_frame now body s s' r :
  reachable s ->
  post_quiz_answer now body s = (s', r) ->
  Http.status r = 200 ->
  let pid := SubmitAnswer.playerId body in
  quizRooms s' = quizRooms s /\ questions s' = questions s /\
  JSMap.keys (players s') = JSMap.keys (players s) /\
  (forall k, k <> pid -> getPlayerById k s' = getPlayerById k s) /\
  (exists p p',
     getPlayerById pid s = Some p /\ getPlayerById pid s' = Some p' /\
     p' = Player.with_score p (Player.score p')) /\
  (exists a,
     JSMap.values (answers s') = JSMap.values (answers s) ++ [a] /\
     JSMap.get (currentAnswerId s) (answers s') = Some a /\
     JSMap.get (currentAnswerId s) (answers s) = None /\
     a = Answer.mk (currentAnswerId s) pid (SubmitAnswer.questionId body)
           (SubmitAnswer.selectedAnswer body) (Answer.isCorrect a)
           (SubmitAnswer.timeToAnswer body) now) /\
  currentAnswerId s' = currentAnswerId s + 1.
Proof.
  intros R E OK pid. pose proof (reachable_Inv s R) as I.
  destruct (post_quiz_answer_cases now body s)
    as [(_ & N & _)|(player & question & _ & GP & HA & GQ & ER & E')].
  { rewrite E in N. now elim N. }
  rewrite E in E'. injection E' as -> _. clear E.
  rewrite (answer_store_eq now body player question s I GP).
  cbn [quizRooms questions players answers currentAnswerId].
  assert (JSMap.get (currentAnswerId s) (answers s) = None) as FA.
  { apply JSMapFacts.get_none.
    intros IN. apply (keys_below _ _ (answers_ids s I)) in IN. lia. }
  assert (Question.id question = SubmitAnswer.questionId body) as QI.
  { apply JSMapFacts.get_in in GQ.
    apply (proj2 (questions_keyed s I) _ _ GQ). }
  split; [reflexivity|]. split; [reflexivity|]. split.
  { apply keys_set_present. apply JSMapFacts.has_true.
    apply JSMapFacts.get_in in GP. apply in_map_iff. now exists (pid, player). }
  split.
  { intros k NE. unfold getPlayerById. cbn [players].
    now apply JSMapFacts.get_set_other. }
  split.
  { exists player. eexists. split; [exact GP|]. split.
    - unfold getPlayerById. cbn [players]. apply JSMapFacts.get_set_same.
    - reflexivity. }
  split; [|reflexivity].
  eexists. split; [|split; [|split; [exact FA|]]].
  - rewrite values_app. reflexivity.
  - rewrite (JSMapFacts.get_app_absent _ _ _ FA). simpl.
    now rewrite Z.eqb_refl.
  - cbn [Answer.isCorrect]. now rewrite QI.
Qed.

Lemma accepted_answer_frame_witness :
  reachable joined /\
  questions answered = questions joined /\ quizRooms answered = quizRooms joined.
Proof.
  split; [exact reachable_joined|].
  destruct (post_quiz_answer 2 (SubmitAnswer.mk "p1" 1 2 3) joined)
    as [s' r] eqn:E.
  assert (s' = answered) as ES
    by (unfold answered, run; cbn [fold_left handle]; now rewrite E).
  assert (Http.status r = 200) as OK
    by (vm_compute in E; injection E as _ <-; reflexivity).
  pose proof (accepted_answer_frame 2 _ joined s' r reachable_joined E OK)
    as (X1 & X2 & _).
  rewrite ES in X1, X2. split; assumption.
Defined.

End AnswerFrame.

(** ** The items of the service: all or none *)

Section UpstreamItems.
Import OpenAI.

Lemma validate_encode g : shaped g = true -> validate (encode g) = Some g.
Proof.
  destruct g as [q o c]. unfold shaped, validate, encode. simpl.
  intros S. apply andb_true_iff in S. destruct S as [S C3].
  apply andb_true_iff in S. destruct S as [S C0].
  apply andb_true_iff in S. destruct S as [T O].
  rewrite T. simpl.
  destruct o as [| | | | |items|]; try discriminate.
  apply Nat.eqb_eq in O. rewrite O. simpl.
  assert ((c <? 0) = false) as -> by lia.
  assert ((c >? 3) = false) as -> by lia. reflexivity.
Qed.

Lemma map_throwing_encode gs :
  Forall (fun g => shaped g = true) gs ->
  map_throwing validate (map encode gs) = Some gs.
Proof.
  induction 1 as [|g gs S _ IH]; simpl; [reflexivity|].
  now rewrite (validate_encode g S), IH.
Qed.

Lemma map_throwing_none {A B} (f : A -> option B) l x :
  In x l -> f x = None -> map_throwing f l = None.
Proof.
  induction l as [|y l IH]; simpl; [tauto|]. intros [->|IN] N.
  - now rewrite N.
  - destruct (f y); [|reflexivity]. now rewrite (IH IN N).
Qed.

Lemma map_throwing_some {A B} (f : A -> option B) l :
  (forall x, In x l -> f x <> None) ->
  exists l', map_throwing f l = Some l' /\
             Forall2 (fun x y => f x = Some y) l l'.
Proof.
  induction l as [|x l IH]; intros T; simpl.
  - exists []. split; [reflexivity|constructor].
  - destruct (f x) as [y|] eqn:E; [|now elim (T x (or_introl eq_refl))].
    destruct IH as (l' & -> & F); [intros z Z; apply T; now right|].
    exists (y :: l'). split; [reflexivity|]. now constructor.
Qed.

(** X17: the items the service sent are taken all or none. When every item
    passes the checks, the result is their first [count], in order and
    field by field as sent; well-formed items come back as they were
    encoded. When one item fails, wherever it stands (also past the
    first [count]), none is taken and the result is the first [count]
    samples. *)
Theorem upstream_items_all_or_none qs topic count :
  let r := generateQuizQuestions (answering qs) topic count in
  (forall gs,
     Forall (fun g => shaped g = true) gs -> qs = map encode gs ->
     r = slice0 gs count) /\
  (forall q,
     In q qs -> validate q = None ->
     r = slice0 FALLBACK_QUESTIONS count) /\
  ((forall q, In q qs -> validate q <> None) ->
   exists gs,
     r = slice0 gs count /\
     Forall2 (fun q g => validate q = Some g) qs gs).
Proof.
  cbv zeta. unfold generateQuizQuestions, answering, validatedQuestions.
  cbn [prop lookup String.eqb Ascii.eqb Bool.eqb].
  split; [|split].
  - intros gs S ->. now rewrite (map_throwing_encode gs S).
  - intros q IN N. now rewrite (map_throwing_none validate qs q IN N).
  - intros T. destruct (map_throwing_some validate qs T) as (gs & -> & F).
    now exists gs.
Qed.

End UpstreamItems.

(** ** Connections and broadcasts *)

Section Connections.
Import MemStorage Routes Invariant Effects.

Lemma write_get w f r w' :
  JSMap.get w' (Registry.sockets (Registry.write w f r))
  = if w' =? w then option_map f (JSMap.get w (Registry.sockets r))
    else JSMap.get w' (Registry.sockets r).
Proof.
  unfold Registry.write.
  destruct (JSMap.get w (Registry.sockets r)) as [sk|] eqn:G;
    cbn [Registry.sockets option_map].
  - destruct (Z.eqb_spec w' w) as [->|NE].
    + apply JSMapFacts.get_set_same.
    + now apply JSMapFacts.get_set_other.
  - destruct (Z.eqb_spec w' w) as [->|NE]; [exact G|reflexivity].
Qed.

Lemma write_clients w f r :
  Registry.clients (Registry.write w f r) = Registry.clients r.
Proof.
  unfold Registry.write. now destruct (JSMap.get w (Registry.sockets r)).
Qed.

Lemma write_next w f r :
  Registry.next (Registry.write w f r) = Registry.next r.
Proof.
  unfold Registry.write. now destruct (JSMap.get w (Registry.sockets r)).
Qed.

Lemma is_open_sockets r r' w :
  Registry.sockets r' = Registry.sockets r ->
  Registry.is_open r' w = Registry.is_open r w.
Proof. unfold Registry.is_open. now intros ->. Qed.

Lemma is_open_joined w c p h r w' :
  Registry.is_open (Registry.write w (Registry.joined_as c p h) r) w'
  = Registry.is_open r w'.
Proof.
  unfold Registry.is_open. rewrite write_get.
  destruct (Z.eqb_spec w' w) as [->|NE]; [|reflexivity].
  now destruct (JSMap.get w (Registry.sockets r)).
Qed.

Lemma is_open_closing w r w' :
  Registry.is_open (Registry.write w Registry.closing r) w'
  = negb (w' =? w) && Registry.is_open r w'.
Proof.
  unfold Registry.is_open. rewrite write_get.
  destruct (Z.eqb_spec w' w) as [->|NE]; [|reflexivity].
  now destruct (JSMap.get w (Registry.sockets r)).
Qed.

Lemma broadcast_open code excl r w :
  In w (Registry.broadcastToRoom code excl r) -> Registry.is_open r w = true.
Proof.
  unfold Registry.broadcastToRoom. intros IN. apply in_map_iff in IN.
  destruct IN as ([k w'] & <- & IN). apply filter_In in IN.
  destruct IN as [_ C]. apply andb_true_iff in C. destruct C as [C _].
  apply andb_true_iff in C. now destruct C.
Qed.

Lemma close_clients_shut w l : forall acc,
  Registry.is_open (fst acc) w = false -> ~ In w (snd acc) ->
  Registry.is_open (fst (fold_left Registry.close_client l acc)) w = false /\
  ~ In w (snd (fold_left Registry.close_client l acc)) /\
  Registry.next (fst (fold_left Registry.close_client l acc))
  = Registry.next (fst acc).
Proof.
  induction l as [|[k w'] l IH]; intros [r sent] O N; cbn [fold_left].
  - auto.
  - cbn [fst snd] in *.
    destruct (IH (Registry.close_client (r, sent) (k, w'))) as (O' & N' & X').
    + cbn [Registry.close_client fst snd].
      rewrite (is_open_sockets (Registry.write w' Registry.closing r))
        by reflexivity.
      rewrite is_open_closing, O. apply andb_false_r.
    + cbn [Registry.close_client fst snd]. intros IN.
      apply in_app_or in IN. destruct IN as [IN|IN]; [now apply N|].
      destruct (Registry.is_open r w') eqn:OW; [|contradiction].
      destruct IN as [->|[]]. congruence.
    + split; [exact O'|]. split; [exact N'|]. rewrite X'. reflexivity.
Qed.

Lemma perform_shut w w0 a r :
  Registry.is_open r w = false ->
  Registry.is_open (fst (Registry.perform w0 a r)) w = false /\
  (forall ev, ~ In (w, ev) (snd (Registry.perform w0 a r))) /\
  Registry.next (fst (Registry.perform w0 a r)) = Registry.next r.
Proof.
  intros O. destruct a as [pid code host|pid|code ev excl|code];
    cbn [Registry.perform].
  - cbn [fst snd Registry.next]. split; [|split; [intros ev []|apply write_next]].
    rewrite (is_open_sockets
               (Registry.write w0 (Registry.joined_as code pid host) r))
      by reflexivity.
    now rewrite is_open_joined.
  - cbn [fst snd]. split; [|split; [intros ev []|reflexivity]].
    now rewrite (is_open_sockets r) by reflexivity.
  - cbn [fst snd]. split; [exact O|]. split; [|reflexivity].
    intros ev' IN. apply in_map_iff in IN. destruct IN as (w' & [= -> _] & IN).
    apply broadcast_open in IN. congruence.
  - unfold Registry.closeRoomClients.
    destruct (close_clients_shut w
                (filter (Registry.in_room code r) (Registry.clients r))
                (r, []) O (fun x => x)) as (O' & N' & X').
    destruct (fold_left _ _ _) as [r1 sent]. cbn [fst snd] in *.
    split; [exact O'|]. split; [|exact X'].
    intros ev IN. apply in_map_iff in IN. destruct IN as (w' & [= -> _] & IN).
    now apply N'.
Qed.

Lemma perform_all_shut w w0 actions : forall r,
  Registry.is_open r w = false ->
  Registry.is_open (fst (Registry.perform_all w0 actions r)) w = false /\
  (forall ev, ~ In (w, ev) (snd (Registry.perform_all w0 actions r))) /\
  Registry.next (fst (Registry.perform_all w0 actions r)) = Registry.next r.
Proof.
  induction actions as [|a actions IH]; intros r O; cbn [Registry.perform_all].
  - cbn [fst snd]. split; [exact O|]. split; [intros ev []|reflexivity].
  - destruct (perform_shut w w0 a r O) as (O1 & N1 & X1).
    destruct (Registry.perform w0 a r) as [r1 sent1]. cbn [fst snd] in *.
    destruct (IH r1 O1) as (O2 & N2 & X2).
    destruct (Registry.perform_all w0 actions r1) as [r2 sent2].
    cbn [fst snd] in *. split; [exact O2|]. split; [|congruence].
    intros ev IN. apply in_app_or in IN. destruct IN as [IN|IN].
    + now apply (N1 ev).
    + now apply (N2 ev).
Qed.

Lemma step_shut w e st :
  Registry.is_open (Server.hub st) w = false ->
  w < Registry.next (Server.hub st) ->
  Registry.is_open (Server.hub (fst (Server.step e st))) w = false /\
  w < Registry.next (Server.hub (fst (Server.step e st))) /\
  (forall ev, ~ In (w, ev) (snd (Server.step e st))).
Proof.
  intros O L. destruct e as [req| |w0 data|w0]; cbn [Server.step].
  - destruct req; cbn [fst snd Server.hub]; auto.
  - cbn [fst snd Server.hub Registry.connection Registry.next].
    split; [|split; [lia|intros ev []]].
    unfold Registry.is_open in *. cbn [Registry.sockets].
    rewrite JSMapFacts.get_set_other by lia. exact O.
  - destruct (ws_message data (Server.store st)) as [s1 actions].
    destruct (perform_all_shut w w0 actions (Server.hub st) O) as (O1 & N1 & X1).
    destruct (Registry.perform_all w0 actions (Server.hub st)) as [r1 sent].
    cbn [fst snd Server.hub] in *. split; [exact O1|]. split; [lia|exact N1].
  - cbn [fst snd Server.hub]. split; [|split; [|intros ev []]].
    + unfold Registry.closed.
      assert (Registry.is_open (Registry.write w0 Registry.closing (Server.hub st)) w
              = false) as X by (rewrite is_open_closing, O; apply andb_false_r).
      destruct (JSMap.get w0 _) as [sk|]; [|exact X].
      destruct (Registry.playerId sk) as [pid|]; [|exact X].
      destruct (negb (String.eqb pid "")); [|exact X].
      now rewrite (is_open_sockets
                     (Registry.write w0 Registry.closing (Server.hub st)))
        by reflexivity.
    + unfold Registry.closed.
      pose proof (write_next w0 Registry.closing (Server.hub st)) as X.
      destruct (JSMap.get w0 _) as [sk|]; [|lia].
      destruct (Registry.playerId sk) as [pid|]; [|lia].
      destruct (negb (String.eqb pid "")); cbn [Registry.next]; lia.
Qed.

Lemma run_shut w events : forall st,
  Registry.is_open (Server.hub st) w = false ->
  w < Registry.next (Server.hub st) ->
  forall ev, ~ In (w, ev) (snd (Server.run events st)).
Proof.
  induction events as [|e events IH]; intros st O L ev; cbn [Server.run].
  - intros [].
  - destruct (step_shut w e st O L) as (O1 & L1 & N1).
    destruct (Server.step e st) as [st1 sent1]. cbn [fst snd] in *.
    specialize (IH st1 O1 L1 ev).
    destruct (Server.run events st1) as [st2 sent2]. cbn [fst snd] in *.
    intros IN. apply in_app_or in IN. destruct IN as [IN|IN].
    + now apply (N1 ev).
    + now apply IH.
Qed.

Lemma closed_next w r : Registry.next (Registry.closed w r) = Registry.next r.
Proof.
  unfold Registry.closed.
  pose proof (write_next w Registry.closing r) as X.
  destruct (JSMap.get w _) as [sk|]; [|exact X].
  destruct (Registry.playerId sk) as [pid|]; [|exact X].
  destruct (negb (String.eqb pid "")); [|exact X]. exact X.
Qed.

Lemma closed_is_open w r w' :
  Registry.is_open (Registry.closed w r) w'
  = negb (w' =? w) && Registry.is_open r w'.
Proof.
  rewrite <- is_open_closing. unfold Registry.closed.
  destruct (JSMap.get w _) as [sk|]; [|reflexivity].
  destruct (Registry.playerId sk) as [pid|]; [|reflexivity].
  destruct (negb (String.eqb pid "")); reflexivity.
Qed.

(** X18: once a socket has closed, nothing is ever sent to it: no broadcast
    and no room-closed notice, whatever happens afterwards, also when
    the socket is still registered under a token it joined with
    earlier. *)
Theorem closed_socket_receives_nothing w st events :
  w < Registry.next (Server.hub st) ->
  forall ev,
    ~ In (w, ev)
        (snd (Server.run events (fst (Server.step (Server.Close w) st)))).
Proof.
  intros L. apply run_shut; cbn [Server.step fst Server.hub].
  - now rewrite closed_is_open, Z.eqb_refl.
  - now rewrite closed_next.
Qed.

Lemma closed_socket_receives_nothing_witness :
  let st :=
    Server.mk one_room
      (fst (Registry.perform 0 (Hub.Register "h1" "AAAAAA" true)
              (fst (Registry.connection Registry.init)))) in
  ~ In (0, Hub.RoomClosed)
      (snd (Server.run
              [Server.Message 0 (Hub.MCleanupRoom "AAAAAA" "h1" true)]
              (fst (Server.step (Server.Close 0) st)))).
Proof.
  cbv zeta.
  refine (closed_socket_receives_nothing 0 _ _ _ Hub.RoomClosed).
  vm_compute. reflexivity.
Defined.

(** ** Joining, then the start of the quiz *)

Lemma join_room_step w code pid host st :
  fst (Server.step (Server.Message w (Hub.MJoinRoom code pid host)) st)
  = Server.mk (Server.store st)
      (Registry.mk
         (Registry.sockets
            (Registry.write w (Registry.joined_as code pid host) (Server.hub st)))
         (JSMap.set pid w (Registry.clients (Server.hub st)))
         (Registry.next (Server.hub st))).
Proof.
  cbn [Server.step ws_message Registry.perform_all Registry.perform].
  rewrite write_clients, write_next.
  destruct (getQuizRoomByCode code (Server.store st));
    cbn [Registry.perform_all Registry.perform fst snd]; reflexivity.
Qed.

Lemma ws_start_quiz c pid room s :
  Inv s -> getQuizRoomByCode c s = Some room ->
  ws_message (Hub.MStartQuiz c pid true) s
  = (set_quizRooms s
       (JSMap.set c (QuizRoom.spread room (QuizRoom.only_status active))
          (quizRooms s)),
     [Hub.BroadcastToRoom c
        (Hub.QuizStarted
           (at_index (getQuestionsByRoomId (QuizRoom.id room) s) 0)
           (QuizRoom.timePerQuestion room) 0
           (Z.of_nat (List.length (getQuestionsByRoomId (QuizRoom.id room) s))))
        None]).
Proof.
  intros I G. cbn [ws_message]. rewrite G.
  rewrite (updateQuizRoom_found c _ room s G).
  now rewrite (room_budget s c room I G).
Qed.

(** X19: a socket that is open and sends [join-room] for a room receives the
    start of the quiz when a [start-quiz] flagged as host comes for that
    room next: the first question, the time budget, index 0 and the
    number of questions; and nothing else is sent by the start. *)
Theorem joined_socket_gets_start w w0 code pid pid0 host room st :
  reachable (Server.store st) ->
  Registry.is_open (Server.hub st) w = true ->
  getQuizRoomByCode code (Server.store st) = Some room ->
  let st1 :=
    fst (Server.step (Server.Message w (Hub.MJoinRoom code pid host)) st) in
  let sent :=
    snd (Server.step (Server.Message w0 (Hub.MStartQuiz code pid0 true)) st1) in
  let qs := getQuestionsByRoomId (QuizRoom.id room) (Server.store st) in
  let started :=
    Hub.QuizStarted (at_index qs 0) (QuizRoom.timePerQuestion room) 0
      (Z.of_nat (List.length qs)) in
  In (w, started) sent /\
  (forall w' ev, In (w', ev) sent -> ev = started).
Proof.
  intros R O G st1 sent qs started.
  pose proof (reachable_Inv _ R) as I.
  subst sent st1. rewrite join_room_step.
  cbn [Server.step Server.store Server.hub].
  rewrite (ws_start_quiz code pid0 room _ I G).
  cbn [Registry.perform_all Registry.perform snd]. rewrite app_nil_r.
  fold qs. fold started. split.
  - apply in_map_iff. exists w. split; [reflexivity|].
    unfold Registry.broadcastToRoom. cbn [Registry.clients].
    apply in_map_iff. exists (pid, w). split; [reflexivity|].
    apply filter_In. split; [apply JSMapFacts.in_set; now left|].
    cbn [Registry.not_excluded fst snd]. rewrite andb_true_r.
    apply andb_true_iff. split.
    + unfold Registry.in_room. cbn [snd Registry.sockets].
      rewrite write_get, Z.eqb_refl.
      unfold Registry.is_open in O.
      destruct (JSMap.get w (Registry.sockets (Server.hub st))) as [sk|];
        [|discriminate].
      cbn [option_map Registry.joined_as Registry.roomCode].
      apply String.eqb_refl.
    + rewrite (is_open_sockets
                 (Registry.write w (Registry.joined_as code pid host)
                    (Server.hub st))) by reflexivity.
      now rewrite is_open_joined.
  - intros w' ev IN. apply in_map_iff in IN.
    now destruct IN as (x & [= _ <-] & _).
Qed.

Lemma joined_socket_gets_start_witness :
  let st := Server.mk one_room (fst (Registry.connection Registry.init)) in
  exists room started,
    getQuizRoomByCode "AAAAAA" one_room = Some room /\
    In (0, started)
       (snd (Server.step (Server.Message 0 (Hub.MStartQuiz "AAAAAA" "h1" true))
               (fst (Server.step
                       (Server.Message 0 (Hub.MJoinRoom "AAAAAA" "h1" true))
                       st)))).
Proof.
  cbv zeta.
  destruct (getQuizRoomByCode "AAAAAA" one_room) as [room|] eqn:G;
    [|vm_compute in G; discriminate G].
  assert (Registry.is_open (fst (Registry.connection Registry.init)) 0 = true)
    as O by (vm_compute; reflexivity).
  exists room. eexists. split; [reflexivity|].
  exact (proj1 (joined_socket_gets_start 0 0 "AAAAAA" "h1" "h1" true room
                  (Server.mk one_room (fst (Registry.connection Registry.init)))
                  reachable_one_room O G)).
Defined.

(** ** The close of a connection that was replaced *)

(** X20: when a second socket joins under the token of a first and the first
    then closes, the close unregisters the token: the second socket,
    though open, is registered under nothing and no broadcast reaches
    it. *)
Theorem close_of_replaced_connection w1 w2 pid c1 h1 c2 h2 st :
  w1 <> w2 -> pid <> "" ->
  JSMap.get w1 (Registry.sockets (Server.hub st)) <> None ->
  (forall k, In (k, w2) (Registry.clients (Server.hub st)) -> k = pid) ->
  let st1 := fst (Server.step (Server.Message w1 (Hub.MJoinRoom c1 pid h1)) st) in
  let st2 := fst (Server.step (Server.Message w2 (Hub.MJoinRoom c2 pid h2)) st1) in
  let st3 := fst (Server.step (Server.Close w1) st2) in
  JSMap.get pid (Registry.clients (Server.hub st2)) = Some w2 /\
  JSMap.get pid (Registry.clients (Server.hub st3)) = None /\
  (forall k, JSMap.get k (Registry.clients (Server.hub st3)) <> Some w2) /\
  (forall code excl,
     ~ In w2 (Registry.broadcastToRoom code excl (Server.hub st3))) /\
  Registry.is_open (Server.hub st3) w2 = Registry.is_open (Server.hub st) w2.
Proof.
  intros NE NP C1 ONLY st1 st2 st3.
  subst st3 st2 st1. rewrite !join_room_step.
  cbn [Server.step Server.hub Server.store fst Registry.sockets
       Registry.clients Registry.next].
  set (r := Server.hub st) in *.
  set (r1 := Registry.write w1 (Registry.joined_as c1 pid h1) r).
  set (r2 := Registry.write w2 (Registry.joined_as c2 pid h2)
               (Registry.mk (Registry.sockets r1)
                  (JSMap.set pid w1 (Registry.clients r))
                  (Registry.next r))).
  set (r2' := Registry.mk (Registry.sockets r2)
                (JSMap.set pid w2 (JSMap.set pid w1 (Registry.clients r)))
                (Registry.next r)).
  assert (exists sk, JSMap.get w1 (Registry.sockets r2') = Some sk /\
                     Registry.playerId sk = Some pid) as (sk & G1 & P1).
  { cbn [r2' Registry.sockets]. unfold r2. rewrite write_get.
    assert ((w1 =? w2) = false) as -> by (apply Z.eqb_neq; exact NE).
    cbn [Registry.sockets]. unfold r1. rewrite write_get, Z.eqb_refl.
    destruct (JSMap.get w1 (Registry.sockets r)) as [sk0|]; [|congruence].
    eexists. split; reflexivity. }
  assert (Registry.clients (Registry.closed w1 r2')
          = JSMap.delete pid
              (JSMap.set pid w2 (JSMap.set pid w1 (Registry.clients r)))) as CL.
  { unfold Registry.closed. rewrite write_get, Z.eqb_refl, G1.
    cbn [option_map Registry.closing Registry.playerId]. rewrite P1.
    assert (negb (String.eqb pid "") = true) as ->
      by (apply negb_true_iff, String.eqb_neq, NP).
    cbn [Registry.clients]. now rewrite write_clients. }
  assert (forall k, JSMap.get k (Registry.clients (Registry.closed w1 r2'))
                    <> Some w2) as NONE.
  { intros k GK. rewrite CL in GK. apply JSMapFacts.get_in in GK.
    apply JSMapFacts.in_delete in GK. destruct GK as [NK IN].
    apply JSMapFacts.in_set in IN. destruct IN as [[E _]|[_ IN]]; [congruence|].
    apply JSMapFacts.in_set in IN. destruct IN as [[E _]|[_ IN]]; [congruence|].
    apply NK. now apply ONLY. }
  split; [apply JSMapFacts.get_set_same|]. split.
  { rewrite CL. apply JSMapFacts.get_delete_same. }
  split; [exact NONE|]. split.
  - intros code excl IN. unfold Registry.broadcastToRoom in IN.
    apply in_map_iff in IN. destruct IN as ([k w'] & E & IN).
    cbn [snd] in E. subst w'. apply filter_In in IN. destruct IN as [IN _].
    rewrite CL in IN. apply JSMapFacts.in_delete in IN. destruct IN as [NK IN].
    apply JSMapFacts.in_set in IN. destruct IN as [[E _]|[_ IN]]; [congruence|].
    apply JSMapFacts.in_set in IN. destruct IN as [[E _]|[_ IN]]; [congruence|].
    apply NK. now apply ONLY.
  - rewrite closed_is_open.
    assert ((w2 =? w1) = false) as -> by (apply Z.eqb_neq; congruence).
    cbn [negb andb].
    rewrite (is_open_sockets r2) by reflexivity. unfold r2.
    rewrite is_open_joined.
    rewrite (is_open_sockets r1) by reflexivity. unfold r1.
    apply is_open_joined.
Qed.

Lemma close_of_replaced_connection_witness :
  let st :=
    Server.mk MemStorage.init
      (fst (Registry.connection (fst (Registry.connection Registry.init)))) in
  JSMap.get "p1"
    (Registry.clients
       (Server.hub
          (fst (Server.step (Server.Close 0)
                  (fst (Server.step
                          (Server.Message 1 (Hub.MJoinRoom "AAAAAA" "p1" false))
                          (fst (Server.step
                                  (Server.Message 0
                                     (Hub.MJoinRoom "AAAAAA" "p1" false))
                                  st))))))))
  = None.
Proof.
  cbv zeta.
  assert (0 <> 1) as NE by lia.
  assert ("p1" <> "") as NP by discriminate.
  refine (proj1 (proj2 (close_of_replaced_connection 0 1 "p1" "AAAAAA" false
                          "AAAAAA" false
                          (Server.mk MemStorage.init
                             (fst (Registry.connection
                                     (fst (Registry.connection Registry.init)))))
                          NE NP _ _))).
  - vm_compute. discriminate.
  - vm_compute. tauto.
Defined.

End Connections.

(** ** The roster after a join *)

Section JoinRoster.
Import MemStorage Routes Invariant Effects.

Lemma sort_insert_last {A} (cmp : A -> A -> Z) y x l :
  cmp y x <= 0 ->
  sort_insert cmp y (l ++ [x]) = sort_insert cmp y l ++ [x].
Proof.
  intros C. induction l as [|z l IH]; simpl.
  - assert ((cmp y x <=? 0) = true) as -> by lia. reflexivity.
  - destruct (cmp y z <=? 0); [reflexivity|]. now rewrite IH.
Qed.

Lemma js_sort_last {A} (cmp : A -> A -> Z) x l :
  (forall y, In y l -> cmp y x <= 0) ->
  js_sort cmp (l ++ [x]) = js_sort cmp l ++ [x].
Proof.
  induction l as [|y l IH]; intros C; simpl; [reflexivity|].
  unfold js_sort in *. rewrite IH by (intros z Z; apply C; now right).
  apply sort_insert_last. apply C. now left.
Qed.

Lemma post_quiz_join_store now body room s :
  Inv s ->
  JoinQuiz.parse body = Some body ->
  getQuizRoomByCode (JoinQuiz.roomCode body) s = Some room ->
  QuizRoom.status room = waiting ->
  (forall p, getPlayerById (JoinQuiz.playerId body) s = Some p ->
             Player.roomId p <> QuizRoom.id room) ->
  let player := Player.mk (currentPlayerId s) (QuizRoom.id room)
                  (JoinQuiz.name body) (JoinQuiz.playerId body) 0 false now in
  let s' := MemStorage.mk (quizRooms s) (questions s)
              (JSMap.delete (JoinQuiz.playerId body) (players s)
               ++ [(JoinQuiz.playerId body, player)])
              (match getPlayerById (JoinQuiz.playerId body) s with
               | Some _ => without_player (JoinQuiz.playerId body) (answers s)
               | None => answers s
               end)
              (currentRoomId s) (currentQuestionId s) (currentPlayerId s + 1)
              (currentAnswerId s) in
  post_quiz_join now body s
  = (s', Http.ok (Http.Joined player room
                    (getPlayersByRoomId (QuizRoom.id room) s')
                    "Successfully joined quiz")).
Proof.
  intros I P G W NP. cbv zeta. unfold post_quiz_join. rewrite P, G, W.
  cbn [Status_eqb negb].
  destruct (getPlayerById (JoinQuiz.playerId body) s) as [p|] eqn:GP.
  - assert ((Player.roomId p =? QuizRoom.id room) = false) as ->
      by (apply Z.eqb_neq; now apply NP).
    rewrite (cleanupPlayer_found _ p s I GP). cbn [fst].
    unfold createPlayer.
    cbn [Player.i_roomId Player.i_name Player.i_playerId Player.i_score
         Player.i_isHost quizRooms questions players answers currentRoomId
         currentQuestionId currentPlayerId currentAnswerId fst].
    rewrite num_or_zero. cbn [bool_or].
    rewrite set_absent by apply JSMapFacts.get_delete_same. reflexivity.
  - unfold createPlayer.
    cbn [Player.i_roomId Player.i_name Player.i_playerId Player.i_score
         Player.i_isHost fst].
    rewrite num_or_zero. cbn [bool_or].
    unfold getPlayerById in GP. rewrite set_absent by exact GP.
    rewrite (JSMapFacts.delete_absent _ _ GP). reflexivity.
Qed.

(** X21: a player who joins is shown last: the roster of the room after a
    successful join, which is the roster the response carries, is the
    roster before with the new player at the end. The roster of any
    other room is the one before, without the player if the token was a
    player there. *)
Theorem join_appends_to_roster now body room s :
  reachable s ->
  JoinQuiz.parse body = Some body ->
  getQuizRoomByCode (JoinQuiz.roomCode body) s = Some room ->
  QuizRoom.status room = waiting ->
  (forall p, getPlayerById (JoinQuiz.playerId body) s = Some p ->
             Player.roomId p <> QuizRoom.id room) ->
  let pid := JoinQuiz.playerId body in
  let player := Player.mk (currentPlayerId s) (QuizRoom.id room)
                  (JoinQuiz.name body) pid 0 false now in
  let s' := fst (post_quiz_join now body s) in
  getPlayersByRoomId (QuizRoom.id room) s'
  = getPlayersByRoomId (QuizRoom.id room) s ++ [player] /\
  snd (post_quiz_join now body s)
  = Http.ok (Http.Joined player room
               (getPlayersByRoomId (QuizRoom.id room) s ++ [player])
               "Successfully joined quiz") /\
  (forall rid, rid <> QuizRoom.id room ->
     getPlayersByRoomId rid s'
     = filter (fun x => negb (String.eqb (Player.playerId x) pid))
         (getPlayersByRoomId rid s)).
Proof.
  intros R P G W NP pid player s'. pose proof (reachable_Inv s R) as I.
  pose proof (post_quiz_join_store now body room s I P G W NP) as E.
  cbv zeta in E. fold pid in E. fold player in E.
  match type of E with
  | _ = (?st, _) => set (s1 := st) in *
  end.
  assert (forall rid,
            getPlayersByRoomId rid s1
            = js_sort (fun a b => Player.score b - Player.score a)
                (filter (fun p => Player.roomId p =? rid)
                   (filter (fun x => negb (String.eqb (Player.playerId x) pid))
                      (JSMap.values (players s)))
                 ++ (if QuizRoom.id room =? rid then [player] else []))) as RO.
  { intros rid. unfold getPlayersByRoomId, s1. cbn [players].
    rewrite values_app, filter_app.
    rewrite (values_delete Player.playerId pid (players s) (players_keyed s I)).
    reflexivity. }
  assert (getPlayersByRoomId (QuizRoom.id room) s1
          = getPlayersByRoomId (QuizRoom.id room) s ++ [player]) as RR.
  { rewrite RO, Z.eqb_refl. rewrite js_sort_last.
    - f_equal. unfold getPlayersByRoomId. f_equal.
      rewrite filter_comm. apply filter_all. intros x IN.
      apply filter_In in IN. destruct IN as [IN RX]. apply Z.eqb_eq in RX.
      apply negb_true_iff, String.eqb_neq. intros EP.
      apply JSMapFacts.values_in in IN. destruct IN as [k IN].
      pose proof (proj2 (players_keyed s I) _ _ IN) as KX.
      apply (NP x); [|exact RX].
      apply (keyed_get _ _ _ _ (players_keyed s I)).
      unfold pid in EP. replace (JoinQuiz.playerId body) with k by congruence.
      exact IN.
    - intros y IN. apply filter_In in IN. destruct IN as [IN _].
      apply filter_In in IN. destruct IN as [IN _].
      apply JSMapFacts.values_in in IN. destruct IN as [k IN].
      pose proof (players_score s I _ _ IN). cbn [player Player.score]. lia. }
  subst s'. rewrite E. cbn [fst snd]. split; [exact RR|]. split.
  - now rewrite RR.
  - intros rid NE. rewrite RO.
    assert ((QuizRoom.id room =? rid) = false) as ->
      by (apply Z.eqb_neq; congruence).
    rewrite app_nil_r. apply roster_filter.
Qed.

Lemma join_appends_to_roster_witness :
  reachable one_room /\
  map Player.playerId
    (getPlayersByRoomId 1
       (fst (post_quiz_join 1 (JoinQuiz.mk "AAAAAA" "Alice" "p1") one_room)))
  = ["h1"; "p1"].
Proof.
  split; [exact reachable_one_room|].
  destruct (getQuizRoomByCode "AAAAAA" one_room) as [room|] eqn:G;
    [|vm_compute in G; discriminate G].
  assert (room = QuizRoom.mk 1 "AAAAAA" "h1" "Space" 5 15 waiting 0 0) as ER
    by (vm_compute in G; now injection G).
  assert (JoinQuiz.parse (JoinQuiz.mk "AAAAAA" "Alice" "p1")
          = Some (JoinQuiz.mk "AAAAAA" "Alice" "p1")) as P
    by (vm_compute; reflexivity).
  assert (QuizRoom.status room = waiting) as W by (now subst room).
  assert (forall p, getPlayerById "p1" one_room = Some p ->
                    Player.roomId p <> QuizRoom.id room) as NP
    by (intros p GP; vm_compute in GP; discriminate GP).
  pose proof (proj1 (join_appends_to_roster 1 (JoinQuiz.mk "AAAAAA" "Alice" "p1")
                       room one_room reachable_one_room P G W NP)) as X.
  cbv zeta in X. subst room. cbn [QuizRoom.id JoinQuiz.playerId JoinQuiz.name] in X.
  rewrite X, map_app.
  assert (map Player.playerId (getPlayersByRoomId 1 one_room) = ["h1"]) as ->
    by (vm_compute; reflexivity).
  reflexivity.
Defined.

End JoinRoster.

(** ** Closing a room's connections *)

Section RoomClosing.
Import MemStorage Routes Invariant Effects.

Lemma close_clients_spec l : forall r sent,
  let out := fold_left Registry.close_client l (r, sent) in
  Registry.clients (fst out)
  = JSMap.delete_all (map fst l) (Registry.clients r) /\
  (forall w', Registry.is_open (fst out) w'
              = Registry.is_open r w'
                && negb (existsb (fun e => snd e =? w') l)) /\
  (forall w', In w' (snd out) <->
              In w' sent \/
              (Registry.is_open r w' = true /\ In w' (map snd l))) /\
  (NoDup sent -> (forall w', In w' sent -> Registry.is_open r w' = false) ->
   NoDup (snd out)).
Proof.
  induction l as [|[k w0] l IH]; intros r sent; cbn [fold_left map fst snd].
  - cbv zeta. cbn [fst snd existsb negb]. split; [reflexivity|].
    split; [intros w'; now rewrite andb_true_r|]. split; [|auto].
    intros w'. simpl. tauto.
  - cbn [Registry.close_client fst snd].
    set (r1 := Registry.mk
                 (Registry.sockets (Registry.write w0 Registry.closing r))
                 (JSMap.delete k (Registry.clients r)) (Registry.next r)).
    set (sent1 := sent ++ (if Registry.is_open r w0 then [w0] else [])).
    assert (forall w', Registry.is_open r1 w'
                       = negb (w' =? w0) && Registry.is_open r w') as O1.
    { intros w'.
      rewrite (is_open_sockets (Registry.write w0 Registry.closing r))
        by reflexivity.
      apply is_open_closing. }
    destruct (IH r1 sent1) as (C & O & S & N). cbv zeta in *.
    split; [exact C|]. split; [|split].
    + intros w'. rewrite O, O1. cbn [existsb snd].
      rewrite (Z.eqb_sym w0 w'). rewrite negb_orb.
      destruct (w' =? w0), (Registry.is_open r w'); reflexivity.
    + intros w'. rewrite S, O1. unfold sent1. rewrite in_app_iff.
      cbn [map snd In]. split.
      * intros [[IN|IN]|[OP IN]].
        -- now left.
        -- right. destruct (Registry.is_open r w0) eqn:OW; [|contradiction].
           destruct IN as [<-|[]]. auto.
        -- apply andb_true_iff in OP. destruct OP as [_ OP]. auto.
      * intros [IN|[OP [<-|IN]]].
        -- left. now left.
        -- left. right. rewrite OP. now left.
        -- destruct (Z.eqb_spec w' w0) as [->|NE].
           ++ left. right. rewrite OP. now left.
           ++ right. rewrite OP. auto.
    + intros ND CL. apply N.
      * unfold sent1. destruct (Registry.is_open r w0) eqn:OW;
          [|now rewrite app_nil_r].
        apply NoDup_app; [assumption|repeat constructor; simpl; tauto|].
        intros x IN [<-|[]]. specialize (CL _ IN). congruence.
      * intros w' IN. rewrite O1. unfold sent1 in IN.
        apply in_app_or in IN. destruct IN as [IN|IN].
        -- rewrite (CL _ IN). apply andb_false_r.
        -- destruct (Registry.is_open r w0); [|contradiction].
           destruct IN as [<-|[]]. now rewrite Z.eqb_refl.
Qed.

Lemma existsb_filter {A} (f g : A -> bool) l :
  existsb f (filter g l) = existsb (fun e => f e && g e) l.
Proof.
  induction l as [|e l IH]; cbn [filter existsb]; [reflexivity|].
  destruct (g e); cbn [existsb].
  - now rewrite andb_true_r, IH.
  - now rewrite andb_false_r.
Qed.

Lemma NoDup_tagged {A B} (b : B) (l : list A) :
  NoDup l -> NoDup (map (fun a => (a, b)) l).
Proof.
  induction 1 as [|a l NI ND IH]; simpl; constructor; [|assumption].
  intros IN. apply in_map_iff in IN. destruct IN as (a' & [= ->] & IN).
  contradiction.
Qed.

Lemma NoDup_keys_value {V} (k : string) (v v' : V) m :
  NoDup (JSMap.keys m) -> In (k, v) m -> In (k, v') m -> v = v'.
Proof.
  intros ND I1 I2. apply (JSMapFacts.in_get _ _ _ ND) in I1, I2. congruence.
Qed.

Lemma perform_keys w a r :
  NoDup (JSMap.keys (Registry.clients r)) ->
  NoDup (JSMap.keys (Registry.clients (fst (Registry.perform w a r)))).
Proof.
  intros ND. destruct a as [pid code host|pid|code ev excl|code];
    cbn [Registry.perform fst Registry.clients].
  - rewrite write_clients. now apply JSMapFacts.NoDup_keys_set.
  - now apply JSMapFacts.NoDup_keys_delete.
  - assumption.
  - unfold Registry.closeRoomClients.
    destruct (close_clients_spec
                (filter (Registry.in_room code r) (Registry.clients r)) r [])
      as (C & _).
    cbv zeta in C. destruct (fold_left _ _ _) as [r1 sent].
    cbn [fst] in *. rewrite C. now apply JSMapFacts.NoDup_keys_delete_all.
Qed.

Lemma perform_all_keys w actions : forall r,
  NoDup (JSMap.keys (Registry.clients r)) ->
  NoDup (JSMap.keys (Registry.clients (fst (Registry.perform_all w actions r)))).
Proof.
  induction actions as [|a actions IH]; intros r ND;
    cbn [Registry.perform_all]; [assumption|].
  pose proof (perform_keys w a r ND) as X.
  destruct (Registry.perform w a r) as [r1 sent1]. cbn [fst] in X.
  specialize (IH r1 X).
  now destruct (Registry.perform_all w actions r1).
Qed.

Lemma step_keys e st :
  NoDup (JSMap.keys (Registry.clients (Server.hub st))) ->
  NoDup (JSMap.keys (Registry.clients (Server.hub (fst (Server.step e st))))).
Proof.
  intros ND. destruct e as [req| |w data|w]; cbn [Server.step].
  - destruct req; cbn [fst Server.hub]; assumption.
  - assumption.
  - destruct (ws_message data (Server.store st)) as [s1 actions].
    pose proof (perform_all_keys w actions (Server.hub st) ND) as X.
    now destruct (Registry.perform_all w actions (Server.hub st)).
  - cbn [fst Server.hub]. unfold Registry.closed.
    pose proof (write_clients w Registry.closing (Server.hub st)) as X.
    destruct (JSMap.get w _) as [sk|]; [|now rewrite X].
    destruct (Registry.playerId sk) as [pid|]; [|now rewrite X].
    destruct (negb (String.eqb pid "")); [|now rewrite X].
    cbn [Registry.clients]. rewrite X.
    now apply JSMapFacts.NoDup_keys_delete.
Qed.

Lemma reachable_keys st :
  Server.reachable st -> NoDup (JSMap.keys (Registry.clients (Server.hub st))).
Proof.
  intros [events <-].
  assert (forall st0,
            NoDup (JSMap.keys (Registry.clients (Server.hub st0))) ->
            NoDup (JSMap.keys (Registry.clients
                                 (Server.hub (fst (Server.run events st0))))))
    as X.
  { induction events as [|e events IH]; intros st0 ND; cbn [Server.run];
      [assumption|].
    pose proof (step_keys e st0 ND) as X.
    destruct (Server.step e st0) as [st1 sent1]. cbn [fst] in X.
    specialize (IH st1 X). now destruct (Server.run events st1). }
  apply X. constructor.
Qed.

(** X22: A [cleanup-room] message flagged as host unregisters exactly the
    tokens whose socket last joined the room, closes those sockets, and
    sends the room-closed notice once to each of them that was open, and
    to no other socket. *)
Theorem cleanup_room_closes_the_room w code pid st :
  Server.reachable st ->
  let r := Server.hub st in
  let out := Server.step (Server.Message w (Hub.MCleanupRoom code pid true)) st in
  Registry.clients (Server.hub (fst out))
  = filter (fun e => negb (Registry.in_room code r e)) (Registry.clients r) /\
  (forall w',
     Registry.is_open (Server.hub (fst out)) w'
     = Registry.is_open r w'
       && negb (existsb (fun e => (snd e =? w') && Registry.in_room code r e)
                        (Registry.clients r))) /\
  (forall w' ev,
     In (w', ev) (snd out) <->
     ev = Hub.RoomClosed /\ Registry.is_open r w' = true /\
     exists k, In (k, w') (Registry.clients r) /\
               Registry.in_room code r (k, w') = true) /\
  NoDup (snd out).
Proof.
  intros R r out. pose proof (reachable_keys st R) as ND. fold r in ND.
  subst out. cbn [Server.step ws_message].
  destruct (cleanupRoom code (Server.store st)) as [s1 ok].
  cbn [Registry.perform_all Registry.perform]. fold r.
  unfold Registry.closeRoomClients.
  destruct (close_clients_spec
              (filter (Registry.in_room code r) (Registry.clients r)) r [])
    as (C & O & S & N).
  cbv zeta in *. destruct (fold_left _ _ _) as [r1 sent].
  cbn [fst snd Server.hub] in *. rewrite app_nil_r.
  split; [|split; [|split]].
  - rewrite C, delete_all_filter. apply filter_ext_in. intros [k w'] IN.
    cbn [fst]. f_equal.
    destruct (Registry.in_room code r (k, w')) eqn:IR.
    + apply existsb_exists. exists k. split; [|apply String.eqb_refl].
      apply in_map_iff. exists (k, w'). split; [reflexivity|].
      apply filter_In. auto.
    + destruct (existsb _ _) eqn:X; [|reflexivity].
      apply existsb_exists in X. destruct X as (k' & IK & EK).
      apply String.eqb_eq in EK. subst k'.
      apply in_map_iff in IK. destruct IK as ([k' w''] & EK & IK).
      cbn [fst] in EK. subst k'. apply filter_In in IK. destruct IK as [IK IR'].
      assert (w'' = w') as -> by (apply (NoDup_keys_value k _ _ _ ND IK IN)).
      congruence.
  - intros w'. rewrite O. f_equal. f_equal. apply existsb_filter.
  - intros w' ev. split.
    + intros IN. apply in_map_iff in IN. destruct IN as (x & [= -> <-] & IN).
      apply S in IN. destruct IN as [[]|[OP IN]].
      split; [reflexivity|]. split; [exact OP|].
      apply in_map_iff in IN. destruct IN as ([k w''] & E & IN).
      cbn [snd] in E. subst w''. apply filter_In in IN. exists k. exact IN.
    + intros (-> & OP & k & IN & IR). apply in_map_iff. exists w'.
      split; [reflexivity|]. apply S. right. split; [exact OP|].
      apply in_map_iff. exists (k, w'). split; [reflexivity|].
      apply filter_In. auto.
  - apply NoDup_tagged. apply N; [constructor|intros w' []].
Qed.

Lemma cleanup_room_closes_the_room_witness :
  let st :=
    fst (Server.run
           [Server.Connect;
            Server.Message 0 (Hub.MJoinRoom "AAAAAA" "h1" true)]
           Server.init) in
  Server.reachable st /\
  In (0, Hub.RoomClosed)
     (snd (Server.step (Server.Message 0 (Hub.MCleanupRoom "AAAAAA" "h1" true))
             st)).
Proof.
  cbv zeta.
  assert (Server.reachable
            (fst (Server.run
                    [Server.Connect;
                     Server.Message 0 (Hub.MJoinRoom "AAAAAA" "h1" true)]
                    Server.init))) as R by (eexists; reflexivity).
  split; [exact R|].
  apply (proj2 (proj1 (proj2 (proj2 (cleanup_room_closes_the_room 0 "AAAAAA" "h1"
                                        _ R))) 0 Hub.RoomClosed)).
  split; [reflexivity|]. split; [vm_compute; reflexivity|].
  exists "h1". split; vm_compute; auto.
Defined.

(** ** The sender of a message *)

Lemma perform_all_sender w1 w2 actions : forall r,
  (forall pid code host, ~ In (Hub.Register pid code host) actions) ->
  Registry.perform_all w1 actions r = Registry.perform_all w2 actions r.
Proof.
  induction actions as [|a actions IH]; intros r NR;
    cbn [Registry.perform_all]; [reflexivity|].
  assert (Registry.perform w1 a r = Registry.perform w2 a r) as ->.
  { destruct a as [pid code host| | |]; try reflexivity.
    elim (NR pid code host). now left. }
  destruct (Registry.perform w2 a r) as [r1 sent1].
  rewrite IH; [reflexivity|]. intros pid code host IN.
  apply (NR pid code host). now right.
Qed.

(** X23: no message but [join-room] looks at the connection it comes on:
    whichever socket sends a start, an advance, a finish, a cleanup or a
    leave, for any room and any player, the store, the registry and the
    events sent are the same. *)
Theorem messages_ignore_their_sender w1 w2 data st :
  (forall code pid host, data <> Hub.MJoinRoom code pid host) ->
  Server.step (Server.Message w1 data) st
  = Server.step (Server.Message w2 data) st.
Proof.
  intros NJ. cbn [Server.step].
  assert (forall pid code host,
            ~ In (Hub.Register pid code host)
                 (snd (ws_message data (Server.store st)))) as NR.
  { intros pid code host.
    destruct data as [c p h|c p|c p h|c p h|c p h|c p h|]; cbn [ws_message].
    - now elim (NJ c p h).
    - destruct (cleanupPlayer p (Server.store st)) as [s1 b]. cbn [snd].
      destruct (getQuizRoomByCode c s1); simpl; intuition discriminate.
    - destruct h; [|simpl; tauto].
      destruct (cleanupRoom c (Server.store st)). simpl. intuition discriminate.
    - destruct h; [|simpl; tauto].
      destruct (getQuizRoomByCode c (Server.store st)); [|simpl; tauto].
      destruct (updateQuizRoom c _ _). simpl. intuition discriminate.
    - destruct h; [|simpl; tauto].
      destruct (getQuizRoomByCode c (Server.store st)); [|simpl; tauto].
      destruct (_ <? _); destruct (updateQuizRoom c _ _); simpl;
        intuition discriminate.
    - destruct h; [|simpl; tauto].
      destruct (getQuizRoomByCode c (Server.store st)); [|simpl; tauto].
      destruct (updateQuizRoom c _ _). simpl. intuition discriminate.
    - simpl. tauto. }
  destruct (ws_message data (Server.store st)) as [s1 actions]. cbn [snd] in NR.
  now rewrite (perform_all_sender w1 w2 actions (Server.hub st) NR).
Qed.

Lemma messages_ignore_their_sender_witness :
  Server.step (Server.Message 0 (Hub.MLeaveRoom "AAAAAA" "h1"))
    (Server.mk one_room Registry.init)
  = Server.step (Server.Message 7 (Hub.MLeaveRoom "AAAAAA" "h1"))
      (Server.mk one_room Registry.init).
Proof.
  apply messages_ignore_their_sender. intros code pid host. discriminate.
Defined.

End RoomClosing.

(** ** Finishing a quiz *)

Section Finishing.
Import MemStorage Routes Invariant Effects.

Lemma set_twice {V} (k : string) (v v' : V) m :
  JSMap.get k m <> None ->
  JSMap.set k v' (JSMap.set k v m) = JSMap.set k v' m.
Proof.
  intros G. unfold JSMap.set at 1.
  assert (JSMap.has k (JSMap.set k v m) = true) as ->
    by (unfold JSMap.has; now rewrite JSMapFacts.get_set_same).
  unfold JSMap.set, JSMap.has. destruct (JSMap.get k m); [|congruence].
  rewrite map_map. apply map_ext. intros [k' x]. cbn [fst].
  destruct (String.eqb_spec k' k) as [->|NE]; cbn [fst keqb string_KeyEq].
  - rewrite String.eqb_refl. cbn [fst]. now rewrite String.eqb_refl.
  - apply String.eqb_neq in NE. rewrite NE. cbn [fst]. now rewrite NE.
Qed.

(** X24: a [quiz-finished] message flagged as host stores [finished],
    whatever the status was, leaves everything else of the room as it
    is, and sends every participant the roster, highest score first;
    sent again, it changes nothing more and sends the same. *)
Theorem finish_is_idempotent c pid room s :
  getQuizRoomByCode c s = Some room ->
  let out := ws_message (Hub.MQuizFinished c pid true) s in
  snd out
  = [Hub.BroadcastToRoom c
       (Hub.QuizFinished (getPlayersByRoomId (QuizRoom.id room) s)) None] /\
  getQuizRoomByCode c (fst out)
  = Some (QuizRoom.spread room (QuizRoom.only_status finished)) /\
  settings (QuizRoom.spread room (QuizRoom.only_status finished))
  = settings room /\
  QuizRoom.currentQuestionIndex
    (QuizRoom.spread room (QuizRoom.only_status finished))
  = QuizRoom.currentQuestionIndex room /\
  questions (fst out) = questions s /\ players (fst out) = players s /\
  answers (fst out) = answers s /\
  (forall pid', ws_message (Hub.MQuizFinished c pid' true) (fst out) = out).
Proof.
  intros G out. subst out. cbn [ws_message]. rewrite G.
  rewrite (updateQuizRoom_found c _ room s G). cbv zeta. cbn [fst snd].
  change (getPlayersByRoomId (QuizRoom.id room)
            (set_quizRooms s
               (JSMap.set c (QuizRoom.spread room (QuizRoom.only_status finished))
                  (quizRooms s))))
    with (getPlayersByRoomId (QuizRoom.id room) s).
  rewrite getPlayersByRoomId_resorted.
  assert (getQuizRoomByCode c
            (set_quizRooms s
               (JSMap.set c (QuizRoom.spread room (QuizRoom.only_status finished))
                  (quizRooms s)))
          = Some (QuizRoom.spread room (QuizRoom.only_status finished))) as G'
    by (unfold getQuizRoomByCode; cbn; apply JSMapFacts.get_set_same).
  split; [reflexivity|]. split; [exact G'|].
  split; [reflexivity|]. split; [reflexivity|].
  split; [reflexivity|]. split; [reflexivity|]. split; [reflexivity|].
  intros pid'. rewrite G'.
  rewrite (updateQuizRoom_found c _ _ _ G'). cbn [fst snd].
  change (getPlayersByRoomId
            (QuizRoom.id (QuizRoom.spread room (QuizRoom.only_status finished)))
            (set_quizRooms _ _))
    with (getPlayersByRoomId (QuizRoom.id room) s).
  rewrite getPlayersByRoomId_resorted. f_equal.
  unfold set_quizRooms. cbn [quizRooms questions players answers currentRoomId
    currentQuestionId currentPlayerId currentAnswerId].
  f_equal. unfold getQuizRoomByCode in G.
  rewrite set_twice by congruence. reflexivity.
Qed.

Lemma finish_is_idempotent_witness :
  exists room,
    getQuizRoomByCode "AAAAAA" answered = Some room /\
    snd (ws_message (Hub.MQuizFinished "AAAAAA" "h1" true) answered)
    = [Hub.BroadcastToRoom "AAAAAA"
         (Hub.QuizFinished (getPlayersByRoomId (QuizRoom.id room) answered))
         None].
Proof.
  destruct (getQuizRoomByCode "AAAAAA" answered) as [room|] eqn:G;
    [|vm_compute in G; discriminate G].
  exists room. split; [reflexivity|].
  exact (proj1 (finish_is_idempotent "AAAAAA" "h1" room answered G)).
Defined.

End Finishing.
